(** * yo-gurt: the GURT/1.0.0 client framing, embedded and verified

    The repository holds two ports of the same client:
    - [Web]  : the port over web streams ([ReadableStream]/[WritableStream]),
    - [Node] : the port over a Node [Duplex] socket.

    Both are embedded below, function by function.  A promise is modelled by
    its [outcome]: the value it resolves to, the error it rejects with, or
    [Pending] when it never settles.

    What the model takes for granted: the read side of a transport delivers
    finitely many chunks and then ends, without error; writes succeed; text
    is the ASCII text of the wire format; and the lengths passed to the
    reader are those of buffers, natural numbers. *)

From Stdlib Require Import List Strings.String Strings.Ascii Strings.Byte ZArith NArith Bool Arith Lia.
From Stdlib Require Import Numbers.DecimalString Numbers.DecimalNat.
Import ListNotations.
Local Open Scope list_scope.

(** ** Bytes, errors, outcomes *)

Definition bytes := list byte.

Definition CRLF : bytes := [x0d; x0a].

(** The four messages the code throws with [new Error(...)]. *)
Inductive Error : Type :=
| Unexpected_EOF
| Invalid_protocol
| Invalid_status_code
| Invalid_header.

(** The error kinds of the protocol description, and the kind each thrown
    message stands for. *)
Inductive ErrorKind : Type :=
| TruncatedStream
| LineTooLong
| ProtocolMismatch
| MalformedStatusCode
| MalformedHeader.

Definition kind_of (e : Error) : ErrorKind :=
  match e with
  | Unexpected_EOF => TruncatedStream
  | Invalid_protocol => ProtocolMismatch
  | Invalid_status_code => MalformedStatusCode
  | Invalid_header => MalformedHeader
  end.

Inductive outcome (A : Type) : Type :=
| Returned (a : A)
| Threw (e : Error)
| Pending.

Arguments Returned {A} a.
Arguments Threw {A} e.
Arguments Pending {A}.

(** ** Constants *)

Definition GURT_VERSION : string := "GURT/1.0.0".
Definition MAX_MESSAGE_SIZE : Z := 10 * 1024 * 1024.

(** ** Searching the delimiter

    [for (let i = 0; i + 1 < b.length; i++)
       if (b[i] === 0x0d && b[i + 1] === 0x0a) return i;
     return -1;]
    The recursion walks the buffer from position [i]. *)
Fixpoint indexOfCRLF_from (i : Z) (b : bytes) : Z :=
  match b with
  | x :: ((y :: _) as tl) =>
      if Byte.eqb x x0d && Byte.eqb y x0a then i
      else indexOfCRLF_from (i + 1) tl
  | _ => (-1)%Z
  end.

Definition indexOfCRLF (b : bytes) : Z := indexOfCRLF_from 0 b.

(** [b.slice(0, k)] and [b.slice(k)] for [0 <= k]. *)
Definition slice_to (k : nat) (b : bytes) : bytes := firstn k b.
Definition slice_from (k : nat) (b : bytes) : bytes := skipn k b.

(** ** JavaScript strings and numbers

    A JavaScript string is modelled by a [string], one [ascii] per code
    unit.  The functions below are those of the language on code units
    below 128, the alphabet of the wire format; the statements about text
    are made for such strings. *)

Definition ascii_char (c : ascii) : bool := (N_of_ascii c <? 128)%N.

Fixpoint ascii_string (s : string) : bool :=
  match s with
  | EmptyString => true
  | String c s' => ascii_char c && ascii_string s'
  end.

(** The string ["\r\n"]. *)
Definition crlf : string :=
  String (ascii_of_nat 13) (String (ascii_of_nat 10) EmptyString).

(** White space and line terminators below 128: TAB, LF, VT, FF, CR, SP. *)
Definition isWhiteSpace (c : ascii) : bool :=
  let n := nat_of_ascii c in
  (n =? 9) || (n =? 10) || (n =? 11) || (n =? 12) || (n =? 13) || (n =? 32).

Fixpoint trimStart (s : string) : string :=
  match s with
  | EmptyString => EmptyString
  | String c s' => if isWhiteSpace c then trimStart s' else s
  end.

Fixpoint trimEnd (s : string) : string :=
  match s with
  | EmptyString => EmptyString
  | String c s' =>
      match trimEnd s' with
      | EmptyString => if isWhiteSpace c then EmptyString else String c EmptyString
      | t => String c t
      end
  end.

(** [s.trim()] *)
Definition trim (s : string) : string := trimEnd (trimStart s).

Definition lower (c : ascii) : ascii :=
  let n := nat_of_ascii c in
  if (65 <=? n) && (n <=? 90) then ascii_of_nat (n + 32) else c.

(** [s.toLowerCase()] *)
Fixpoint toLowerCase (s : string) : string :=
  match s with
  | EmptyString => EmptyString
  | String c s' => String (lower c) (toLowerCase s')
  end.

(** [s.indexOf(c)], [-1] when [c] does not occur. *)
Fixpoint indexOf_from (i : Z) (c : ascii) (s : string) : Z :=
  match s with
  | EmptyString => (-1)%Z
  | String x s' => if Ascii.eqb x c then i else indexOf_from (i + 1) c s'
  end.

Definition indexOf (c : ascii) (s : string) : Z := indexOf_from 0 c s.

(** [s.slice(0, k)] and [s.slice(k)] for [0 <= k]. *)
Fixpoint str_slice_to (k : nat) (s : string) : string :=
  match k, s with
  | S k', String c s' => String c (str_slice_to k' s')
  | _, _ => EmptyString
  end.

Fixpoint str_slice_from (k : nat) (s : string) : string :=
  match k, s with
  | S k', String _ s' => str_slice_from k' s'
  | _, _ => s
  end.

(** [s.split(sep)] for a one-character separator: never an empty array. *)
Fixpoint split (sep : ascii) (s : string) : list string :=
  match s with
  | EmptyString => [EmptyString]
  | String c s' =>
      if Ascii.eqb c sep then EmptyString :: split sep s'
      else
        match split sep s' with
        | [] => [String c EmptyString]
        | hd :: tl => String c hd :: tl
        end
  end.

(** A JavaScript number that [parseInt] can return: [NaN], a finite
    double with an integer value, negative zero, or an infinity.  [Num z]
    is the double whose value is the integer [z]; [Num 0] is positive
    zero. *)
Inductive number : Type :=
| NaN
| Num (z : Z)
| NegZero
| Infinity (negative : bool).

(** The double nearest to the natural number [m], ties to the even
    significand, as the integer it is worth; [None] when [m] rounds beyond
    the largest finite double.  Up to [2^53] every natural number is a
    double; above, [m] is cut to its leading 53 bits and rounded. *)
Definition nearest_double (m : Z) : option Z :=
  if (m <=? 2 ^ 53)%Z then Some m
  else
    let e := (Z.log2 m - 52)%Z in
    let q := Z.shiftr m e in
    let r := (m - Z.shiftl q e)%Z in
    let half := Z.shiftl 1 (e - 1) in
    let q' := if (half <? r)%Z || ((r =? half)%Z && Z.odd q) then (q + 1)%Z else q in
    let v := Z.shiftl q' e in
    if (2 ^ 1024 <=? v)%Z then None else Some v.

(** The number with the sign [negative] and the magnitude [m], a natural
    number, as [parseInt] returns it: the nearest double, an infinity
    beyond the doubles, and negative zero for [-0]. *)
Definition to_number (negative : bool) (m : Z) : number :=
  match nearest_double m with
  | None => Infinity negative
  | Some 0%Z => if negative then NegZero else Num 0
  | Some v => Num (if negative then (- v)%Z else v)
  end.

Definition digit_of (c : ascii) : option Z :=
  let n := nat_of_ascii c in
  if (48 <=? n) && (n <=? 57) then Some (Z.of_nat (n - 48)) else None.

(** The value of the longest prefix of decimal digits, from [acc]. *)
Fixpoint parse_digits (acc : Z) (s : string) : Z :=
  match s with
  | EmptyString => acc
  | String c s' =>
      match digit_of c with
      | Some d => parse_digits (acc * 10 + d) s'
      | None => acc
      end
  end.

Definition starts_with_digit (s : string) : bool :=
  match s with
  | String c _ => match digit_of c with Some _ => true | None => false end
  | EmptyString => false
  end.

(** [parseInt(s, 10)]: leading white space is skipped, one sign is taken,
    then the longest run of decimal digits is read; with the radix given
    as 10 no ["0x"] prefix is recognised.  No digit: [NaN].  Otherwise the
    number is the double nearest to the value of the run, with the sign.
    (For a run of more than 20 significant digits the language lets an
    implementation read the digits after the 20th as zeros; the model
    rounds the exact value, and the statements about the value of a run
    stay within 20 digits.) *)
Definition parseInt_string (s : string) : number :=
  let s0 := trimStart s in
  let '(negative, s1) :=
    match s0 with
    | String "-"%char t => (true, t)
    | String "+"%char t => (false, t)
    | _ => (false, s0)
    end in
  if starts_with_digit s1 then to_number negative (parse_digits 0 s1) else NaN.

(** [parseInt(parts[1], 10)]: a missing element is [undefined], which
    [parseInt] first turns into the string ["undefined"]. *)
Definition parseInt (x : option string) : number :=
  parseInt_string (match x with Some s => s | None => "undefined"%string end).

(** [Number.isNaN(x)] *)
Definition isNaN (x : number) : bool :=
  match x with NaN => true | _ => false end.

(** [`${n}`] for a number that is a natural number up to [2^53]: its
    decimal digits, ["0"] for zero.  (Up to [2^53] every natural number
    is a JavaScript number and is written with all its digits; above,
    the digits written are those of the nearest double, in its shortest
    form.  The statements about [decimal] stay within [2^53].) *)
Definition decimal (n : nat) : string :=
  NilEmpty.string_of_uint (Nat.to_uint n).

(** [if (s)] for an optional string: [undefined] and the empty string are
    false. *)
Definition truthy (s : option string) : bool :=
  match s with
  | None => false
  | Some EmptyString => false
  | Some (String _ _) => true
  end.

(** ** Protocol enumerations *)

Inductive Method : Type :=
| Get | Post | Put | Delete | Head | Options | Patch | Handshake.

(** The string value of each member of the [Method] enum. *)
Definition method_string (m : Method) : string :=
  match m with
  | Get => "GET"
  | Post => "POST"
  | Put => "PUT"
  | Delete => "DELETE"
  | Head => "HEAD"
  | Options => "OPTIONS"
  | Patch => "PATCH"
  | Handshake => "HANDSHAKE"
  end.

(** ** Parsing a response line

    [status] is whatever number [parseInt] produced, short of [NaN]: the
    code casts it to [StatusCode] without a check. *)
Record StatusLineResult : Type := mkStatusLineResult {
  status : number;
  bytesRead : nat
}.

Record HeaderResult : Type := mkHeaderResult {
  name : string;
  value : string;
  totalBytes : nat
}.

Section Parsing.

(** How the port turns the bytes of a line into a string. *)
Variable decode : bytes -> string.

(** The body of [readStatusLine] after [buf] has been read. *)
Definition statusLine_of (buf : bytes) : outcome StatusLineResult :=
  let line := decode (slice_to (List.length buf - 2) buf) in
  let parts := split " "%char line in
  if match nth_error parts 0 with
     | Some p => negb (String.eqb p GURT_VERSION)
     | None => true
     end
  then Threw Invalid_protocol
  else
    let code := parseInt (nth_error parts 1) in
    if isNaN code then Threw Invalid_status_code
    else Returned {| status := code; bytesRead := List.length buf |}.

(** The body of [readHeader] after [buf] has been read; [None] is the
    [null] that ends the headers. *)
Definition header_of (buf : bytes) : outcome (option HeaderResult) :=
  if List.length buf =? 2 then Returned None
  else
    let line := decode (slice_to (List.length buf - 2) buf) in
    let idx := indexOf ":"%char line in
    if (idx <? 0)%Z then Threw Invalid_header
    else
      let name := toLowerCase (trim (str_slice_to (Z.to_nat idx) line)) in
      let value := trim (str_slice_from (Z.to_nat (idx + 1)) line) in
      Returned (Some {| name := name; value := value; totalBytes := List.length buf |}).

End Parsing.

(** [target.set(data, 0)] and [data.copy(buf, 0)]: the caller's buffer
    after [data], never longer than it, was copied to its start. *)
Definition copy_into (data target : bytes) : bytes :=
  data ++ skipn (List.length data) target.

(** ** Objects

    A client and the response readers it hands out hold one and the same
    reader object, which every read mutates.  Objects live in a store and
    are held by address; [alloc] is [new]. *)
Definition address := nat.
Definition store (R : Type) := list R.

Definition alloc {R : Type} (r : R) (h : store R) : address * store R :=
  (List.length h, h ++ [r]).

Definition deref {R : Type} (a : address) (h : store R) : option R :=
  nth_error h a.

Fixpoint assign {R : Type} (a : address) (r : R) (h : store R) : store R :=
  match h, a with
  | [], _ => []
  | _ :: h', O => r :: h'
  | x :: h', S a' => x :: assign a' r h'
  end.

(** ** Calls on a [BufferedReader]

    The three public operations, as data, for statements about sequences of
    calls. *)
Inductive call : Type :=
| ReadExact (n : nat)
| ReadUntilCRLF
| ReadAvailable (n : nat).

(** ** Where the delimiter is

    Position [k] of [b] holds CR and position [k + 1] holds LF; and [k] is
    the first such position. *)
Definition CRLF_at (b : bytes) (k : nat) : Prop :=
  nth_error b k = Some x0d /\ nth_error b (S k) = Some x0a.

Definition first_CRLF_at (b : bytes) (k : nat) : Prop :=
  CRLF_at b k /\ forall j, j < k -> ~ CRLF_at b j.

Definition no_CRLF (b : bytes) : Prop := forall k, ~ CRLF_at b k.

(** The bytes a call handed to its caller, none when it did not return. *)
Definition bytes_of {A : Type} (res : outcome A) (f : A -> bytes) : bytes :=
  match res with Returned a => f a | _ => [] end.

(** ** Words for statements about text *)

(** [c] occurs in [s]; every character of [s] passes [f]. *)
Fixpoint occurs (c : ascii) (s : string) : bool :=
  match s with
  | EmptyString => false
  | String x s' => Ascii.eqb x c || occurs c s'
  end.

Fixpoint all_chars (f : ascii -> bool) (s : string) : bool :=
  match s with
  | EmptyString => true
  | String x s' => f x && all_chars f s'
  end.

(** The first, the last character of [s] passes [f]. *)
Definition first_is (f : ascii -> bool) (s : string) : bool :=
  match s with
  | String c _ => f c
  | EmptyString => false
  end.

Fixpoint last_is (f : ascii -> bool) (s : string) : bool :=
  match s with
  | EmptyString => false
  | String c EmptyString => f c
  | String _ s' => last_is f s'
  end.

(** A decimal digit, ['0'] to ['9'], and the number a string of digits
    denotes. *)
Definition is_digit (c : ascii) : bool :=
  (48 <=? nat_of_ascii c) && (nat_of_ascii c <=? 57).

Fixpoint decimal_value (ds : string) : Z :=
  match ds with
  | EmptyString => 0%Z
  | String c ds' =>
      (Z.of_nat (nat_of_ascii c - 48) * 10 ^ Z.of_nat (String.length ds')
       + decimal_value ds')%Z
  end.

Inductive sign : Type := NoSign | PlusSign | MinusSign.

Definition sign_string (sg : sign) : string :=
  match sg with
  | NoSign => ""
  | PlusSign => "+"
  | MinusSign => "-"
  end.

Definition sign_value (sg : sign) : Z :=
  match sg with
  | MinusSign => (-1)%Z
  | _ => 1%Z
  end.

(** [tok] begins, after white space and at most one sign, with a digit. *)
Definition numeric_prefix (tok : string) : Prop :=
  exists ws sg d rest,
    tok = (ws ++ sign_string sg ++ String d rest)%string
    /\ all_chars isWhiteSpace ws = true
    /\ is_digit d = true.

Definition negative_sign (sg : sign) : bool :=
  match sg with
  | MinusSign => true
  | _ => false
  end.

(** [tok] is white space, the sign [sg] if any, the digits [ds], then
    anything that does not go on with a digit. *)
Definition integer_prefix (tok : string) (sg : sign) (ds : string) : Prop :=
  exists ws rest,
    tok = (ws ++ sign_string sg ++ ds ++ rest)%string
    /\ all_chars isWhiteSpace ws = true
    /\ ds <> EmptyString
    /\ all_chars is_digit ds = true
    /\ starts_with_digit rest = false.

(** [tok] is white space, at most one sign, the digits [ds], then anything
    that does not go on with a digit; [z] is the signed value of [ds].
    Fifteen digits keep the value within what a JavaScript number holds
    exactly; and a minus sign before a zero, which reads as negative zero,
    is left out. *)
Definition lenient_integer (tok : string) (z : Z) : Prop :=
  exists ws sg ds rest,
    tok = (ws ++ sign_string sg ++ ds ++ rest)%string
    /\ all_chars isWhiteSpace ws = true
    /\ ds <> EmptyString
    /\ all_chars is_digit ds = true
    /\ String.length ds <= 15
    /\ starts_with_digit rest = false
    /\ z = (sign_value sg * decimal_value ds)%Z
    /\ (z = 0%Z -> sg <> MinusSign).

(** The bytes of a string of the wire format, one per character. *)
Definition wire_bytes (s : string) : bytes := list_byte_of_string s.

(** The first line of [stream], up to its first delimiter, is the text
    [line]. *)
Definition next_line (stream : bytes) (line : string) : Prop :=
  first_CRLF_at stream (String.length line)
  /\ firstn (String.length line) stream = wire_bytes line.

(** ** The web-streams port *)
Module Web.

(** [#reader] is the stream's default reader, which owns the stream while
    it is locked to it: it is modelled by the chunks the stream has yet to
    deliver, after which the stream reports [done].  A chunk may be empty. *)
Record BufferedReader : Type := mkBufferedReader {
  reader : list bytes;
  buf : bytes;
  done : bool
}.

Definition new_BufferedReader (readable : list bytes) : BufferedReader :=
  {| reader := readable; buf := []; done := false |}.

(** [#append(chunk)] *)
Definition append (chunk : bytes) (r : BufferedReader) : BufferedReader :=
  {| reader := reader r; buf := buf r ++ chunk; done := done r |}.

(** [this.#reader.read()]: the pair [{ value, done }] and the stream left. *)
Definition read (rd : list bytes) : option bytes * bool * list bytes :=
  match rd with
  | [] => (None, true, [])
  | c :: rest => (Some c, false, rest)
  end.

(** [#pullOne()] *)
Definition pullOne (r : BufferedReader) : BufferedReader :=
  if done r then r
  else
    let '(value, d, rd) := read (reader r) in
    if d then {| reader := rd; buf := buf r; done := true |}
    else
      match value with
      | Some chunk => append chunk {| reader := rd; buf := buf r; done := done r |}
      | None => {| reader := rd; buf := buf r; done := done r |}
      end.

(** [while (cond && !this.#done) await this.#pullOne();]
    [None] when the fuel runs out before the loop exits, which it does not
    with [turns] below ([web_loop]). *)
Fixpoint pullWhile (fuel : nat) (cond : BufferedReader -> bool)
         (r : BufferedReader) : option BufferedReader :=
  if cond r && negb (done r) then
    match fuel with
    | O => None
    | S k => pullWhile k cond (pullOne r)
    end
  else Some r.

(** Every turn of a loop either takes a chunk off the stream or sets
    [done]; this many turns are always enough. *)
Definition turns (r : BufferedReader) : nat := S (List.length (reader r)).

Definition set_buf (b : bytes) (r : BufferedReader) : BufferedReader :=
  {| reader := reader r; buf := b; done := done r |}.

(** [readExact(n)] *)
Definition readExact (n : nat) (r : BufferedReader) : outcome bytes * BufferedReader :=
  match pullWhile (turns r) (fun r => List.length (buf r) <? n) r with
  | None => (Pending, r)
  | Some r1 =>
      if List.length (buf r1) <? n then (Threw Unexpected_EOF, r1)
      else
        let out := slice_to n (buf r1) in
        (Returned out, set_buf (slice_from n (buf r1)) r1)
  end.

(** [readUntilCRLF()] *)
Definition readUntilCRLF (r : BufferedReader) : outcome bytes * BufferedReader :=
  match pullWhile (turns r) (fun r => (indexOfCRLF (buf r) <? 0)%Z) r with
  | None => (Pending, r)
  | Some r1 =>
      let idx := indexOfCRLF (buf r1) in
      if (idx <? 0)%Z then (Threw Unexpected_EOF, r1)
      else
        let out := slice_to (Z.to_nat (idx + 2)) (buf r1) in
        (Returned out, set_buf (slice_from (Z.to_nat (idx + 2)) (buf r1)) r1)
  end.

(** [readAvailable(n)] *)
Definition readAvailable (n : nat) (r : BufferedReader) : outcome bytes * BufferedReader :=
  let r1 := if (List.length (buf r) =? 0) && negb (done r) then pullOne r else r in
  let take := Nat.min n (List.length (buf r1)) in
  let out := slice_to take (buf r1) in
  (Returned out, set_buf (slice_from take (buf r1)) r1).

(** The bytes not yet handed to a caller: those buffered, then those the
    stream has yet to deliver. *)
Definition unread (r : BufferedReader) : bytes :=
  buf r ++ List.concat (reader r).

(** Once [done] is set the stream has delivered everything. *)
Definition wf (r : BufferedReader) : Prop :=
  done r = true -> reader r = [].

Definition perform (c : call) (r : BufferedReader) : outcome bytes * BufferedReader :=
  match c with
  | ReadExact n => readExact n r
  | ReadUntilCRLF => readUntilCRLF r
  | ReadAvailable n => readAvailable n r
  end.

(** The calls made one after the other, each awaited; the results in
    call order when every call returned, [None] from the first call that
    did not. *)
Fixpoint perform_all (cs : list call) (r : BufferedReader)
  : option (list bytes) * BufferedReader :=
  match cs with
  | [] => (Some [], r)
  | c :: cs' =>
      match perform c r with
      | (Returned out, r1) =>
          let '(outs, r2) := perform_all cs' r1 in
          (option_map (cons out) outs, r2)
      | (_, r1) => (None, r1)
      end
  end.

(** *** The methods of ResponseReader

    Each is given the state of the [BufferedReader] the response reader
    holds and returns the state it leaves; [on_reader] below runs them on
    the object itself. *)
Section ResponseReader.

(** [this.#decoder.decode(...)] of [new TextDecoder('utf-8')]. *)
Variable decode : bytes -> string.

(** [readStatusLine()] *)
Definition readStatusLine (r : BufferedReader)
  : outcome StatusLineResult * BufferedReader :=
  match readUntilCRLF r with
  | (Returned b, r1) => (statusLine_of decode b, r1)
  | (Threw e, r1) => (Threw e, r1)
  | (Pending, r1) => (Pending, r1)
  end.

(** [readHeader()] *)
Definition readHeader (r : BufferedReader)
  : outcome (option HeaderResult) * BufferedReader :=
  match readUntilCRLF r with
  | (Returned b, r1) => (header_of decode b, r1)
  | (Threw e, r1) => (Threw e, r1)
  | (Pending, r1) => (Pending, r1)
  end.

End ResponseReader.

(** [readBody(target)]: the count returned and the caller's buffer after
    the copy. *)
Definition readBody (target : bytes) (r : BufferedReader)
  : outcome (nat * bytes) * BufferedReader :=
  match readAvailable (List.length target) r with
  | (Returned data, r1) => (Returned (List.length data, copy_into data target), r1)
  | (Threw e, r1) => (Threw e, r1)
  | (Pending, r1) => (Pending, r1)
  end.

(** [readBodyExact(target)]: the caller's buffer after the copy. *)
Definition readBodyExact (target : bytes) (r : BufferedReader)
  : outcome bytes * BufferedReader :=
  match readExact (List.length target) r with
  | (Returned data, r1) => (Returned (copy_into data target), r1)
  | (Threw e, r1) => (Threw e, r1)
  | (Pending, r1) => (Pending, r1)
  end.

(** *** StreamWriter and GurtClient *)

(** A transport: the chunks its readable side will deliver and the chunks
    its writable side has been given, oldest first.  Writes are taken to
    succeed. *)
Record WebTransport : Type := mkWebTransport {
  readable : list bytes;
  writable : list bytes
}.

(** [#writer] is the stream's writer: the chunks given to the stream. *)
Record StreamWriter : Type := mkStreamWriter {
  writer : list bytes
}.

Definition new_StreamWriter (writable : list bytes) : StreamWriter :=
  {| writer := writable |}.

(** The client holds its [BufferedReader] by address. *)
Record GurtClient : Type := mkGurtClient {
  client_transport : WebTransport;
  client_reader : address;
  client_writer : StreamWriter
}.

(** [constructor(transport)] *)
Definition new_GurtClient (transport : WebTransport) (h : store BufferedReader)
  : GurtClient * store BufferedReader :=
  let '(a, h1) := alloc (new_BufferedReader (readable transport)) h in
  ({| client_transport := transport;
      client_reader := a;
      client_writer := new_StreamWriter (writable transport) |}, h1).

(** [setTransport(transport)] *)
Definition setTransport (transport : WebTransport) (c : GurtClient)
           (h : store BufferedReader) : GurtClient * store BufferedReader :=
  let '(a, h1) := alloc (new_BufferedReader (readable transport)) h in
  ({| client_transport := transport;
      client_reader := a;
      client_writer := new_StreamWriter (writable transport) |}, h1).

(** A [ResponseReader] holds the reader it was built on. *)
Record ResponseReader : Type := mkResponseReader {
  rr_reader : address
}.

(** [responseReader()] *)
Definition responseReader (c : GurtClient) : ResponseReader :=
  {| rr_reader := client_reader c |}.

(** A method of a [ResponseReader], or a series of calls on its reader:
    it runs on the object at the reader's address and leaves its new state
    there.  [None] for an address with no object, which a client of the
    store never hands out. *)
Definition on_reader {A : Type}
           (op : BufferedReader -> A * BufferedReader)
           (rr : ResponseReader) (h : store BufferedReader)
  : option (A * store BufferedReader) :=
  match deref (rr_reader rr) h with
  | Some r => let '(res, r1) := op r in Some (res, assign (rr_reader rr) r1 h)
  | None => None
  end.

Section Writing.

(** [this.#encoder.encode(...)] of [new TextEncoder()]. *)
Variable encode : string -> bytes.

(** [StreamWriter.write(data)] *)
Definition write (data : string + bytes) (w : StreamWriter) : StreamWriter :=
  let chunk := match data with inl s => encode s | inr b => b end in
  {| writer := writer w ++ [chunk] |}.

(** [#writeAll(data)] *)
Definition writeAll (data : string + bytes) (c : GurtClient) : GurtClient :=
  {| client_transport := client_transport c;
     client_reader := client_reader c;
     client_writer := write data (client_writer c) |}.

(** [handshake(host, userAgent)] *)
Definition handshake (host userAgent : string) (c : GurtClient) : GurtClient :=
  let c := writeAll (inl ("HANDSHAKE / " ++ GURT_VERSION ++ crlf)%string) c in
  let c := writeAll (inl ("host: " ++ host ++ crlf)%string) c in
  let c := writeAll (inl ("user-agent: " ++ userAgent ++ crlf)%string) c in
  writeAll (inl crlf) c.

(** [requestNoBody(method, path, host, userAgent?)] *)
Definition requestNoBody (method : Method) (path host : string)
           (userAgent : option string) (c : GurtClient) : GurtClient :=
  let ua := match userAgent with Some u => u | None => "yo-gurt/0.1"%string end in
  let c := writeAll (inl (method_string method ++ " " ++ path ++ " " ++ GURT_VERSION ++ crlf)%string) c in
  let c := writeAll (inl ("host: " ++ host ++ crlf)%string) c in
  let c := writeAll (inl ("user-agent: " ++ ua ++ crlf)%string) c in
  writeAll (inl crlf) c.

(** [requestWithBody(method, path, host, contentLength, userAgent?,
    contentType?)]: the client once the head is written.  The
    [RequestBodyWriter] it returns holds the client's [StreamWriter]. *)
Definition requestWithBody (method : Method) (path host : string)
           (contentLength : nat) (userAgent contentType : option string)
           (c : GurtClient) : GurtClient :=
  let ua := match userAgent with Some u => u | None => "yo-gurt/0.1"%string end in
  let c := writeAll (inl (method_string method ++ " " ++ path ++ " " ++ GURT_VERSION ++ crlf)%string) c in
  let c := writeAll (inl ("host: " ++ host ++ crlf)%string) c in
  let c :=
    if truthy contentType then
      writeAll (inl ("content-type: "
                     ++ match contentType with Some t => t | None => "" end
                     ++ crlf)%string) c
    else c in
  let c := writeAll (inl ("content-length: " ++ decimal contentLength ++ crlf)%string) c in
  let c := writeAll (inl ("user-agent: " ++ ua ++ crlf)%string) c in
  writeAll (inl crlf) c.

(** [RequestBodyWriter.write(data)], on the writer of the client that made
    the body writer, while the client keeps its transport. *)
Definition body_write (data : string + bytes) (c : GurtClient) : GurtClient :=
  {| client_transport := client_transport c;
     client_reader := client_reader c;
     client_writer := write data (client_writer c) |}.

(** [RequestBodyWriter.finish()] *)
Definition finish (c : GurtClient) : GurtClient := c.

End Writing.

(** [readHeader()] called [n] times in a row, whatever each call gives. *)
Fixpoint readHeader_times (decode : bytes -> string) (n : nat) (r : BufferedReader)
  : list (outcome (option HeaderResult)) * BufferedReader :=
  match n with
  | O => ([], r)
  | S k =>
      let '(res, r1) := readHeader decode r in
      let '(rs, r2) := readHeader_times decode k r1 in
      (res :: rs, r2)
  end.

(** The bytes the transport was given, in order. *)
Definition wire (c : GurtClient) : bytes := List.concat (writer (client_writer c)).

End Web.

(** ** The Node port *)
Module Node.

(** The read side of the [Duplex] the reader listens to: the chunks its
    ['data'] events have yet to carry, after which it emits ['end'], and
    its [readableEnded] flag, true from the ['end'] event on.  No event
    follows ['end']. *)
Record BufferedReader : Type := mkBufferedReader {
  incoming : list bytes;
  readableEnded : bool;
  buf : bytes
}.

Definition new_BufferedReader (socket : list bytes) : BufferedReader :=
  {| incoming := socket; readableEnded := false; buf := [] |}.

(** [push(chunk)]: the buffer grows by a non-empty chunk.  Calling the
    queued resolvers makes every waiting [waitFor] test its predicate
    again, which [waitFor] below does after each event. *)
Definition push (chunk : bytes) (r : BufferedReader) : BufferedReader :=
  if 0 <? List.length chunk then
    {| incoming := incoming r; readableEnded := readableEnded r; buf := buf r ++ chunk |}
  else r.

(** The next event of the socket, handled by the listener the constructor
    registered: ['data'] pushes the chunk, ['end'] pushes an empty chunk.
    [None] when the socket has no event left. *)
Definition emit (r : BufferedReader) : option BufferedReader :=
  match incoming r with
  | c :: rest =>
      Some (push c {| incoming := rest; readableEnded := readableEnded r; buf := buf r |})
  | [] =>
      if readableEnded r then None
      else Some (push [] {| incoming := []; readableEnded := true; buf := buf r |})
  end.

(** [waitFor(predicate)]: returns at once when the predicate holds, else
    waits for the next [push] and starts over.  The flag is [false] when
    the predicate is still false and the socket has no event left (the
    promise never resolves), or when the fuel ran out, which it does not
    with [turns] below before the socket is silent ([node_wait]). *)
Fixpoint waitFor (fuel : nat) (predicate : BufferedReader -> bool)
         (r : BufferedReader) : bool * BufferedReader :=
  if predicate r then (true, r)
  else
    match fuel with
    | O => (false, r)
    | S k =>
        match emit r with
        | None => (false, r)
        | Some r' => waitFor k predicate r'
        end
    end.

(** One turn per chunk, one for ['end']: after that many events the
    socket is silent. *)
Definition turns (r : BufferedReader) : nat := S (List.length (incoming r)).

Definition set_buf (b : bytes) (r : BufferedReader) : BufferedReader :=
  {| incoming := incoming r; readableEnded := readableEnded r; buf := b |}.

(** [readExact(n)] *)
Definition readExact (n : nat) (r : BufferedReader) : outcome bytes * BufferedReader :=
  let '(resolved, r1) :=
    waitFor (turns r)
      (fun r => (n <=? List.length (buf r))
                || ((List.length (buf r) =? 0) && readableEnded r)) r in
  if negb resolved then (Pending, r1)
  else if List.length (buf r1) <? n then (Threw Unexpected_EOF, r1)
  else
    let out := slice_to n (buf r1) in
    (Returned out, set_buf (slice_from n (buf r1)) r1).

(** [readUntilCRLF()]; its local [idx()] is [indexOfCRLF] on the buffer. *)
Definition readUntilCRLF (r : BufferedReader) : outcome bytes * BufferedReader :=
  let '(resolved, r1) :=
    waitFor (turns r)
      (fun r => (0 <=? indexOfCRLF (buf r))%Z
                || ((List.length (buf r) =? 0) && readableEnded r)) r in
  if negb resolved then (Pending, r1)
  else
    let i := indexOfCRLF (buf r1) in
    if (i <? 0)%Z then (Threw Unexpected_EOF, r1)
    else
      let out := slice_to (Z.to_nat (i + 2)) (buf r1) in
      (Returned out, set_buf (slice_from (Z.to_nat (i + 2)) (buf r1)) r1).

(** [readAvailable(n)] *)
Definition readAvailable (n : nat) (r : BufferedReader) : outcome bytes * BufferedReader :=
  let '(resolved, r1) :=
    if List.length (buf r) =? 0 then
      waitFor (turns r)
        (fun r => (0 <? List.length (buf r)) || readableEnded r) r
    else (true, r) in
  if negb resolved then (Pending, r1)
  else
    let take := Nat.min n (List.length (buf r1)) in
    let out := slice_to take (buf r1) in
    (Returned out, set_buf (slice_from take (buf r1)) r1).

(** The bytes not yet handed to a caller: those buffered, then those the
    socket has yet to emit. *)
Definition unread (r : BufferedReader) : bytes :=
  buf r ++ List.concat (incoming r).

(** ['end'] is emitted after the last chunk. *)
Definition wf (r : BufferedReader) : Prop :=
  readableEnded r = true -> incoming r = [].

Definition perform (c : call) (r : BufferedReader) : outcome bytes * BufferedReader :=
  match c with
  | ReadExact n => readExact n r
  | ReadUntilCRLF => readUntilCRLF r
  | ReadAvailable n => readAvailable n r
  end.

(** What happens to a reader over time: a call is made and awaited, or
    the socket emits its next event while no call is waiting. *)
Inductive step : Type :=
| Call (c : call)
| Event.

(** The steps taken one after the other; the results of the calls in
    call order when every call returned, [None] from the first call that
    did not. *)
Fixpoint perform_all (ss : list step) (r : BufferedReader)
  : option (list bytes) * BufferedReader :=
  match ss with
  | [] => (Some [], r)
  | Event :: ss' =>
      perform_all ss' (match emit r with Some r1 => r1 | None => r end)
  | Call c :: ss' =>
      match perform c r with
      | (Returned out, r1) =>
          let '(outs, r2) := perform_all ss' r1 in
          (option_map (cons out) outs, r2)
      | (_, r1) => (None, r1)
      end
  end.

(** *** The methods of ResponseReader

    Each is given the state of the [BufferedReader] the response reader
    holds and returns the state it leaves; [on_reader] below runs them on
    the object itself. *)

(** [buf.toString('ascii')]: the top bit of each byte is cleared. *)
Definition toString_ascii (b : bytes) : string :=
  string_of_list_ascii
    (map (fun x => ascii_of_N (N.land (Byte.to_N x) 127)) b).

(** [readStatusLine()] *)
Definition readStatusLine (r : BufferedReader)
  : outcome StatusLineResult * BufferedReader :=
  match readUntilCRLF r with
  | (Returned b, r1) => (statusLine_of toString_ascii b, r1)
  | (Threw e, r1) => (Threw e, r1)
  | (Pending, r1) => (Pending, r1)
  end.

(** [readHeader()] *)
Definition readHeader (r : BufferedReader)
  : outcome (option HeaderResult) * BufferedReader :=
  match readUntilCRLF r with
  | (Returned b, r1) => (header_of toString_ascii b, r1)
  | (Threw e, r1) => (Threw e, r1)
  | (Pending, r1) => (Pending, r1)
  end.

(** [readBody(buf)]: the count returned and the caller's buffer after
    the copy. *)
Definition readBody (target : bytes) (r : BufferedReader)
  : outcome (nat * bytes) * BufferedReader :=
  match readAvailable (List.length target) r with
  | (Returned data, r1) => (Returned (List.length data, copy_into data target), r1)
  | (Threw e, r1) => (Threw e, r1)
  | (Pending, r1) => (Pending, r1)
  end.

(** [readBodyExact(buf)]: the caller's buffer after the copy. *)
Definition readBodyExact (target : bytes) (r : BufferedReader)
  : outcome bytes * BufferedReader :=
  match readExact (List.length target) r with
  | (Returned data, r1) => (Returned (copy_into data target), r1)
  | (Threw e, r1) => (Threw e, r1)
  | (Pending, r1) => (Pending, r1)
  end.

(** *** GurtClient *)

(** A socket handed to the client: the chunks its read side will emit
    before ['end'], and the chunks its write side has been given, oldest
    first.  Writes are taken to succeed. *)
Record Duplex : Type := mkDuplex {
  to_read : list bytes;
  written : list bytes
}.

(** [socket] is the write side the client writes to; the read side is
    listened to by [reader], which the client holds by address. *)
Record GurtClient : Type := mkGurtClient {
  socket : list bytes;
  reader : address
}.

(** [constructor(socket)] *)
Definition new_GurtClient (s : Duplex) (h : store BufferedReader)
  : GurtClient * store BufferedReader :=
  let '(a, h1) := alloc (new_BufferedReader (to_read s)) h in
  ({| socket := written s; reader := a |}, h1).

(** [setSocket(socket)] *)
Definition setSocket (s : Duplex) (c : GurtClient) (h : store BufferedReader)
  : GurtClient * store BufferedReader :=
  let '(a, h1) := alloc (new_BufferedReader (to_read s)) h in
  ({| socket := written s; reader := a |}, h1).

(** A [ResponseReader] holds the reader it was built on. *)
Record ResponseReader : Type := mkResponseReader {
  rr_reader : address
}.

(** [responseReader()] *)
Definition responseReader (c : GurtClient) : ResponseReader :=
  {| rr_reader := reader c |}.

(** A method of a [ResponseReader], or a series of steps on its reader:
    it runs on the object at the reader's address and leaves its new state
    there.  [None] for an address with no object, which a client of the
    store never hands out. *)
Definition on_reader {A : Type}
           (op : BufferedReader -> A * BufferedReader)
           (rr : ResponseReader) (h : store BufferedReader)
  : option (A * store BufferedReader) :=
  match deref (rr_reader rr) h with
  | Some r => let '(res, r1) := op r in Some (res, assign (rr_reader rr) r1 h)
  | None => None
  end.

Section Writing.

(** The bytes [socket.write] sends for a string, in the socket's
    default encoding. *)
Variable encode : string -> bytes.

(** [writeAll(data)]: the data is queued on the socket whether
    [write] returns true or asks to wait for ['drain']. *)
Definition writeAll (data : string + bytes) (c : GurtClient) : GurtClient :=
  let chunk := match data with inl s => encode s | inr b => b end in
  {| socket := socket c ++ [chunk]; reader := reader c |}.

(** [handshake(host, userAgent)] *)
Definition handshake (host userAgent : string) (c : GurtClient) : GurtClient :=
  let c := writeAll (inl ("HANDSHAKE / " ++ GURT_VERSION ++ crlf)%string) c in
  let c := writeAll (inl ("host: " ++ host ++ crlf)%string) c in
  let c := writeAll (inl ("user-agent: " ++ userAgent ++ crlf)%string) c in
  writeAll (inl crlf) c.

(** [requestNoBody(method, path, host, userAgent?)] *)
Definition requestNoBody (method : Method) (path host : string)
           (userAgent : option string) (c : GurtClient) : GurtClient :=
  let ua := match userAgent with Some u => u | None => "yo-gurt/0.1"%string end in
  let c := writeAll (inl (method_string method ++ " " ++ path ++ " " ++ GURT_VERSION ++ crlf)%string) c in
  let c := writeAll (inl ("host: " ++ host ++ crlf)%string) c in
  let c := writeAll (inl ("user-agent: " ++ ua ++ crlf)%string) c in
  writeAll (inl crlf) c.

(** [requestWithBody(method, path, host, contentLength, userAgent?,
    contentType?)]: the client once the head is written.  The
    [RequestBodyWriter] it returns holds the client's socket. *)
Definition requestWithBody (method : Method) (path host : string)
           (contentLength : nat) (userAgent contentType : option string)
           (c : GurtClient) : GurtClient :=
  let ua := match userAgent with Some u => u | None => "yo-gurt/0.1"%string end in
  let c := writeAll (inl (method_string method ++ " " ++ path ++ " " ++ GURT_VERSION ++ crlf)%string) c in
  let c := writeAll (inl ("host: " ++ host ++ crlf)%string) c in
  let c :=
    if truthy contentType then
      writeAll (inl ("content-type: "
                     ++ match contentType with Some t => t | None => "" end
                     ++ crlf)%string) c
    else c in
  let c := writeAll (inl ("content-length: " ++ decimal contentLength ++ crlf)%string) c in
  let c := writeAll (inl ("user-agent: " ++ ua ++ crlf)%string) c in
  writeAll (inl crlf) c.

(** [RequestBodyWriter.write(data)], on the socket of the client that made
    the body writer, while the client keeps its socket. *)
Definition body_write (data : string + bytes) (c : GurtClient) : GurtClient :=
  let chunk := match data with inl s => encode s | inr b => b end in
  {| socket := socket c ++ [chunk]; reader := reader c |}.

(** [RequestBodyWriter.finish()] *)
Definition finish (c : GurtClient) : GurtClient := c.

End Writing.

(** [readHeader()] called [n] times in a row, whatever each call gives. *)
Fixpoint readHeader_times (n : nat) (r : BufferedReader)
  : list (outcome (option HeaderResult)) * BufferedReader :=
  match n with
  | O => ([], r)
  | S k =>
      let '(res, r1) := readHeader r in
      let '(rs, r2) := readHeader_times k r1 in
      (res :: rs, r2)
  end.

(** The bytes the socket was given, in order. *)
Definition wire (c : GurtClient) : bytes := List.concat (socket c).

End Node.

(** ** The two ports, side by side

    The state of a Node reader that has received what a web reader has
    pulled: the same chunks to come, the same buffer, and ['end'] emitted
    when the web stream has reported [done]. *)
Definition as_node (r : Web.BufferedReader) : Node.BufferedReader :=
  {| Node.incoming := Web.reader r;
     Node.readableEnded := Web.done r;
     Node.buf := Web.buf r |}.

(** The bytes of the lines of a header block, each with its delimiter. *)
Fixpoint lines_bytes (lines : list string) : bytes :=
  match lines with
  | [] => []
  | l :: ls => wire_bytes l ++ CRLF ++ lines_bytes ls
  end.

(** The line feed character. *)
Definition LF_char : ascii := ascii_of_nat 10.


(** The text of a header line with the name part [p] and the value part
    [v], and a header block as the list of such pairs. *)
Definition header_text (h : string * string) : string :=
  (fst h ++ String ":"%char (snd h))%string.

(** What [readHeader] gives for the line [header_text h]. *)
Definition header_read (h : string * string) : outcome (option HeaderResult) :=
  Returned (Some {| name := toLowerCase (trim (fst h));
                    value := trim (snd h);
                    totalBytes := String.length (header_text h) + 2 |}).

(** A header line [readHeader] can take apart: no colon in the name part,
    no line feed, and text of the ASCII wire format. *)
Definition good_header (h : string * string) : Prop :=
  occurs ":"%char (fst h) = false
  /\ occurs LF_char (header_text h) = false
  /\ ascii_string (header_text h) = true.


(** A header as [readHeader] hands it out: the name in lower case,
    trimmed and without colon, the value trimmed. *)
Definition normalised (h : HeaderResult) : Prop :=
  toLowerCase (name h) = name h
  /\ trim (name h) = name h
  /\ occurs ":"%char (name h) = false
  /\ trim (value h) = value h.

(** What [readHeader] gives for the header line the client writes for the
    name [n] and the value [v], which is [n], a colon, a space, [v]. *)
Definition header_as_written (n v : string) : outcome (option HeaderResult) :=
  Returned (Some {| name := n;
                    value := trim v;
                    totalBytes := String.length n + 2 + String.length v + 2 |}).

(** The chunk [write] gives the transport for [data]. *)
Definition chunk_of (encode : string -> bytes) (data : string + bytes) : bytes :=
  match data with inl s => encode s | inr b => b end.



(** A client is built on a transport that delivers "OLD"; a response
    reader is taken from it and reads one byte, which leaves "LD" in the
    buffer; the client is given a transport that delivers "NEW"; then the
    response reader taken before and one taken now each read what is
    available.  The two results, in the web port and in the Node port. *)
Definition swap_scenario_web : option (outcome bytes) * option (outcome bytes) :=
  let '(c0, h0) :=
    Web.new_GurtClient
      {| Web.readable := [wire_bytes "OLD"]; Web.writable := [] |} [] in
  let before := Web.responseReader c0 in
  match Web.on_reader (Web.readExact 1) before h0 with
  | Some (_, h1) =>
      let '(c1, h2) :=
        Web.setTransport
          {| Web.readable := [wire_bytes "NEW"]; Web.writable := [] |} c0 h1 in
      (option_map fst (Web.on_reader (Web.readAvailable 8) before h2),
       option_map fst (Web.on_reader (Web.readAvailable 8) (Web.responseReader c1) h2))
  | None => (None, None)
  end.

Definition swap_scenario_node : option (outcome bytes) * option (outcome bytes) :=
  let '(c0, h0) :=
    Node.new_GurtClient
      {| Node.to_read := [wire_bytes "OLD"]; Node.written := [] |} [] in
  let before := Node.responseReader c0 in
  match Node.on_reader (Node.readExact 1) before h0 with
  | Some (_, h1) =>
      let '(c1, h2) :=
        Node.setSocket
          {| Node.to_read := [wire_bytes "NEW"]; Node.written := [] |} c0 h1 in
      (option_map fst (Node.on_reader (Node.readAvailable 8) before h2),
       option_map fst (Node.on_reader (Node.readAvailable 8) (Node.responseReader c1) h2))
  | None => (None, None)
  end.

(** ** The delimiter search finds the first CR LF *)

Lemma CRLF_at_cons (x : byte) (b : bytes) (k : nat) :
  CRLF_at (x :: b) (S k) <-> CRLF_at b k.
Proof. unfold CRLF_at; simpl; tauto. Qed.

Lemma CRLF_at_head (x y : byte) (b : bytes) :
  CRLF_at (x :: y :: b) 0 <-> Byte.eqb x x0d && Byte.eqb y x0a = true.
Proof.
  unfold CRLF_at; simpl. rewrite andb_true_iff. split.
  - intros [Hx Hy]. injection Hx as ->. injection Hy as ->. split; reflexivity.
  - intros [Hx Hy]. apply byte_dec_bl in Hx, Hy. subst. split; reflexivity.
Qed.

Lemma CRLF_at_length (b : bytes) (k : nat) :
  CRLF_at b k -> k + 2 <= List.length b.
Proof.
  intros [_ H]. assert (S k < List.length b).
  { apply nth_error_Some. rewrite H. discriminate. }
  lia.
Qed.

Lemma first_CRLF_at_unique (b : bytes) (k k' : nat) :
  first_CRLF_at b k -> first_CRLF_at b k' -> k = k'.
Proof.
  intros [H1 L1] [H2 L2].
  destruct (Nat.lt_trichotomy k k') as [Hlt | [Heq | Hgt]]; trivial.
  - exfalso. exact (L2 k Hlt H1).
  - exfalso. exact (L1 k' Hgt H2).
Qed.

Lemma indexOfCRLF_from_step (i : Z) (x y : byte) (tl : bytes) :
  indexOfCRLF_from i (x :: y :: tl)
  = if Byte.eqb x x0d && Byte.eqb y x0a then i
    else indexOfCRLF_from (i + 1) (y :: tl).
Proof. reflexivity. Qed.

Lemma indexOfCRLF_from_spec (b : bytes) :
  forall i : Z,
    (indexOfCRLF_from i b = (-1)%Z /\ no_CRLF b)
    \/ (exists k, indexOfCRLF_from i b = (i + Z.of_nat k)%Z /\ first_CRLF_at b k).
Proof.
  induction b as [| x tl IH]; intros i.
  - left. split; [reflexivity |]. intros k [H _]. destruct k; discriminate.
  - destruct tl as [| y tl'].
    + left. split; [reflexivity |]. intros k [_ H]. destruct k; discriminate.
    + rewrite indexOfCRLF_from_step.
      destruct (Byte.eqb x x0d && Byte.eqb y x0a) eqn:E.
      * right. exists 0. split; [simpl; lia |]. split.
        -- apply CRLF_at_head. exact E.
        -- intros j Hj. lia.
      * destruct (IH (i + 1)%Z) as [[Hn Hno] | [k [Hk Hf]]].
        -- left. split; [exact Hn |]. intros [| k] Hk.
           ++ apply CRLF_at_head in Hk. congruence.
           ++ apply CRLF_at_cons in Hk. exact (Hno k Hk).
        -- right. exists (S k). split; [rewrite Hk; lia |].
           destruct Hf as [Hat Hlt]. split.
           ++ apply CRLF_at_cons. exact Hat.
           ++ intros [| j] Hj Hc.
              ** apply CRLF_at_head in Hc. congruence.
              ** apply CRLF_at_cons in Hc. apply (Hlt j); [lia | exact Hc].
Qed.

Lemma indexOfCRLF_found (b : bytes) (k : nat) :
  indexOfCRLF b = Z.of_nat k <-> first_CRLF_at b k.
Proof.
  unfold indexOfCRLF.
  destruct (indexOfCRLF_from_spec b 0) as [[Hn Hno] | [k' [Hk Hf]]].
  - split.
    + intros H. lia.
    + intros [H _]. exfalso. exact (Hno k H).
  - split.
    + intros H. assert (k = k') by lia. subst. exact Hf.
    + intros H. rewrite (first_CRLF_at_unique b k k' H Hf). rewrite Hk. lia.
Qed.

Lemma indexOfCRLF_absent (b : bytes) :
  indexOfCRLF b = (-1)%Z <-> no_CRLF b.
Proof.
  unfold indexOfCRLF.
  destruct (indexOfCRLF_from_spec b 0) as [[Hn Hno] | [k' [Hk Hf]]].
  - tauto.
  - split.
    + intros H. lia.
    + intros H. exfalso. destruct Hf as [Hat _]. exact (H k' Hat).
Qed.

Lemma indexOfCRLF_cases (b : bytes) :
  (indexOfCRLF b = (-1)%Z /\ no_CRLF b)
  \/ (exists k, indexOfCRLF b = Z.of_nat k /\ first_CRLF_at b k).
Proof.
  unfold indexOfCRLF.
  destruct (indexOfCRLF_from_spec b 0) as [H | [k [Hk Hf]]]; [left; exact H |].
  right. exists k. split; [rewrite Hk; lia | exact Hf].
Qed.

Lemma indexOfCRLF_negative (b : bytes) :
  (indexOfCRLF b <? 0)%Z = true <-> no_CRLF b.
Proof.
  rewrite Z.ltb_lt.
  destruct (indexOfCRLF_cases b) as [[Hn Hno] | [k [Hk [Hat Hf]]]].
  - split; intros; [exact Hno | lia].
  - split; intros H; [lia | exfalso; exact (H k Hat)].
Qed.

(** The delimiter survives appending, at the same place; a buffer without
    one has none in any prefix. *)
Lemma CRLF_at_app_l (b c : bytes) (k : nat) :
  CRLF_at b k -> CRLF_at (b ++ c) k.
Proof.
  intros H. pose proof (CRLF_at_length b k H) as L.
  destruct H as [H1 H2]. split.
  - rewrite nth_error_app1 by lia. exact H1.
  - rewrite nth_error_app1 by lia. exact H2.
Qed.

Lemma CRLF_at_app_inv (b c : bytes) (k : nat) :
  CRLF_at (b ++ c) k -> k + 2 <= List.length b -> CRLF_at b k.
Proof.
  intros [H1 H2] L. split.
  - rewrite nth_error_app1 in H1 by lia. exact H1.
  - rewrite nth_error_app1 in H2 by lia. exact H2.
Qed.

Lemma first_CRLF_at_app (b c : bytes) (k : nat) :
  first_CRLF_at b k -> first_CRLF_at (b ++ c) k.
Proof.
  intros [Hat Hlt]. pose proof (CRLF_at_length b k Hat) as L. split.
  - apply CRLF_at_app_l. exact Hat.
  - intros j Hj Hc. apply (Hlt j Hj).
    apply (CRLF_at_app_inv b c j Hc). lia.
Qed.

Lemma no_CRLF_app_l (b c : bytes) : no_CRLF (b ++ c) -> no_CRLF b.
Proof. intros H k Hk. exact (H k (CRLF_at_app_l b c k Hk)). Qed.

Lemma first_CRLF_at_prefix (b c : bytes) (k : nat) :
  first_CRLF_at (b ++ c) k -> no_CRLF b \/ first_CRLF_at b k.
Proof.
  intros [Hat Hlt].
  destruct (indexOfCRLF_cases b) as [[_ Hno] | [k' [_ Hf]]]; [left; exact Hno |].
  right.
  rewrite (first_CRLF_at_unique (b ++ c) k k'); [exact Hf | split; assumption |].
  apply first_CRLF_at_app. exact Hf.
Qed.

(** What the two slices of a buffer are when the first delimiter is at [k]. *)
Lemma CRLF_at_split (b : bytes) :
  forall k, CRLF_at b k -> b = firstn k b ++ CRLF ++ skipn (k + 2) b.
Proof.
  induction b as [| x b IH]; intros k H.
  - destruct H as [H _]. destruct k; discriminate.
  - destruct k as [| k].
    + destruct H as [H1 H2]. destruct b as [| y b]; [discriminate |].
      simpl in H1, H2. injection H1 as ->. injection H2 as ->. reflexivity.
    + apply CRLF_at_cons in H. simpl. f_equal. apply (IH k H).
Qed.

Lemma CRLF_at_firstn (b : bytes) (k : nat) :
  CRLF_at b k -> firstn (k + 2) b = firstn k b ++ CRLF.
Proof.
  intros H. pose proof (CRLF_at_length b k H) as L.
  rewrite (CRLF_at_split b k H) at 1.
  rewrite app_assoc, firstn_app.
  rewrite firstn_all2 by (rewrite length_app, length_firstn; simpl; lia).
  replace (k + 2 - List.length (firstn k b ++ CRLF)) with 0
    by (rewrite length_app, length_firstn; simpl; lia).
  simpl. apply app_nil_r.
Qed.

(** ** The pulling loop of the web port *)

Section WebLoop.

(** A loop condition that reads the buffer only, and that stays false
    once false however the buffer grows. *)
Variable p : bytes -> bool.
Hypothesis p_stays_false : forall b c, p b = false -> p (b ++ c) = false.

Local Abbreviation cond := (fun r : Web.BufferedReader => p (Web.buf r)).

Lemma web_pullWhile_done (fuel : nat) (r : Web.BufferedReader) :
  Web.done r = true -> Web.pullWhile fuel cond r = Some r.
Proof.
  intros H. destruct fuel; simpl; rewrite H, andb_false_r; reflexivity.
Qed.

Lemma web_pullWhile_exhausts (rd : list bytes) :
  forall (b : bytes) (fuel : nat),
    List.length rd < fuel ->
    p (b ++ List.concat rd) = true ->
    Web.pullWhile fuel cond {| Web.reader := rd; Web.buf := b; Web.done := false |}
    = Some {| Web.reader := []; Web.buf := b ++ List.concat rd; Web.done := true |}.
Proof.
  induction rd as [| c rd IH]; intros b fuel Hf Hp.
  - simpl in Hp. rewrite app_nil_r in Hp |- *.
    destruct fuel as [| fuel]; [simpl in Hf; lia |].
    simpl. rewrite Hp. simpl.
    unfold Web.pullOne. simpl.
    destruct fuel; simpl; rewrite andb_false_r; reflexivity.
  - destruct fuel as [| fuel]; [simpl in Hf; lia |].
    simpl in Hf, Hp. rewrite app_assoc in Hp.
    assert (Hb : p b = true).
    { destruct (p b) eqn:E; trivial.
      rewrite <- app_assoc in Hp.
      rewrite (p_stays_false b _ E) in Hp. discriminate. }
    simpl. rewrite Hb. simpl.
    unfold Web.pullOne, Web.append. simpl.
    rewrite (IH (b ++ c) fuel) by (trivial; lia).
    rewrite <- app_assoc. reflexivity.
Qed.

Lemma web_pullWhile_stops (rd : list bytes) :
  forall (b : bytes) (fuel : nat),
    List.length rd < fuel ->
    p (b ++ List.concat rd) = false ->
    exists rd1 b1,
      Web.pullWhile fuel cond {| Web.reader := rd; Web.buf := b; Web.done := false |}
      = Some {| Web.reader := rd1; Web.buf := b1; Web.done := false |}
      /\ b1 ++ List.concat rd1 = b ++ List.concat rd
      /\ p b1 = false
      /\ exists delivered, rd = delivered ++ rd1.
Proof.
  induction rd as [| c rd IH]; intros b fuel Hf Hp.
  - simpl in Hp. rewrite app_nil_r in Hp.
    exists [], b. split; [| split; [| split]]; trivial; [| exists []; reflexivity].
    destruct fuel; simpl; rewrite Hp; reflexivity.
  - destruct fuel as [| fuel]; [simpl in Hf; lia |].
    simpl in Hf.
    destruct (p b) eqn:Hb.
    + simpl. rewrite Hb. simpl.
      unfold Web.pullOne, Web.append. simpl.
      simpl in Hp. rewrite app_assoc in Hp.
      destruct (IH (b ++ c) fuel) as (rd1 & b1 & E & Hu & Hp1 & d & Hd);
        [lia | exact Hp |].
      exists rd1, b1. split; [exact E | split; [| split; [exact Hp1 |]]].
      * rewrite Hu. simpl. rewrite app_assoc. reflexivity.
      * exists (c :: d). rewrite Hd. reflexivity.
    + exists (c :: rd), b. split; [| split; [| split]]; trivial; [| exists []; reflexivity].
      simpl. rewrite Hb. reflexivity.
Qed.

End WebLoop.

Lemma length_lt_stays_false (n : nat) (b c : bytes) :
  (List.length b <? n) = false -> (List.length (b ++ c) <? n) = false.
Proof. rewrite !Nat.ltb_ge, length_app. lia. Qed.

Lemma no_CRLF_stays_false (b c : bytes) :
  (indexOfCRLF b <? 0)%Z = false -> (indexOfCRLF (b ++ c) <? 0)%Z = false.
Proof.
  intros H. destruct (indexOfCRLF (b ++ c) <? 0)%Z eqn:E; trivial.
  apply indexOfCRLF_negative in E. apply no_CRLF_app_l in E.
  apply indexOfCRLF_negative in E. congruence.
Qed.

(** The loop of an operation, from a well-formed reader: it ends, either
    with the whole stream buffered and the test still true, or with the
    test false and nothing lost. *)
Lemma web_loop (p : bytes -> bool) (r : Web.BufferedReader) :
  (forall b c, p b = false -> p (b ++ c) = false) ->
  Web.wf r ->
  exists r1,
    Web.pullWhile (Web.turns r) (fun r => p (Web.buf r)) r = Some r1
    /\ Web.unread r1 = Web.unread r
    /\ Web.wf r1
    /\ (exists delivered, Web.reader r = delivered ++ Web.reader r1)
    /\ (if p (Web.unread r)
        then r1 = {| Web.reader := []; Web.buf := Web.unread r; Web.done := true |}
        else p (Web.buf r1) = false).
Proof.
  intros Hp Hwf. destruct r as [rd b [|]]; unfold Web.wf, Web.turns, Web.unread in *;
    cbn [Web.reader Web.buf Web.done] in *.
  - rewrite (web_pullWhile_done p) by reflexivity.
    rewrite (Hwf eq_refl). eexists. split; [reflexivity |].
    cbn [Web.reader Web.buf Web.done List.concat]. rewrite app_nil_r.
    repeat split; trivial; [exists []; reflexivity |].
    destruct (p b); reflexivity.
  - destruct (p (b ++ List.concat rd)) eqn:Ht.
    + rewrite (web_pullWhile_exhausts p Hp) by (trivial; lia).
      eexists. split; [reflexivity |].
      cbn [Web.reader Web.buf Web.done List.concat]. rewrite app_nil_r.
      repeat split; trivial. exists rd. rewrite app_nil_r. reflexivity.
    + destruct (web_pullWhile_stops p rd b (S (List.length rd)))
        as (rd1 & b1 & E1 & Hu & Hp1 & Hd); [lia | exact Ht |].
      rewrite E1. eexists. split; [reflexivity |].
      cbn [Web.reader Web.buf Web.done].
      repeat split; trivial. intros H; discriminate.
Qed.

(** *** [readExact] in the web port *)

Lemma web_readExact_short (n : nat) (r : Web.BufferedReader) :
  Web.wf r ->
  List.length (Web.unread r) < n ->
  Web.readExact n r
  = (Threw Unexpected_EOF,
     {| Web.reader := []; Web.buf := Web.unread r; Web.done := true |}).
Proof.
  intros Hwf Hlen. unfold Web.readExact.
  destruct (web_loop (fun b => List.length b <? n) r (length_lt_stays_false n) Hwf)
    as (r1 & E & Hu & Hwf1 & Hd & Hc).
  rewrite E. apply Nat.ltb_lt in Hlen. rewrite Hlen in Hc. subst r1.
  simpl. rewrite Hlen. reflexivity.
Qed.

Lemma web_readExact_enough (n : nat) (r : Web.BufferedReader) :
  Web.wf r ->
  n <= List.length (Web.unread r) ->
  exists r',
    Web.readExact n r = (Returned (firstn n (Web.unread r)), r')
    /\ Web.unread r' = skipn n (Web.unread r)
    /\ Web.wf r'.
Proof.
  intros Hwf Hlen. unfold Web.readExact.
  destruct (web_loop (fun b => List.length b <? n) r (length_lt_stays_false n) Hwf)
    as (r1 & E & Hu & Hwf1 & Hd & Hc).
  rewrite E. apply Nat.ltb_ge in Hlen. rewrite Hlen in Hc. rewrite Hc.
  apply Nat.ltb_ge in Hc.
  eexists. split; [| split].
  - unfold slice_to. rewrite <- Hu. unfold Web.unread.
    rewrite firstn_app. replace (n - List.length (Web.buf r1)) with 0 by lia.
    simpl. rewrite app_nil_r. reflexivity.
  - rewrite <- Hu. unfold Web.unread, Web.set_buf, slice_from.
    cbn [Web.reader Web.buf Web.done].
    rewrite skipn_app. replace (n - List.length (Web.buf r1)) with 0 by lia.
    reflexivity.
  - exact Hwf1.
Qed.

(** *** [readUntilCRLF] in the web port *)

Lemma web_readUntilCRLF_absent (r : Web.BufferedReader) :
  Web.wf r ->
  no_CRLF (Web.unread r) ->
  Web.readUntilCRLF r
  = (Threw Unexpected_EOF,
     {| Web.reader := []; Web.buf := Web.unread r; Web.done := true |}).
Proof.
  intros Hwf Hno. unfold Web.readUntilCRLF.
  destruct (web_loop (fun b => (indexOfCRLF b <? 0)%Z) r no_CRLF_stays_false Hwf)
    as (r1 & E & Hu & Hwf1 & Hd & Hc).
  rewrite E. apply indexOfCRLF_negative in Hno. rewrite Hno in Hc. subst r1.
  simpl. rewrite Hno. reflexivity.
Qed.

Lemma web_readUntilCRLF_present (r : Web.BufferedReader) (k : nat) :
  Web.wf r ->
  first_CRLF_at (Web.unread r) k ->
  exists r',
    Web.readUntilCRLF r = (Returned (firstn (k + 2) (Web.unread r)), r')
    /\ Web.unread r' = skipn (k + 2) (Web.unread r)
    /\ Web.wf r'.
Proof.
  intros Hwf Hk. unfold Web.readUntilCRLF.
  destruct (web_loop (fun b => (indexOfCRLF b <? 0)%Z) r no_CRLF_stays_false Hwf)
    as (r1 & E & Hu & Hwf1 & Hd & Hc).
  rewrite E. cbv zeta.
  assert (Hfound : (indexOfCRLF (Web.unread r) <? 0)%Z = false).
  { apply indexOfCRLF_found in Hk. apply Z.ltb_ge. lia. }
  rewrite Hfound in Hc. rewrite Hc.
  assert (Hk1 : first_CRLF_at (Web.buf r1) k).
  { rewrite <- Hu in Hk. unfold Web.unread in Hk.
    destruct (first_CRLF_at_prefix _ _ _ Hk) as [Hno | H]; trivial.
    apply indexOfCRLF_negative in Hno. congruence. }
  pose proof (CRLF_at_length _ _ (proj1 Hk1)) as L.
  apply indexOfCRLF_found in Hk1. rewrite Hk1.
  replace (Z.to_nat (Z.of_nat k + 2)) with (k + 2) by lia.
  eexists. split; [| split].
  - unfold slice_to. rewrite <- Hu. unfold Web.unread.
    rewrite firstn_app. replace (k + 2 - List.length (Web.buf r1)) with 0 by lia.
    simpl. rewrite app_nil_r. reflexivity.
  - rewrite <- Hu. unfold Web.unread, Web.set_buf, slice_from.
    cbn [Web.reader Web.buf Web.done].
    rewrite skipn_app. replace (k + 2 - List.length (Web.buf r1)) with 0 by lia.
    reflexivity.
  - exact Hwf1.
Qed.

(** ** Waiting in the Node port *)

Lemma node_push_buf (c : bytes) (r : Node.BufferedReader) :
  Node.push c r
  = {| Node.incoming := Node.incoming r;
       Node.readableEnded := Node.readableEnded r;
       Node.buf := Node.buf r ++ c |}.
Proof.
  unfold Node.push. destruct c as [| x c]; simpl.
  - rewrite app_nil_r. destruct r; reflexivity.
  - reflexivity.
Qed.

Section NodeLoop.

(** A predicate of the shape the operations wait for: a test [q] of the
    buffer that stays true once true however the buffer grows, or a test
    [e] of the buffer together with [readableEnded]. *)
Variables q e : bytes -> bool.
Hypothesis q_stays_true : forall b c, q b = true -> q (b ++ c) = true.

Local Abbreviation predicate :=
  (fun r : Node.BufferedReader =>
     q (Node.buf r) || (e (Node.buf r) && Node.readableEnded r)).

Lemma node_waitFor_ended (fuel : nat) (b : bytes) :
  Node.waitFor fuel predicate
    {| Node.incoming := []; Node.readableEnded := true; Node.buf := b |}
  = (q b || e b,
     {| Node.incoming := []; Node.readableEnded := true; Node.buf := b |}).
Proof.
  destruct fuel; simpl; rewrite andb_true_r;
    destruct (q b || e b); reflexivity.
Qed.

Lemma node_waitFor_all (rd : list bytes) :
  forall (b : bytes) (fuel : nat),
    List.length rd < fuel ->
    q (b ++ List.concat rd) = false ->
    Node.waitFor fuel predicate
      {| Node.incoming := rd; Node.readableEnded := false; Node.buf := b |}
    = (e (b ++ List.concat rd),
       {| Node.incoming := []; Node.readableEnded := true;
          Node.buf := b ++ List.concat rd |}).
Proof.
  induction rd as [| c rd IH]; intros b fuel Hf Hq.
  - simpl in Hq. rewrite app_nil_r in Hq |- *.
    destruct fuel as [| fuel]; [simpl in Hf; lia |].
    simpl. rewrite Hq, andb_false_r. simpl.
    unfold Node.emit. simpl. unfold Node.push. simpl.
    rewrite node_waitFor_ended. rewrite Hq. reflexivity.
  - destruct fuel as [| fuel]; [simpl in Hf; lia |].
    simpl in Hf, Hq. rewrite app_assoc in Hq.
    assert (Hb : q b = false).
    { destruct (q b) eqn:E; trivial.
      rewrite <- app_assoc in Hq.
      rewrite (q_stays_true b _ E) in Hq. discriminate. }
    simpl. rewrite Hb, andb_false_r. simpl.
    unfold Node.emit. simpl. rewrite node_push_buf. simpl.
    rewrite (IH (b ++ c) fuel) by (trivial; lia).
    rewrite <- app_assoc. reflexivity.
Qed.

Lemma node_waitFor_stops (rd : list bytes) :
  forall (b : bytes) (fuel : nat),
    List.length rd < fuel ->
    q (b ++ List.concat rd) = true ->
    exists rd1 b1,
      Node.waitFor fuel predicate
        {| Node.incoming := rd; Node.readableEnded := false; Node.buf := b |}
      = (true, {| Node.incoming := rd1; Node.readableEnded := false; Node.buf := b1 |})
      /\ b1 ++ List.concat rd1 = b ++ List.concat rd
      /\ q b1 = true
      /\ exists delivered, rd = delivered ++ rd1.
Proof.
  induction rd as [| c rd IH]; intros b fuel Hf Hq.
  - simpl in Hq. rewrite app_nil_r in Hq.
    exists [], b. split; [| split; [| split]]; trivial; [| exists []; reflexivity].
    destruct fuel; simpl; rewrite Hq; reflexivity.
  - destruct fuel as [| fuel]; [simpl in Hf; lia |].
    simpl in Hf.
    destruct (q b) eqn:Hb.
    + exists (c :: rd), b. split; [| split; [| split]]; trivial; [| exists []; reflexivity].
      simpl. rewrite Hb. reflexivity.
    + simpl. rewrite Hb, andb_false_r. simpl.
      unfold Node.emit. simpl. rewrite node_push_buf. simpl.
      simpl in Hq. rewrite app_assoc in Hq.
      destruct (IH (b ++ c) fuel) as (rd1 & b1 & E & Hu & Hq1 & d & Hd);
        [lia | exact Hq |].
      exists rd1, b1. split; [exact E | split; [| split; [exact Hq1 |]]].
      * rewrite Hu. rewrite <- app_assoc. reflexivity.
      * exists (c :: d). rewrite Hd. reflexivity.
Qed.

(** Waiting, from a well-formed reader: either the buffer test comes
    true, with nothing lost; or every event passes, and the wait is over
    only if the other test holds of all that was received. *)
Lemma node_wait (r : Node.BufferedReader) :
  Node.wf r ->
  exists flag r1,
    Node.waitFor (Node.turns r) predicate r = (flag, r1)
    /\ Node.unread r1 = Node.unread r
    /\ Node.wf r1
    /\ (exists delivered, Node.incoming r = delivered ++ Node.incoming r1)
    /\ (if q (Node.unread r)
        then flag = true /\ q (Node.buf r1) = true
        else flag = e (Node.unread r)
             /\ r1 = {| Node.incoming := []; Node.readableEnded := true;
                        Node.buf := Node.unread r |}).
Proof.
  intros Hwf. destruct r as [rd [|] b]; unfold Node.wf, Node.turns, Node.unread in *;
    cbn [Node.incoming Node.buf Node.readableEnded] in *.
  - rewrite (Hwf eq_refl). rewrite node_waitFor_ended.
    do 2 eexists. split; [reflexivity |].
    cbn [Node.incoming Node.buf Node.readableEnded List.concat].
    rewrite app_nil_r. repeat split; trivial; [exists []; reflexivity |].
    destruct (q b); simpl; split; reflexivity.
  - destruct (q (b ++ List.concat rd)) eqn:Ht.
    + destruct (node_waitFor_stops rd b (S (List.length rd)))
        as (rd1 & b1 & E1 & Hu & Hq1 & Hd); [lia | exact Ht |].
      rewrite E1. do 2 eexists. split; [reflexivity |].
      cbn [Node.incoming Node.buf Node.readableEnded].
      repeat split; trivial. intros H; discriminate.
    + rewrite node_waitFor_all by (trivial; lia).
      do 2 eexists. split; [reflexivity |].
      cbn [Node.incoming Node.buf Node.readableEnded List.concat].
      rewrite app_nil_r. repeat split; trivial.
      exists rd. rewrite app_nil_r. reflexivity.
Qed.

End NodeLoop.

Lemma length_ge_stays_true (n : nat) (b c : bytes) :
  (n <=? List.length b) = true -> (n <=? List.length (b ++ c)) = true.
Proof. rewrite !Nat.leb_le, length_app. lia. Qed.

Lemma has_CRLF_stays_true (b c : bytes) :
  (0 <=? indexOfCRLF b)%Z = true -> (0 <=? indexOfCRLF (b ++ c))%Z = true.
Proof.
  rewrite !Z.leb_le. intros H.
  destruct (indexOfCRLF_cases b) as [[Hn _] | [k [Hk Hf]]]; [lia |].
  apply (first_CRLF_at_app b c) in Hf. apply indexOfCRLF_found in Hf. lia.
Qed.

Lemma nonempty_stays_true (b c : bytes) :
  (0 <? List.length b) = true -> (0 <? List.length (b ++ c)) = true.
Proof. rewrite !Nat.ltb_lt, length_app. lia. Qed.

(** *** [readExact] in the Node port *)

Lemma node_readExact_enough (n : nat) (r : Node.BufferedReader) :
  Node.wf r ->
  n <= List.length (Node.unread r) ->
  exists r',
    Node.readExact n r = (Returned (firstn n (Node.unread r)), r')
    /\ Node.unread r' = skipn n (Node.unread r)
    /\ Node.wf r'.
Proof.
  intros Hwf Hlen. unfold Node.readExact.
  destruct (node_wait (fun b => n <=? List.length b) (fun b => List.length b =? 0)
              (length_ge_stays_true n) r Hwf)
    as (flag & r1 & E & Hu & Hwf1 & Hd & Hc).
  rewrite E. apply Nat.leb_le in Hlen. rewrite Hlen in Hc.
  destruct Hc as [-> Hq]. cbn [negb]. apply Nat.leb_le in Hq.
  replace (List.length (Node.buf r1) <? n) with false by (symmetry; apply Nat.ltb_ge; lia).
  eexists. split; [| split].
  - unfold slice_to. rewrite <- Hu. unfold Node.unread.
    rewrite firstn_app. replace (n - List.length (Node.buf r1)) with 0 by lia.
    simpl. rewrite app_nil_r. reflexivity.
  - rewrite <- Hu. unfold Node.unread, Node.set_buf, slice_from.
    cbn [Node.incoming Node.buf Node.readableEnded].
    rewrite skipn_app. replace (n - List.length (Node.buf r1)) with 0 by lia.
    reflexivity.
  - exact Hwf1.
Qed.

(** With too few bytes on the socket, the call is only ever answered when
    there were none at all. *)
Lemma node_readExact_short (n : nat) (r : Node.BufferedReader) :
  Node.wf r ->
  List.length (Node.unread r) < n ->
  Node.readExact n r
  = (match Node.unread r with [] => Threw Unexpected_EOF | _ :: _ => Pending end,
     {| Node.incoming := []; Node.readableEnded := true; Node.buf := Node.unread r |}).
Proof.
  intros Hwf Hlen. unfold Node.readExact.
  destruct (node_wait (fun b => n <=? List.length b) (fun b => List.length b =? 0)
              (length_ge_stays_true n) r Hwf)
    as (flag & r1 & E & Hu & Hwf1 & Hd & Hc).
  rewrite E.
  replace (n <=? List.length (Node.unread r)) with false in Hc
    by (symmetry; apply Nat.leb_gt; lia).
  destruct Hc as [-> ->]. cbn [Node.buf].
  destruct (Node.unread r) as [| x u] eqn:Eu.
  - simpl. destruct n; [simpl in Hlen; lia | reflexivity].
  - reflexivity.
Qed.

(** *** [readUntilCRLF] in the Node port *)

Lemma node_readUntilCRLF_present (r : Node.BufferedReader) (k : nat) :
  Node.wf r ->
  first_CRLF_at (Node.unread r) k ->
  exists r',
    Node.readUntilCRLF r = (Returned (firstn (k + 2) (Node.unread r)), r')
    /\ Node.unread r' = skipn (k + 2) (Node.unread r)
    /\ Node.wf r'.
Proof.
  intros Hwf Hk. unfold Node.readUntilCRLF.
  destruct (node_wait (fun b => (0 <=? indexOfCRLF b)%Z) (fun b => List.length b =? 0)
              has_CRLF_stays_true r Hwf)
    as (flag & r1 & E & Hu & Hwf1 & Hd & Hc).
  rewrite E.
  assert (Hfound : (0 <=? indexOfCRLF (Node.unread r))%Z = true).
  { apply indexOfCRLF_found in Hk. apply Z.leb_le. lia. }
  rewrite Hfound in Hc. destruct Hc as [-> Hq]. cbn [negb]. cbv zeta.
  assert (Hk1 : first_CRLF_at (Node.buf r1) k).
  { rewrite <- Hu in Hk. unfold Node.unread in Hk.
    destruct (first_CRLF_at_prefix _ _ _ Hk) as [Hno | H]; trivial.
    apply indexOfCRLF_absent in Hno. apply Z.leb_le in Hq. lia. }
  pose proof (CRLF_at_length _ _ (proj1 Hk1)) as L.
  apply indexOfCRLF_found in Hk1. rewrite Hk1.
  replace (Z.of_nat k <? 0)%Z with false by (symmetry; apply Z.ltb_ge; lia).
  replace (Z.to_nat (Z.of_nat k + 2)) with (k + 2) by lia.
  eexists. split; [| split].
  - unfold slice_to. rewrite <- Hu. unfold Node.unread.
    rewrite firstn_app. replace (k + 2 - List.length (Node.buf r1)) with 0 by lia.
    simpl. rewrite app_nil_r. reflexivity.
  - rewrite <- Hu. unfold Node.unread, Node.set_buf, slice_from.
    cbn [Node.incoming Node.buf Node.readableEnded].
    rewrite skipn_app. replace (k + 2 - List.length (Node.buf r1)) with 0 by lia.
    reflexivity.
  - exact Hwf1.
Qed.

(** Without a delimiter on the socket, the call is only ever answered when
    there were no bytes at all. *)
Lemma node_readUntilCRLF_absent (r : Node.BufferedReader) :
  Node.wf r ->
  no_CRLF (Node.unread r) ->
  Node.readUntilCRLF r
  = (match Node.unread r with [] => Threw Unexpected_EOF | _ :: _ => Pending end,
     {| Node.incoming := []; Node.readableEnded := true; Node.buf := Node.unread r |}).
Proof.
  intros Hwf Hno. unfold Node.readUntilCRLF.
  destruct (node_wait (fun b => (0 <=? indexOfCRLF b)%Z) (fun b => List.length b =? 0)
              has_CRLF_stays_true r Hwf)
    as (flag & r1 & E & Hu & Hwf1 & Hd & Hc).
  rewrite E. apply indexOfCRLF_absent in Hno.
  rewrite Hno in Hc. cbn in Hc.
  destruct Hc as [-> ->]. cbn [Node.buf]. cbv zeta. rewrite Hno.
  destruct (Node.unread r) as [| x u] eqn:Eu; reflexivity.
Qed.

(** ** No byte is lost: what each call hands out *)

Lemma delivered_form (out b' b : bytes) (d rd' : list bytes) :
  out ++ (b' ++ List.concat rd') = b ++ List.concat (d ++ rd') ->
  out ++ b' = b ++ List.concat d.
Proof.
  rewrite concat_app, !app_assoc. apply app_inv_tail.
Qed.

Lemma web_pullOne_conserves (r : Web.BufferedReader) :
  Web.wf r ->
  Web.wf (Web.pullOne r)
  /\ Web.unread (Web.pullOne r) = Web.unread r
  /\ exists delivered, Web.reader r = delivered ++ Web.reader (Web.pullOne r).
Proof.
  destruct r as [rd b [|]]; unfold Web.wf, Web.pullOne, Web.unread;
    cbn [Web.reader Web.buf Web.done]; intros Hwf.
  - repeat split; trivial. exists []; reflexivity.
  - destruct rd as [| c rd]; cbn.
    + repeat split; trivial. exists []; reflexivity.
    + repeat split; [intros H; discriminate | apply eq_sym, app_assoc |].
      exists [c]; reflexivity.
Qed.

Lemma web_perform_conserves (c : call) (r r' : Web.BufferedReader) (res : outcome bytes) :
  Web.wf r ->
  Web.perform c r = (res, r') ->
  Web.wf r'
  /\ res <> Pending
  /\ exists delivered,
       Web.reader r = delivered ++ Web.reader r'
       /\ bytes_of res (fun out => out) ++ Web.buf r' = Web.buf r ++ List.concat delivered.
Proof.
  intros Hwf E.
  assert (H : Web.wf r' /\ res <> Pending
              /\ (exists delivered, Web.reader r = delivered ++ Web.reader r')
              /\ bytes_of res (fun out => out) ++ Web.unread r' = Web.unread r).
  { destruct c as [n | | n]; cbn [Web.perform] in E.
    - unfold Web.readExact in E.
      destruct (web_loop (fun b => List.length b <? n) r (length_lt_stays_false n) Hwf)
        as (r1 & E1 & Hu & Hwf1 & Hd & _).
      rewrite E1 in E.
      destruct (List.length (Web.buf r1) <? n); injection E as <- <-.
      + repeat split; trivial. discriminate.
      + repeat split; trivial; [discriminate |].
        rewrite <- Hu. unfold Web.unread, Web.set_buf, slice_to, slice_from, bytes_of.
        cbn [Web.reader Web.buf Web.done].
        rewrite app_assoc, firstn_skipn. reflexivity.
    - unfold Web.readUntilCRLF in E.
      destruct (web_loop (fun b => (indexOfCRLF b <? 0)%Z) r no_CRLF_stays_false Hwf)
        as (r1 & E1 & Hu & Hwf1 & Hd & _).
      rewrite E1 in E. cbv zeta in E.
      destruct (indexOfCRLF (Web.buf r1) <? 0)%Z; injection E as <- <-.
      + repeat split; trivial. discriminate.
      + repeat split; trivial; [discriminate |].
        rewrite <- Hu. unfold Web.unread, Web.set_buf, slice_to, slice_from, bytes_of.
        cbn [Web.reader Web.buf Web.done].
        rewrite app_assoc, firstn_skipn. reflexivity.
    - unfold Web.readAvailable in E. cbv zeta in E. injection E as <- <-.
      assert (H1 : exists r1,
                 (if (List.length (Web.buf r) =? 0) && negb (Web.done r)
                  then Web.pullOne r else r) = r1
                 /\ Web.wf r1 /\ Web.unread r1 = Web.unread r
                 /\ exists delivered, Web.reader r = delivered ++ Web.reader r1).
      { destruct ((List.length (Web.buf r) =? 0) && negb (Web.done r)).
        - exists (Web.pullOne r). split; trivial. apply web_pullOne_conserves, Hwf.
        - exists r. repeat split; trivial. exists []; reflexivity. }
      destruct H1 as (r1 & -> & Hwf1 & Hu & Hd).
      repeat split; trivial; [discriminate |].
      rewrite <- Hu. unfold Web.unread, Web.set_buf, slice_to, slice_from, bytes_of.
      cbn [Web.reader Web.buf Web.done].
      rewrite app_assoc, firstn_skipn. reflexivity. }
  destruct H as (Hwf' & Hres & [d Hd] & Hu).
  repeat split; trivial. exists d. split; trivial.
  apply (delivered_form _ _ _ d (Web.reader r')).
  rewrite <- Hd. exact Hu.
Qed.

Lemma web_perform_all_conserves (cs : list call) :
  forall (r r' : Web.BufferedReader) (outs : list bytes),
    Web.wf r ->
    Web.perform_all cs r = (Some outs, r') ->
    Web.wf r'
    /\ exists delivered,
         Web.reader r = delivered ++ Web.reader r'
         /\ List.concat outs ++ Web.buf r' = Web.buf r ++ List.concat delivered.
Proof.
  induction cs as [| c cs IH]; intros r r' outs Hwf E.
  - injection E as <- <-. split; trivial. exists []. simpl. rewrite app_nil_r. split; reflexivity.
  - cbn [Web.perform_all] in E.
    destruct (Web.perform c r) as [res r1] eqn:E1.
    destruct (web_perform_conserves c r r1 res Hwf E1) as (Hwf1 & _ & d1 & Hd1 & Hb1).
    destruct res as [out | e |]; try discriminate.
    destruct (Web.perform_all cs r1) as [outs1 r2] eqn:E2.
    destruct outs1 as [outs1 |]; cbn in E; try discriminate.
    injection E as <- <-.
    destruct (IH r1 r2 outs1 Hwf1 E2) as (Hwf2 & d2 & Hd2 & Hb2).
    split; trivial. exists (d1 ++ d2). split.
    + rewrite Hd1, Hd2. apply app_assoc.
    + cbn [bytes_of] in Hb1. cbn [List.concat].
      rewrite <- app_assoc, Hb2, app_assoc, Hb1, concat_app, app_assoc. reflexivity.
Qed.

Lemma node_emit_conserves (r r1 : Node.BufferedReader) :
  Node.wf r ->
  Node.emit r = Some r1 ->
  Node.wf r1
  /\ exists delivered,
       Node.incoming r = delivered ++ Node.incoming r1
       /\ Node.buf r1 = Node.buf r ++ List.concat delivered.
Proof.
  destruct r as [rd e b]; unfold Node.wf, Node.emit;
    cbn [Node.incoming Node.buf Node.readableEnded]; intros Hwf E.
  destruct rd as [| c rd].
  - destruct e; [discriminate |]. injection E as <-. cbn.
    split; trivial. exists []. cbn. rewrite app_nil_r. split; reflexivity.
  - injection E as <-. rewrite node_push_buf. cbn.
    split.
    + intros He. specialize (Hwf He). discriminate.
    + exists [c]. cbn. rewrite app_nil_r. split; reflexivity.
Qed.

Lemma node_perform_conserves (c : call) (r r' : Node.BufferedReader) (res : outcome bytes) :
  Node.wf r ->
  Node.perform c r = (res, r') ->
  Node.wf r'
  /\ exists delivered,
       Node.incoming r = delivered ++ Node.incoming r'
       /\ bytes_of res (fun out => out) ++ Node.buf r' = Node.buf r ++ List.concat delivered.
Proof.
  intros Hwf E.
  assert (H : Node.wf r'
              /\ (exists delivered, Node.incoming r = delivered ++ Node.incoming r')
              /\ bytes_of res (fun out => out) ++ Node.unread r' = Node.unread r).
  { destruct c as [n | | n]; cbn [Node.perform] in E.
    - unfold Node.readExact in E.
      destruct (node_wait (fun b => n <=? List.length b) (fun b => List.length b =? 0)
                  (length_ge_stays_true n) r Hwf)
        as (flag & r1 & E1 & Hu & Hwf1 & Hd & _).
      rewrite E1 in E.
      destruct (negb flag); [injection E as <- <-; repeat split; trivial |].
      destruct (List.length (Node.buf r1) <? n); injection E as <- <-.
      + repeat split; trivial.
      + repeat split; trivial.
        rewrite <- Hu. unfold Node.unread, Node.set_buf, slice_to, slice_from, bytes_of.
        cbn [Node.incoming Node.buf Node.readableEnded].
        rewrite app_assoc, firstn_skipn. reflexivity.
    - unfold Node.readUntilCRLF in E.
      destruct (node_wait (fun b => (0 <=? indexOfCRLF b)%Z) (fun b => List.length b =? 0)
                  has_CRLF_stays_true r Hwf)
        as (flag & r1 & E1 & Hu & Hwf1 & Hd & _).
      rewrite E1 in E. cbv zeta in E.
      destruct (negb flag); [injection E as <- <-; repeat split; trivial |].
      destruct (indexOfCRLF (Node.buf r1) <? 0)%Z; injection E as <- <-.
      + repeat split; trivial.
      + repeat split; trivial.
        rewrite <- Hu. unfold Node.unread, Node.set_buf, slice_to, slice_from, bytes_of.
        cbn [Node.incoming Node.buf Node.readableEnded].
        rewrite app_assoc, firstn_skipn. reflexivity.
    - unfold Node.readAvailable in E.
      assert (H1 : exists flag r1,
                 (if List.length (Node.buf r) =? 0
                  then Node.waitFor (Node.turns r)
                         (fun r => (0 <? List.length (Node.buf r)) || Node.readableEnded r) r
                  else (true, r)) = (flag, r1)
                 /\ Node.wf r1 /\ Node.unread r1 = Node.unread r
                 /\ exists delivered, Node.incoming r = delivered ++ Node.incoming r1).
      { destruct (List.length (Node.buf r) =? 0).
        - destruct (node_wait (fun b => 0 <? List.length b) (fun _ => true)
                      nonempty_stays_true r Hwf)
            as (flag & r1 & E1 & Hu & Hwf1 & Hd & _).
          cbn [andb] in E1. exists flag, r1. repeat split; trivial.
        - exists true, r. repeat split; trivial. exists []; reflexivity. }
      destruct H1 as (flag & r1 & E1 & Hwf1 & Hu & Hd).
      rewrite E1 in E. cbv zeta in E.
      destruct (negb flag); injection E as <- <-; repeat split; trivial.
      rewrite <- Hu. unfold Node.unread, Node.set_buf, slice_to, slice_from, bytes_of.
      cbn [Node.incoming Node.buf Node.readableEnded].
      rewrite app_assoc, firstn_skipn. reflexivity. }
  destruct H as (Hwf' & [d Hd] & Hu).
  split; trivial. exists d. split; trivial.
  apply (delivered_form _ _ _ d (Node.incoming r')).
  rewrite <- Hd. exact Hu.
Qed.

Lemma node_perform_all_conserves (ss : list Node.step) :
  forall (r r' : Node.BufferedReader) (outs : list bytes),
    Node.wf r ->
    Node.perform_all ss r = (Some outs, r') ->
    Node.wf r'
    /\ exists delivered,
         Node.incoming r = delivered ++ Node.incoming r'
         /\ List.concat outs ++ Node.buf r' = Node.buf r ++ List.concat delivered.
Proof.
  induction ss as [| s ss IH]; intros r r' outs Hwf E.
  - injection E as <- <-. split; trivial. exists []. simpl. rewrite app_nil_r. split; reflexivity.
  - destruct s as [c |]; cbn [Node.perform_all] in E.
    + destruct (Node.perform c r) as [res r1] eqn:E1.
      destruct (node_perform_conserves c r r1 res Hwf E1) as (Hwf1 & d1 & Hd1 & Hb1).
      destruct res as [out | e |]; try discriminate.
      destruct (Node.perform_all ss r1) as [outs1 r2] eqn:E2.
      destruct outs1 as [outs1 |]; cbn in E; try discriminate.
      injection E as <- <-.
      destruct (IH r1 r2 outs1 Hwf1 E2) as (Hwf2 & d2 & Hd2 & Hb2).
      split; trivial. exists (d1 ++ d2). split.
      * rewrite Hd1, Hd2. apply app_assoc.
      * cbn [bytes_of] in Hb1. cbn [List.concat].
        rewrite <- app_assoc, Hb2, app_assoc, Hb1, concat_app, app_assoc. reflexivity.
    + destruct (Node.emit r) as [r1 |] eqn:E1.
      * destruct (node_emit_conserves r r1 Hwf E1) as (Hwf1 & d1 & Hd1 & Hb1).
        destruct (IH r1 r' outs Hwf1 E) as (Hwf2 & d2 & Hd2 & Hb2).
        split; trivial. exists (d1 ++ d2). split.
        -- rewrite Hd1, Hd2. apply app_assoc.
        -- rewrite Hb2, Hb1, concat_app, app_assoc. reflexivity.
      * apply (IH r r' outs Hwf E).
Qed.

(** ** Strings *)

Lemma str_app_assoc (a b c : string) :
  ((a ++ b) ++ c)%string = (a ++ (b ++ c))%string.
Proof. induction a as [| x a IH]; simpl; [| rewrite IH]; reflexivity. Qed.

Lemma str_app_nil_r (a : string) : (a ++ "")%string = a.
Proof. induction a as [| x a IH]; simpl; [| rewrite IH]; reflexivity. Qed.

Lemma str_length_app (a b : string) :
  String.length (a ++ b) = String.length a + String.length b.
Proof. induction a as [| x a IH]; simpl; [| rewrite IH]; reflexivity. Qed.

Lemma wire_bytes_app (a b : string) :
  wire_bytes (a ++ b) = wire_bytes a ++ wire_bytes b.
Proof.
  unfold wire_bytes, list_byte_of_string.
  induction a as [| x a IH]; simpl; [| rewrite IH]; reflexivity.
Qed.

Lemma wire_bytes_length (a : string) :
  List.length (wire_bytes a) = String.length a.
Proof.
  unfold wire_bytes, list_byte_of_string.
  induction a as [| x a IH]; simpl; [| rewrite IH]; reflexivity.
Qed.

Lemma wire_bytes_crlf : wire_bytes crlf = CRLF.
Proof. reflexivity. Qed.

Lemma ascii_string_app (a b : string) :
  ascii_string (a ++ b) = ascii_string a && ascii_string b.
Proof.
  induction a as [| x a IH]; simpl; [| rewrite IH, andb_assoc]; reflexivity.
Qed.

(** *** Decoding a line of the wire format *)

Lemma clear_top_bit (c : ascii) :
  ascii_char c = true ->
  ascii_of_N (N.land (Byte.to_N (byte_of_ascii c)) 127) = c.
Proof.
  destruct c as [[] [] [] [] [] [] [] []]; intros H;
    solve [reflexivity | discriminate H].
Qed.

Lemma node_toString_ascii_wire (s : string) :
  ascii_string s = true -> Node.toString_ascii (wire_bytes s) = s.
Proof.
  unfold Node.toString_ascii, wire_bytes, list_byte_of_string.
  induction s as [| c s IH]; simpl; intros H; [reflexivity |].
  apply andb_true_iff in H. destruct H as [Hc Hs].
  rewrite clear_top_bit by exact Hc. rewrite IH by exact Hs. reflexivity.
Qed.

(** *** Splitting and searching *)

Lemma split_without (sep : ascii) (a : string) :
  occurs sep a = false -> split sep a = [a].
Proof.
  induction a as [| x a IH]; simpl; intros H; [reflexivity |].
  apply orb_false_iff in H. destruct H as [Hx Ha].
  rewrite Hx, IH by exact Ha. reflexivity.
Qed.

Lemma split_at_first (sep : ascii) (a b : string) :
  occurs sep a = false ->
  split sep (a ++ String sep b) = a :: split sep b.
Proof.
  induction a as [| x a IH]; simpl; intros H.
  - rewrite Ascii.eqb_refl. reflexivity.
  - apply orb_false_iff in H. destruct H as [Hx Ha].
    rewrite Hx, IH by exact Ha. reflexivity.
Qed.

Lemma indexOf_from_without (c : ascii) (s : string) :
  forall i, occurs c s = false -> indexOf_from i c s = (-1)%Z.
Proof.
  induction s as [| x s IH]; simpl; intros i H; [reflexivity |].
  apply orb_false_iff in H. destruct H as [Hx Hs].
  rewrite Hx. apply IH, Hs.
Qed.

Lemma indexOf_from_first (c : ascii) (pre post : string) :
  forall i,
    occurs c pre = false ->
    indexOf_from i c (pre ++ String c post) = (i + Z.of_nat (String.length pre))%Z.
Proof.
  induction pre as [| x pre IH]; simpl; intros i H.
  - rewrite Ascii.eqb_refl. lia.
  - apply orb_false_iff in H. destruct H as [Hx Hp].
    rewrite Hx, IH by exact Hp. lia.
Qed.

Lemma str_slice_to_app (pre post : string) :
  str_slice_to (String.length pre) (pre ++ post) = pre.
Proof.
  induction pre as [| x pre IH]; simpl.
  - destruct post; reflexivity.
  - rewrite IH. reflexivity.
Qed.

Lemma str_slice_from_app (pre post : string) :
  str_slice_from (String.length pre) (pre ++ post) = post.
Proof.
  induction pre as [| x pre IH]; simpl; [destruct post; reflexivity | exact IH].
Qed.

(** *** Trimming and folding case *)

Lemma trimStart_decomposes (s : string) :
  exists ws,
    s = (ws ++ trimStart s)%string
    /\ all_chars isWhiteSpace ws = true
    /\ first_is isWhiteSpace (trimStart s) = false.
Proof.
  induction s as [| c s (ws & E & Hws & Hf)]; simpl.
  - exists EmptyString. repeat split.
  - destruct (isWhiteSpace c) eqn:Hc.
    + exists (String c ws). simpl. rewrite Hc, Hws. rewrite <- E. repeat split. exact Hf.
    + exists EmptyString. simpl. repeat split. exact Hc.
Qed.

Lemma trimStart_skips (ws t : string) :
  all_chars isWhiteSpace ws = true ->
  first_is isWhiteSpace t = false ->
  trimStart (ws ++ t) = t.
Proof.
  induction ws as [| c ws IH]; simpl; intros Hws Ht.
  - destruct t as [| x t]; simpl in *; [reflexivity | rewrite Ht; reflexivity].
  - apply andb_true_iff in Hws. destruct Hws as [Hc Hws].
    rewrite Hc. apply IH; assumption.
Qed.

Lemma trimEnd_decomposes (s : string) :
  exists ws,
    s = (trimEnd s ++ ws)%string
    /\ all_chars isWhiteSpace ws = true
    /\ last_is isWhiteSpace (trimEnd s) = false.
Proof.
  induction s as [| c s (ws & E & Hws & Hl)].
  - exists EmptyString. repeat split.
  - cbn [trimEnd]. destruct (trimEnd s) as [| y t] eqn:Et.
    + destruct (isWhiteSpace c) eqn:Hc.
      * exists (String c ws). cbn in *. rewrite Hc, Hws, <- E. repeat split.
      * exists ws. cbn in *. subst s. rewrite Hc. repeat split; assumption.
    + exists ws. rewrite E at 1. repeat split; trivial.
Qed.

Lemma trimEnd_keeps_first (f : ascii -> bool) (s : string) :
  first_is f s = false -> first_is f (trimEnd s) = false.
Proof.
  destruct s as [| c s]; simpl; intros H; [reflexivity |].
  destruct (trimEnd s); [destruct (isWhiteSpace c) |]; simpl; trivial.
Qed.

(** [trim] removes white space from both ends and nothing else. *)
Lemma trim_spec (s : string) :
  exists l r,
    s = (l ++ trim s ++ r)%string
    /\ all_chars isWhiteSpace l = true
    /\ all_chars isWhiteSpace r = true
    /\ first_is isWhiteSpace (trim s) = false
    /\ last_is isWhiteSpace (trim s) = false.
Proof.
  unfold trim.
  destruct (trimStart_decomposes s) as (l & El & Hl & Hf).
  destruct (trimEnd_decomposes (trimStart s)) as (r & Er & Hr & Hlast).
  exists l, r. repeat split; trivial.
  - rewrite <- Er. exact El.
  - apply trimEnd_keeps_first. exact Hf.
Qed.

(** [toLowerCase] maps the letters A to Z to a to z, each in its place. *)
Lemma lower_spec (c : ascii) :
  lower c = if (65 <=? nat_of_ascii c) && (nat_of_ascii c <=? 90)
            then ascii_of_nat (nat_of_ascii c + 32) else c.
Proof. reflexivity. Qed.

Lemma toLowerCase_length (s : string) :
  String.length (toLowerCase s) = String.length s.
Proof. induction s as [| c s IH]; simpl; [| rewrite IH]; reflexivity. Qed.

Lemma toLowerCase_get (s : string) :
  forall i, String.get i (toLowerCase s) = option_map lower (String.get i s).
Proof.
  induction s as [| c s IH]; intros i; simpl; [reflexivity |].
  destruct i; simpl; [reflexivity | apply IH].
Qed.

(** *** [parseInt] *)

Lemma digit_of_is_digit (c : ascii) :
  digit_of c = if is_digit c then Some (Z.of_nat (nat_of_ascii c - 48)) else None.
Proof. reflexivity. Qed.

Lemma starts_with_digit_first (s : string) :
  starts_with_digit s = first_is is_digit s.
Proof.
  destruct s as [| c s]; simpl; [reflexivity |].
  rewrite digit_of_is_digit. destruct (is_digit c); reflexivity.
Qed.

Lemma parse_digits_run (ds : string) :
  forall (acc : Z) (rest : string),
    all_chars is_digit ds = true ->
    starts_with_digit rest = false ->
    parse_digits acc (ds ++ rest)
    = (acc * 10 ^ Z.of_nat (String.length ds) + decimal_value ds)%Z.
Proof.
  induction ds as [| c ds IH]; intros acc rest Hds Hrest.
  - simpl. destruct rest as [| x rest]; simpl in *; [lia |].
    destruct (digit_of x); [discriminate | lia].
  - simpl in Hds. apply andb_true_iff in Hds. destruct Hds as [Hc Hds].
    cbn [append parse_digits]. rewrite digit_of_is_digit, Hc.
    rewrite (IH _ rest Hds Hrest).
    cbn [String.length decimal_value].
    rewrite Nat2Z.inj_succ, Z.pow_succ_r by lia. ring.
Qed.

Lemma digit_run (s : string) :
  exists ds rest,
    s = (ds ++ rest)%string
    /\ all_chars is_digit ds = true
    /\ starts_with_digit rest = false.
Proof.
  induction s as [| c s (ds & rest & E & Hds & Hrest)].
  - exists EmptyString, EmptyString. repeat split.
  - destruct (is_digit c) eqn:Hc.
    + exists (String c ds), rest. simpl. rewrite Hc, Hds, <- E. repeat split. exact Hrest.
    + exists EmptyString, (String c s). simpl. rewrite digit_of_is_digit, Hc. repeat split.
Qed.

Lemma not_white_digit (c : ascii) : is_digit c = true -> isWhiteSpace c = false.
Proof.
  unfold is_digit, isWhiteSpace. intros H. apply andb_true_iff in H.
  destruct H as [H1 H2]. apply Nat.leb_le in H1, H2.
  repeat (apply orb_false_iff; split); apply Nat.eqb_neq; lia.
Qed.

Lemma first_of_signed (sg : sign) (d : ascii) (rest : string) :
  is_digit d = true ->
  first_is isWhiteSpace (sign_string sg ++ String d rest) = false.
Proof.
  intros Hd. destruct sg; simpl; [apply not_white_digit, Hd | reflexivity | reflexivity].
Qed.

(** *** Numbers *)

Lemma nearest_double_exact (m : Z) :
  (m <= 2 ^ 53)%Z -> nearest_double m = Some m.
Proof.
  intros H. unfold nearest_double.
  destruct (Z.leb_spec m (2 ^ 53)); [reflexivity | lia].
Qed.

Lemma to_number_exact (sg : sign) (m : Z) :
  (0 <= m <= 2 ^ 53)%Z ->
  (m = 0%Z -> sg <> MinusSign) ->
  to_number (negative_sign sg) m = Num (sign_value sg * m).
Proof.
  intros [H0 H] Hz. unfold to_number. rewrite (nearest_double_exact m H).
  destruct m as [| p | p]; [| | lia].
  - destruct sg; try reflexivity. exfalso. exact (Hz eq_refl eq_refl).
  - destruct sg; cbn [negative_sign sign_value]; f_equal; lia.
Qed.

Lemma to_number_not_NaN (negative : bool) (m : Z) : to_number negative m <> NaN.
Proof.
  unfold to_number.
  destruct (nearest_double m) as [[| p | p] |]; destruct negative; discriminate.
Qed.

Lemma decimal_value_bound (ds : string) :
  all_chars is_digit ds = true ->
  (0 <= decimal_value ds < 10 ^ Z.of_nat (String.length ds))%Z.
Proof.
  induction ds as [| c ds IH]; intros H; [cbn; lia |].
  cbn [all_chars] in H. apply andb_true_iff in H. destruct H as [Hc Hds].
  specialize (IH Hds). cbn [decimal_value String.length].
  rewrite Nat2Z.inj_succ, Z.pow_succ_r by lia.
  unfold is_digit in Hc. apply andb_true_iff in Hc. destruct Hc as [H1 H2].
  apply Nat.leb_le in H1, H2.
  assert (0 <= Z.of_nat (nat_of_ascii c - 48) <= 9)%Z by lia.
  nia.
Qed.

(** A sign is taken off before the digits are looked for. *)
Lemma parseInt_string_signed (ws : string) (sg : sign) (d : ascii) (rest : string) :
  all_chars isWhiteSpace ws = true ->
  is_digit d = true ->
  parseInt_string (ws ++ sign_string sg ++ String d rest)
  = to_number (negative_sign sg) (parse_digits 0 (String d rest)).
Proof.
  intros Hws Hd. unfold parseInt_string.
  rewrite (trimStart_skips ws _ Hws (first_of_signed sg d rest Hd)).
  destruct sg; cbn [sign_string negative_sign append].
  - assert (Hm : d <> "-"%char) by (intros ->; discriminate Hd).
    assert (Hp : d <> "+"%char) by (intros ->; discriminate Hd).
    destruct d as [[] [] [] [] [] [] [] []]; try congruence;
      cbn [starts_with_digit]; rewrite digit_of_is_digit, Hd; reflexivity.
  - cbn [starts_with_digit]. rewrite digit_of_is_digit, Hd. reflexivity.
  - cbn [starts_with_digit]. rewrite digit_of_is_digit, Hd. reflexivity.
Qed.

Lemma parseInt_string_numeric (s : string) :
  parseInt_string s <> NaN <-> numeric_prefix s.
Proof.
  split.
  - intros H. unfold parseInt_string in H.
    destruct (trimStart_decomposes s) as (ws & E & Hws & Hf).
    remember (trimStart s) as s0 eqn:E0. clear E0.
    assert (Hcase : exists sg s1,
               s0 = (sign_string sg ++ s1)%string
               /\ (let '(negative, s1') :=
                      match s0 with
                      | String "-"%char t => (true, t)
                      | String "+"%char t => (false, t)
                      | _ => (false, s0)
                      end in
                    if starts_with_digit s1'
                    then to_number negative (parse_digits 0 s1') else NaN)
                  = if starts_with_digit s1
                    then to_number (negative_sign sg) (parse_digits 0 s1) else NaN).
    { destruct s0 as [| c t].
      - exists NoSign, EmptyString. split; reflexivity.
      - destruct (Ascii.eqb_spec c "-"%char) as [-> | Hm].
        + exists MinusSign, t. split; reflexivity.
        + destruct (Ascii.eqb_spec c "+"%char) as [-> | Hp].
          * exists PlusSign, t. split; reflexivity.
          * exists NoSign, (String c t). split; [reflexivity |].
            destruct c as [[] [] [] [] [] [] [] []]; try congruence; reflexivity. }
    destruct Hcase as (sg & s1 & Es & Ev). rewrite Ev in H.
    destruct s1 as [| d rest]; simpl in H; [congruence |].
    rewrite digit_of_is_digit in H. destruct (is_digit d) eqn:Hd; [| congruence].
    exists ws, sg, d, rest. rewrite E, Es. repeat split; trivial.
  - intros (ws & sg & d & rest & -> & Hws & Hd).
    rewrite (parseInt_string_signed ws sg d rest Hws Hd). apply to_number_not_NaN.
Qed.

(** The number read from a run of digits is the double nearest to its
    value, with the sign. *)
Lemma parseInt_string_prefix (s : string) (sg : sign) (ds : string) :
  integer_prefix s sg ds ->
  parseInt_string s = to_number (negative_sign sg) (decimal_value ds).
Proof.
  intros (ws & rest & -> & Hws & Hne & Hds & Hrest).
  destruct ds as [| d ds]; [congruence |].
  pose proof Hds as Hd. simpl in Hd. apply andb_true_iff in Hd. destruct Hd as [Hd _].
  cbn [append]. rewrite (parseInt_string_signed ws sg d _ Hws Hd).
  change (String d (ds ++ rest)) with (String d ds ++ rest)%string.
  rewrite (parse_digits_run _ 0 rest Hds Hrest). f_equal.
Qed.

Lemma parseInt_string_lenient (s : string) (z : Z) :
  lenient_integer s z -> parseInt_string s = Num z.
Proof.
  intros (ws & sg & ds & rest & E & Hws & Hne & Hds & Hlen & Hrest & -> & Hz).
  rewrite (parseInt_string_prefix s sg ds)
    by (exists ws, rest; repeat split; assumption).
  pose proof (decimal_value_bound ds Hds) as Hb.
  assert (10 ^ Z.of_nat (String.length ds) <= 10 ^ 15)%Z
    by (apply Z.pow_le_mono_r; lia).
  apply to_number_exact; [lia |].
  intros H0. apply Hz. rewrite H0. lia.
Qed.

(** Beyond [2^53] the number read is a rounded one, and a run long enough
    reads as an infinity; a minus sign before zeros gives negative zero. *)
Lemma parseInt_string_rounds :
  parseInt_string "9007199254740993" = Num 9007199254740992
  /\ parseInt_string "9007199254740995" = Num 9007199254740996
  /\ parseInt_string "-0" = NegZero
  /\ nearest_double (10 ^ 308) <> None
  /\ nearest_double (10 ^ 309) = None.
Proof. repeat split; try reflexivity. vm_compute. discriminate. Qed.

Lemma parseInt_undefined : parseInt None = NaN.
Proof. reflexivity. Qed.

(** ** Reading one line of text *)

Lemma slice_line (line : string) :
  slice_to (List.length (wire_bytes line ++ CRLF) - 2) (wire_bytes line ++ CRLF)
  = wire_bytes line.
Proof.
  unfold slice_to. rewrite length_app. simpl.
  replace (List.length (wire_bytes line) + 2 - 2) with (List.length (wire_bytes line) + 0) by lia.
  rewrite firstn_app_2. simpl. apply app_nil_r.
Qed.

Lemma line_length (line : string) :
  List.length (wire_bytes line ++ CRLF) = String.length line + 2.
Proof. rewrite length_app, wire_bytes_length. reflexivity. Qed.

Lemma next_line_bytes (stream : bytes) (line : string) :
  next_line stream line ->
  firstn (String.length line + 2) stream = wire_bytes line ++ CRLF.
Proof.
  intros [[Hat _] Hl]. rewrite (CRLF_at_firstn _ _ Hat), Hl. reflexivity.
Qed.

Lemma web_reads_line (r : Web.BufferedReader) (line : string) :
  Web.wf r ->
  next_line (Web.unread r) line ->
  exists r',
    Web.readUntilCRLF r = (Returned (wire_bytes line ++ CRLF), r')
    /\ Web.unread r' = skipn (String.length line + 2) (Web.unread r)
    /\ Web.wf r'.
Proof.
  intros Hwf Hn. rewrite <- (next_line_bytes _ _ Hn).
  apply web_readUntilCRLF_present; [exact Hwf | exact (proj1 Hn)].
Qed.

Lemma node_reads_line (r : Node.BufferedReader) (line : string) :
  Node.wf r ->
  next_line (Node.unread r) line ->
  exists r',
    Node.readUntilCRLF r = (Returned (wire_bytes line ++ CRLF), r')
    /\ Node.unread r' = skipn (String.length line + 2) (Node.unread r)
    /\ Node.wf r'.
Proof.
  intros Hwf Hn. rewrite <- (next_line_bytes _ _ Hn).
  apply node_readUntilCRLF_present; [exact Hwf | exact (proj1 Hn)].
Qed.

(** *** The status line *)

Lemma statusLine_of_tokens (decode : bytes -> string) (line tok tail : string) :
  decode (wire_bytes line) = line ->
  line = (GURT_VERSION ++ " " ++ tok ++ tail)%string ->
  occurs " "%char tok = false ->
  first_is (fun c => negb (Ascii.eqb c " "%char)) tail = false ->
  statusLine_of decode (wire_bytes line ++ CRLF)
  = if isNaN (parseInt_string tok) then Threw Invalid_status_code
    else Returned {| status := parseInt_string tok;
                     bytesRead := String.length line + 2 |}.
Proof.
  intros Hdec Hline Htok Htail. unfold statusLine_of.
  rewrite slice_line, Hdec, line_length. cbv zeta.
  assert (Hs : exists more, split " "%char line = GURT_VERSION :: tok :: more).
  { rewrite Hline.
    change (GURT_VERSION ++ " " ++ tok ++ tail)%string
      with (GURT_VERSION ++ String " "%char (tok ++ tail))%string.
    rewrite split_at_first by reflexivity.
    destruct tail as [| c t].
    - rewrite str_app_nil_r, split_without by exact Htok. exists []. reflexivity.
    - simpl in Htail. apply negb_false_iff, Ascii.eqb_eq in Htail. subst c.
      rewrite split_at_first by exact Htok. eexists. reflexivity. }
  destruct Hs as [more ->]. cbn [nth_error].
  rewrite String.eqb_refl. cbn [negb]. reflexivity.
Qed.

Lemma statusLine_of_version_only (decode : bytes -> string) :
  decode (wire_bytes GURT_VERSION) = GURT_VERSION ->
  statusLine_of decode (wire_bytes GURT_VERSION ++ CRLF) = Threw Invalid_status_code.
Proof.
  intros Hdec. unfold statusLine_of. rewrite slice_line, Hdec. reflexivity.
Qed.

(** *** A header line *)

Lemma header_of_end (decode : bytes -> string) :
  header_of decode CRLF = Returned None.
Proof. reflexivity. Qed.

Lemma header_of_colon (decode : bytes -> string) (line pre post : string) :
  decode (wire_bytes line) = line ->
  line = (pre ++ String ":"%char post)%string ->
  occurs ":"%char pre = false ->
  header_of decode (wire_bytes line ++ CRLF)
  = Returned (Some {| name := toLowerCase (trim pre);
                      value := trim post;
                      totalBytes := String.length line + 2 |}).
Proof.
  intros Hdec Hline Hpre. unfold header_of.
  rewrite slice_line, Hdec, line_length.
  replace (String.length line + 2 =? 2) with false
    by (symmetry; apply Nat.eqb_neq; rewrite Hline, str_length_app; simpl; lia).
  cbv zeta. unfold indexOf. rewrite Hline.
  rewrite indexOf_from_first by exact Hpre.
  replace (0 + Z.of_nat (String.length pre) <? 0)%Z with false
    by (symmetry; apply Z.ltb_ge; lia).
  replace (Z.to_nat (0 + Z.of_nat (String.length pre))) with (String.length pre) by lia.
  replace (Z.to_nat (0 + Z.of_nat (String.length pre) + 1))
    with (String.length (pre ++ ":")) by (rewrite str_length_app; simpl; lia).
  rewrite str_slice_to_app.
  change (pre ++ String ":"%char post)%string with (pre ++ (":" ++ post))%string.
  rewrite <- str_app_assoc, str_slice_from_app. reflexivity.
Qed.

Lemma header_of_no_colon (decode : bytes -> string) (line : string) :
  decode (wire_bytes line) = line ->
  line <> EmptyString ->
  occurs ":"%char line = false ->
  header_of decode (wire_bytes line ++ CRLF) = Threw Invalid_header.
Proof.
  intros Hdec Hne Hno. unfold header_of.
  rewrite slice_line, Hdec, line_length.
  replace (String.length line + 2 =? 2) with false
    by (symmetry; apply Nat.eqb_neq; destruct line; [congruence | simpl; lia]).
  cbv zeta. unfold indexOf. rewrite indexOf_from_without by exact Hno. reflexivity.
Qed.

(** ** A fresh reader *)

Lemma web_new_wf (chunks : list bytes) : Web.wf (Web.new_BufferedReader chunks).
Proof. intros H. discriminate H. Qed.

Lemma web_new_unread (chunks : list bytes) :
  Web.unread (Web.new_BufferedReader chunks) = List.concat chunks.
Proof. reflexivity. Qed.

Lemma node_new_wf (chunks : list bytes) : Node.wf (Node.new_BufferedReader chunks).
Proof. intros H. discriminate H. Qed.

Lemma node_new_unread (chunks : list bytes) :
  Node.unread (Node.new_BufferedReader chunks) = List.concat chunks.
Proof. reflexivity. Qed.

Lemma no_error_is_LineTooLong (e : Error) : kind_of e <> LineTooLong.
Proof. destruct e; discriminate. Qed.

(** ** The line-length bound *)

(** A single chunk of any length without a delimiter is buffered whole. *)
Lemma no_CRLF_repeat (x : byte) (n : nat) : x <> x0d -> no_CRLF (repeat x n).
Proof.
  intros Hx k [H _]. apply nth_error_In, repeat_spec in H. congruence.
Qed.

Lemma readUntilCRLF_one_long_chunk (n : nat) :
  Web.readUntilCRLF (Web.new_BufferedReader [repeat x41 n])
  = (Threw Unexpected_EOF,
     {| Web.reader := []; Web.buf := repeat x41 n ++ []; Web.done := true |}).
Proof.
  apply (web_readUntilCRLF_absent (Web.new_BufferedReader [repeat x41 n])
           (web_new_wf _)).
  rewrite web_new_unread. cbn [List.concat]. rewrite app_nil_r.
  apply no_CRLF_repeat. discriminate.
Qed.

(** C1, as stated, fails.  Take 4 as the maximum line length, within
    [MAX_MESSAGE_SIZE], and a stream of two chunks, "hello" then "world",
    with no delimiter.  The first chunk alone is past the maximum, yet both
    readers go on to buffer the second; the web reader then fails with
    'Unexpected EOF', which is not [LineTooLong], and the Node reader
    never answers.  The same at the largest maximum there can be: a chunk
    of [MAX_MESSAGE_SIZE] + 1 bytes "A" is buffered whole, and the failure
    is 'Unexpected EOF'. *)
Lemma readUntilCRLF_buffers_past_maximum :
  (Z.of_nat 4 <= MAX_MESSAGE_SIZE)%Z
  /\ indexOfCRLF (wire_bytes "hello" ++ wire_bytes "world") = (-1)%Z
  /\ 4 < List.length (wire_bytes "hello")
  /\ Web.readUntilCRLF (Web.new_BufferedReader [wire_bytes "hello"; wire_bytes "world"])
     = (Threw Unexpected_EOF,
        {| Web.reader := []; Web.buf := wire_bytes "helloworld"; Web.done := true |})
  /\ kind_of Unexpected_EOF <> LineTooLong
  /\ Node.readUntilCRLF (Node.new_BufferedReader [wire_bytes "hello"; wire_bytes "world"])
     = (Pending,
        {| Node.incoming := []; Node.readableEnded := true;
           Node.buf := wire_bytes "helloworld" |})
  /\ (MAX_MESSAGE_SIZE
      < Z.of_nat (List.length (repeat x41 (S (Z.to_nat MAX_MESSAGE_SIZE)))))%Z
  /\ Web.readUntilCRLF
       (Web.new_BufferedReader [repeat x41 (S (Z.to_nat MAX_MESSAGE_SIZE))])
     = (Threw Unexpected_EOF,
        {| Web.reader := [];
           Web.buf := repeat x41 (S (Z.to_nat MAX_MESSAGE_SIZE)) ++ [];
           Web.done := true |}).
Proof.
  split; [unfold MAX_MESSAGE_SIZE; lia |].
  split; [reflexivity |].
  split; [simpl; lia |].
  split; [reflexivity |].
  split; [discriminate |].
  split; [reflexivity |].
  split; [| apply readUntilCRLF_one_long_chunk].
  rewrite repeat_length, Nat2Z.inj_succ, Z2Nat.id; [lia | unfold MAX_MESSAGE_SIZE; lia].
Qed.

(** C1, amended: [readUntilCRLF] enforces no maximum line length and no
    error it can throw is [LineTooLong].  On a stream without a delimiter,
    however long, both readers buffer every byte the transport delivers;
    the web reader then fails with 'Unexpected EOF', and the Node reader
    can fail in no other way. *)
Theorem readUntilCRLF_has_no_length_bound :
  forall chunks : list bytes,
    no_CRLF (List.concat chunks) ->
    Web.readUntilCRLF (Web.new_BufferedReader chunks)
    = (Threw Unexpected_EOF,
       {| Web.reader := []; Web.buf := List.concat chunks; Web.done := true |})
    /\ snd (Node.readUntilCRLF (Node.new_BufferedReader chunks))
       = {| Node.incoming := []; Node.readableEnded := true;
            Node.buf := List.concat chunks |}
    /\ (forall e, fst (Node.readUntilCRLF (Node.new_BufferedReader chunks)) = Threw e ->
                  e = Unexpected_EOF)
    /\ (forall e : Error, kind_of e <> LineTooLong).
Proof.
  intros chunks Hno. split; [| split; [| split]].
  - apply (web_readUntilCRLF_absent (Web.new_BufferedReader chunks)
             (web_new_wf chunks) Hno).
  - rewrite (node_readUntilCRLF_absent (Node.new_BufferedReader chunks)
               (node_new_wf chunks) Hno). reflexivity.
  - intros e. rewrite (node_readUntilCRLF_absent (Node.new_BufferedReader chunks)
                         (node_new_wf chunks) Hno).
    cbn [fst]. destruct (Node.unread _); intros H; [injection H as <-; reflexivity | discriminate].
  - exact no_error_is_LineTooLong.
Qed.

Lemma readUntilCRLF_has_no_length_bound_witness :
  no_CRLF (List.concat [wire_bytes "hello"; wire_bytes "world"])
  /\ Web.readUntilCRLF (Web.new_BufferedReader [wire_bytes "hello"; wire_bytes "world"])
     = (Threw Unexpected_EOF,
        {| Web.reader := [];
           Web.buf := List.concat [wire_bytes "hello"; wire_bytes "world"];
           Web.done := true |}).
Proof.
  assert (H : no_CRLF (List.concat [wire_bytes "hello"; wire_bytes "world"])).
  { apply indexOfCRLF_absent. reflexivity. }
  split; [exact H |].
  exact (proj1 (readUntilCRLF_has_no_length_bound
                  [wire_bytes "hello"; wire_bytes "world"] H)).
Defined.

(** ** End of stream without a delimiter *)

(** C2 fails in the Node port.  The socket emits "abc", then ['end'].
    [readUntilCRLF] never answers: its wait asks for an empty buffer at the
    end of the stream, and the buffer holds three bytes.  The web port, on
    the same stream, fails with 'Unexpected EOF'. *)
Theorem node_readUntilCRLF_never_answers :
  Node.readUntilCRLF (Node.new_BufferedReader [wire_bytes "abc"])
  = (Pending,
     {| Node.incoming := []; Node.readableEnded := true; Node.buf := wire_bytes "abc" |})
  /\ Web.readUntilCRLF (Web.new_BufferedReader [wire_bytes "abc"])
     = (Threw Unexpected_EOF,
        {| Web.reader := []; Web.buf := wire_bytes "abc"; Web.done := true |}).
Proof. split; reflexivity. Qed.

(** ** Exact reads *)

(** C3 fails in the Node port.  The socket emits "abc", then ['end'].
    [readExact(5)] never answers, for the same reason as [readUntilCRLF];
    the web port fails with 'Unexpected EOF'.  With enough bytes the Node
    port does return the first [n] and keeps the rest. *)
Theorem node_readExact_never_answers :
  Node.readExact 5 (Node.new_BufferedReader [wire_bytes "abc"])
  = (Pending,
     {| Node.incoming := []; Node.readableEnded := true; Node.buf := wire_bytes "abc" |})
  /\ Web.readExact 5 (Web.new_BufferedReader [wire_bytes "abc"])
     = (Threw Unexpected_EOF,
        {| Web.reader := []; Web.buf := wire_bytes "abc"; Web.done := true |})
  /\ Node.readExact 2 (Node.new_BufferedReader [wire_bytes "abc"])
     = (Returned (wire_bytes "ab"),
        {| Node.incoming := []; Node.readableEnded := false; Node.buf := wire_bytes "c" |}).
Proof. repeat split; reflexivity. Qed.

(** ** Chunking *)

(** C4: whatever way a byte sequence with a delimiter is cut into chunks,
    [readUntilCRLF] returns the bytes up to and including the first
    delimiter, and leaves unread exactly what follows it; in both ports. *)
Theorem readUntilCRLF_chunking_invariant :
  forall (stream : bytes) (k : nat) (chunks1 chunks2 : list bytes),
    first_CRLF_at stream k ->
    List.concat chunks1 = stream ->
    List.concat chunks2 = stream ->
    firstn (k + 2) stream = firstn k stream ++ CRLF
    /\ (exists r1 r2,
          Web.readUntilCRLF (Web.new_BufferedReader chunks1)
          = (Returned (firstn (k + 2) stream), r1)
          /\ Web.readUntilCRLF (Web.new_BufferedReader chunks2)
             = (Returned (firstn (k + 2) stream), r2)
          /\ Web.unread r1 = skipn (k + 2) stream
          /\ Web.unread r2 = skipn (k + 2) stream)
    /\ (exists r1 r2,
          Node.readUntilCRLF (Node.new_BufferedReader chunks1)
          = (Returned (firstn (k + 2) stream), r1)
          /\ Node.readUntilCRLF (Node.new_BufferedReader chunks2)
             = (Returned (firstn (k + 2) stream), r2)
          /\ Node.unread r1 = skipn (k + 2) stream
          /\ Node.unread r2 = skipn (k + 2) stream).
Proof.
  intros stream k chunks1 chunks2 Hk E1 E2. split; [| split].
  - apply CRLF_at_firstn. exact (proj1 Hk).
  - destruct (web_readUntilCRLF_present (Web.new_BufferedReader chunks1) k
                (web_new_wf _)) as (r1 & R1 & U1 & _).
    { rewrite web_new_unread, E1. exact Hk. }
    destruct (web_readUntilCRLF_present (Web.new_BufferedReader chunks2) k
                (web_new_wf _)) as (r2 & R2 & U2 & _).
    { rewrite web_new_unread, E2. exact Hk. }
    rewrite web_new_unread in *. rewrite E1 in R1, U1. rewrite E2 in R2, U2.
    exists r1, r2. auto.
  - destruct (node_readUntilCRLF_present (Node.new_BufferedReader chunks1) k
                (node_new_wf _)) as (r1 & R1 & U1 & _).
    { rewrite node_new_unread, E1. exact Hk. }
    destruct (node_readUntilCRLF_present (Node.new_BufferedReader chunks2) k
                (node_new_wf _)) as (r2 & R2 & U2 & _).
    { rewrite node_new_unread, E2. exact Hk. }
    rewrite node_new_unread in *. rewrite E1 in R1, U1. rewrite E2 in R2, U2.
    exists r1, r2. auto.
Qed.

(** The sequence "ab\r\ncd", cut once inside the delimiter and once
    elsewhere. *)
Lemma readUntilCRLF_chunking_invariant_witness :
  first_CRLF_at (wire_bytes "ab" ++ CRLF ++ wire_bytes "cd") 2
  /\ exists r1 r2,
       Web.readUntilCRLF
         (Web.new_BufferedReader [wire_bytes "ab" ++ [x0d]; x0a :: wire_bytes "cd"])
       = (Returned (firstn (2 + 2) (wire_bytes "ab" ++ CRLF ++ wire_bytes "cd")), r1)
       /\ Web.readUntilCRLF
            (Web.new_BufferedReader [wire_bytes "a"; wire_bytes "b" ++ CRLF ++ wire_bytes "c";
                                     wire_bytes "d"])
          = (Returned (firstn (2 + 2) (wire_bytes "ab" ++ CRLF ++ wire_bytes "cd")), r2)
       /\ Web.unread r1 = skipn (2 + 2) (wire_bytes "ab" ++ CRLF ++ wire_bytes "cd")
       /\ Web.unread r2 = skipn (2 + 2) (wire_bytes "ab" ++ CRLF ++ wire_bytes "cd").
Proof.
  assert (H : first_CRLF_at (wire_bytes "ab" ++ CRLF ++ wire_bytes "cd") 2).
  { apply indexOfCRLF_found. reflexivity. }
  split; [exact H |].
  exact (proj1 (proj2 (readUntilCRLF_chunking_invariant
                         (wire_bytes "ab" ++ CRLF ++ wire_bytes "cd") 2
                         [wire_bytes "ab" ++ [x0d]; x0a :: wire_bytes "cd"]
                         [wire_bytes "a"; wire_bytes "b" ++ CRLF ++ wire_bytes "c";
                          wire_bytes "d"]
                         H eq_refl eq_refl))).
Defined.

(** ** No byte lost, duplicated or reordered *)

(** C10: after any sequence of calls that all returned, on a reader bound
    to one transport, the bytes returned, in call order, followed by the
    bytes still buffered, are exactly the chunks delivered so far, in
    order; the chunks not yet delivered are untouched.  In the Node port
    events may also arrive between calls. *)
Theorem returned_bytes_are_a_prefix :
  (forall (chunks : list bytes) (cs : list call) (outs : list bytes)
          (r' : Web.BufferedReader),
      Web.perform_all cs (Web.new_BufferedReader chunks) = (Some outs, r') ->
      exists delivered,
        chunks = delivered ++ Web.reader r'
        /\ List.concat delivered = List.concat outs ++ Web.buf r')
  /\ (forall (chunks : list bytes) (ss : list Node.step) (outs : list bytes)
             (r' : Node.BufferedReader),
         Node.perform_all ss (Node.new_BufferedReader chunks) = (Some outs, r') ->
         exists delivered,
           chunks = delivered ++ Node.incoming r'
           /\ List.concat delivered = List.concat outs ++ Node.buf r').
Proof.
  split.
  - intros chunks cs outs r' E.
    destruct (web_perform_all_conserves cs _ _ _ (web_new_wf chunks) E)
      as (_ & d & Hd & Hb).
    exists d. split; [exact Hd | symmetry; exact Hb].
  - intros chunks ss outs r' E.
    destruct (node_perform_all_conserves ss _ _ _ (node_new_wf chunks) E)
      as (_ & d & Hd & Hb).
    exists d. split; [exact Hd | symmetry; exact Hb].
Qed.

Lemma returned_bytes_are_a_prefix_witness :
  Web.perform_all [ReadUntilCRLF; ReadExact 2; ReadAvailable 8]
    (Web.new_BufferedReader [wire_bytes "ab" ++ [x0d]; x0a :: wire_bytes "cde";
                             wire_bytes "fgh"; wire_bytes "ijk"])
  = (Some [wire_bytes "ab" ++ CRLF; wire_bytes "cd"; wire_bytes "e"],
     {| Web.reader := [wire_bytes "fgh"; wire_bytes "ijk"]; Web.buf := [];
        Web.done := false |})
  /\ exists delivered,
       [wire_bytes "ab" ++ [x0d]; x0a :: wire_bytes "cde"; wire_bytes "fgh"; wire_bytes "ijk"]
       = delivered ++ [wire_bytes "fgh"; wire_bytes "ijk"]
       /\ List.concat delivered
          = List.concat [wire_bytes "ab" ++ CRLF; wire_bytes "cd"; wire_bytes "e"] ++ [].
Proof.
  split; [reflexivity |].
  exact (proj1 returned_bytes_are_a_prefix
           [wire_bytes "ab" ++ [x0d]; x0a :: wire_bytes "cde"; wire_bytes "fgh"; wire_bytes "ijk"]
           [ReadUntilCRLF; ReadExact 2; ReadAvailable 8]
           [wire_bytes "ab" ++ CRLF; wire_bytes "cd"; wire_bytes "e"]
           {| Web.reader := [wire_bytes "fgh"; wire_bytes "ijk"]; Web.buf := [];
              Web.done := false |}
           eq_refl).
Defined.

(** ** Partial reads *)

Lemma firstn_nil_inv (n : nat) (b : bytes) :
  firstn (Nat.min n (List.length b)) b = [] -> n = 0 \/ b = [].
Proof.
  destruct n; [left; reflexivity |].
  destruct b; [right; reflexivity |]. simpl. discriminate.
Qed.



Lemma node_readAvailable_returns (n : nat) (r : Node.BufferedReader) :
  Node.wf r ->
  exists out r',
    Node.readAvailable n r = (Returned out, r')
    /\ (out = [] -> n = 0 \/ Node.readableEnded r' = true).
Proof.
  intros Hwf. unfold Node.readAvailable.
  assert (H1 : exists r1,
             (if List.length (Node.buf r) =? 0
              then Node.waitFor (Node.turns r)
                     (fun r => (0 <? List.length (Node.buf r)) || Node.readableEnded r) r
              else (true, r)) = (true, r1)
             /\ (Node.buf r1 = [] -> Node.readableEnded r1 = true)).
  { destruct (List.length (Node.buf r) =? 0) eqn:E0.
    - destruct (node_wait (fun b => 0 <? List.length b) (fun _ => true)
                  nonempty_stays_true r Hwf)
        as (flag & r1 & E1 & Hu & Hwf1 & Hd & Hc).
      cbn [andb] in E1. rewrite E1.
      destruct (0 <? List.length (Node.unread r)).
      + destruct Hc as [-> Hq]. exists r1. split; [reflexivity |].
        intros Hb. rewrite Hb in Hq. discriminate Hq.
      + destruct Hc as [-> ->]. eexists. split; [reflexivity |]. reflexivity.
    - exists r. split; [reflexivity |]. intros Hb. rewrite Hb in E0. discriminate E0. }
  destruct H1 as (r1 & -> & Hend). cbn [negb]. cbv zeta.
  do 2 eexists. split; [reflexivity |].
  unfold slice_to. intros H. apply firstn_nil_inv in H.
  destruct H as [H | H]; [left; exact H | right].
  cbn. apply Hend, H.
Qed.


(** The web port, which pulls one chunk and does not look at its length,
    returns zero bytes on an empty chunk although the stream has not
    ended; the Node port, whose [push] leaves an empty chunk out, waits
    for the next one. *)
Lemma web_readBody_zero_on_an_empty_chunk :
  Web.readBody (repeat x00 10) (Web.new_BufferedReader [[]; wire_bytes "abc"])
  = (Returned (0, repeat x00 10),
     {| Web.reader := [wire_bytes "abc"]; Web.buf := []; Web.done := false |})
  /\ Node.readBody (repeat x00 10) (Node.new_BufferedReader [[]; wire_bytes "abc"])
     = (Returned (3, wire_bytes "abc" ++ repeat x00 7),
        {| Node.incoming := []; Node.readableEnded := false; Node.buf := [] |}).
Proof. split; reflexivity. Qed.







(** ** The status code *)

(** C5, as stated, fails: "-5" and "200abc" are not rejected.  In both
    ports the line "GURT/1.0.0 -5 X" yields the status -5 and the line
    "GURT/1.0.0 200abc OK" yields the status 200. *)
Lemma readStatusLine_accepts_sign_and_trailing_text :
  fst (Node.readStatusLine
         (Node.new_BufferedReader [wire_bytes "GURT/1.0.0 -5 X" ++ CRLF]))
  = Returned {| status := Num (-5); bytesRead := 17 |}
  /\ fst (Node.readStatusLine
            (Node.new_BufferedReader [wire_bytes "GURT/1.0.0 200abc OK" ++ CRLF]))
     = Returned {| status := Num 200; bytesRead := 22 |}
  /\ fst (Web.readStatusLine string_of_list_byte
            (Web.new_BufferedReader [wire_bytes "GURT/1.0.0 -5 X" ++ CRLF]))
     = Returned {| status := Num (-5); bytesRead := 17 |}
  /\ fst (Web.readStatusLine string_of_list_byte
            (Web.new_BufferedReader [wire_bytes "GURT/1.0.0 200abc OK" ++ CRLF]))
     = Returned {| status := Num 200; bytesRead := 22 |}.
Proof. repeat split; reflexivity. Qed.

Lemma status_of_number (x : number) (len : nat) :
  x <> NaN ->
  (if isNaN x then Threw Invalid_status_code
   else Returned {| status := x; bytesRead := len |})
  = Returned {| status := x; bytesRead := len |}.
Proof. destruct x; [congruence | reflexivity | reflexivity | reflexivity]. Qed.

(** C5, amended: for a status line of the wire format whose first token is
    the protocol identifier, [readStatusLine] fails with 'Invalid status
    code' exactly when the second token does not begin, after white space
    and at most one sign, with a decimal digit; otherwise it returns the
    number [parseInt] reads, which is not [NaN].  For a leading run of
    at most 20 digits that number is the double nearest to the value of
    the run, with the sign, whatever follows the run; and for a run of at
    most 15 digits it is the signed value of the run itself (a minus sign
    before zeros apart, which gives negative zero).  Both ports agree. *)
Theorem readStatusLine_reads_leading_integer :
  forall (decode : bytes -> string)
         (rw : Web.BufferedReader) (rn : Node.BufferedReader)
         (line tok tail : string),
    (forall s, ascii_string s = true -> decode (wire_bytes s) = s) ->
    Web.wf rw ->
    Node.wf rn ->
    next_line (Web.unread rw) line ->
    next_line (Node.unread rn) line ->
    ascii_string line = true ->
    line = (GURT_VERSION ++ " " ++ tok ++ tail)%string ->
    occurs " "%char tok = false ->
    (tail = EmptyString \/ exists t, tail = String " "%char t) ->
    exists res,
      fst (Web.readStatusLine decode rw) = res
      /\ fst (Node.readStatusLine rn) = res
      /\ (res = Threw Invalid_status_code <-> ~ numeric_prefix tok)
      /\ (numeric_prefix tok ->
          exists x,
            x <> NaN
            /\ res = Returned {| status := x; bytesRead := String.length line + 2 |})
      /\ (forall sg ds,
             integer_prefix tok sg ds ->
             String.length ds <= 20 ->
             res = Returned {| status := to_number (negative_sign sg) (decimal_value ds);
                               bytesRead := String.length line + 2 |})
      /\ (forall z, lenient_integer tok z ->
                    res = Returned {| status := Num z; bytesRead := String.length line + 2 |}).
Proof.
  intros decode rw rn line tok tail Hdec Hwfw Hwfn Hlw Hln Hascii Hline Htok Htail.
  assert (Htail' : first_is (fun c => negb (Ascii.eqb c " "%char)) tail = false).
  { destruct Htail as [-> | [t ->]]; reflexivity. }
  destruct (web_reads_line rw line Hwfw Hlw) as (rw' & Ew & _).
  destruct (node_reads_line rn line Hwfn Hln) as (rn' & En & _).
  unfold Web.readStatusLine, Node.readStatusLine. rewrite Ew, En. cbn [fst].
  rewrite (statusLine_of_tokens decode line tok tail (Hdec line Hascii) Hline Htok Htail').
  rewrite (statusLine_of_tokens Node.toString_ascii line tok tail
             (node_toString_ascii_wire line Hascii) Hline Htok Htail').
  eexists. split; [reflexivity | split; [reflexivity |]].
  pose proof (parseInt_string_numeric tok) as Hnum.
  split; [| split; [| split]].
  - destruct (parseInt_string tok) as [| z | | b]; cbn [isNaN].
    + split; [| reflexivity]. intros _ Hp. apply Hnum in Hp. congruence.
    + split; [discriminate |]. intros Hn. exfalso. apply Hn, Hnum. discriminate.
    + split; [discriminate |]. intros Hn. exfalso. apply Hn, Hnum. discriminate.
    + split; [discriminate |]. intros Hn. exfalso. apply Hn, Hnum. discriminate.
  - intros Hp. apply Hnum in Hp. exists (parseInt_string tok).
    split; [exact Hp | apply status_of_number, Hp].
  - intros sg ds Hpre _. rewrite (parseInt_string_prefix tok sg ds Hpre).
    apply status_of_number, to_number_not_NaN.
  - intros z Hz. rewrite (parseInt_string_lenient tok z Hz). reflexivity.
Qed.

Lemma readStatusLine_reads_leading_integer_witness :
  lenient_integer "-5" (-5)
  /\ exists res,
       fst (Web.readStatusLine string_of_list_byte
              (Web.new_BufferedReader [wire_bytes "GURT/1.0.0 -5 X" ++ CRLF])) = res
       /\ fst (Node.readStatusLine
                 (Node.new_BufferedReader [wire_bytes "GURT/1.0.0 -5"; wire_bytes " X" ++ CRLF]))
          = res
       /\ (res = Threw Invalid_status_code <-> ~ numeric_prefix "-5")
       /\ (numeric_prefix "-5" ->
           exists x,
             x <> NaN
             /\ res = Returned {| status := x;
                                  bytesRead := String.length "GURT/1.0.0 -5 X" + 2 |})
       /\ (forall sg ds,
              integer_prefix "-5" sg ds ->
              String.length ds <= 20 ->
              res = Returned {| status := to_number (negative_sign sg) (decimal_value ds);
                                bytesRead := String.length "GURT/1.0.0 -5 X" + 2 |})
       /\ (forall z, lenient_integer "-5" z ->
                     res = Returned {| status := Num z;
                                       bytesRead := String.length "GURT/1.0.0 -5 X" + 2 |}).
Proof.
  split.
  - exists EmptyString, MinusSign, "5"%string, EmptyString.
    repeat split; [discriminate | simpl; lia | discriminate].
  - apply (readStatusLine_reads_leading_integer string_of_list_byte
             (Web.new_BufferedReader [wire_bytes "GURT/1.0.0 -5 X" ++ CRLF])
             (Node.new_BufferedReader [wire_bytes "GURT/1.0.0 -5"; wire_bytes " X" ++ CRLF])
             "GURT/1.0.0 -5 X" "-5" " X").
    + intros s _. apply string_of_list_byte_of_string.
    + intros H. discriminate H.
    + intros H. discriminate H.
    + split; [apply indexOfCRLF_found |]; reflexivity.
    + split; [apply indexOfCRLF_found |]; reflexivity.
    + reflexivity.
    + reflexivity.
    + reflexivity.
    + right. exists "X"%string. reflexivity.
Defined.

(** ** Headers *)

Lemma first_occurrence (c : ascii) (s : string) :
  occurs c s = true ->
  exists pre post, s = (pre ++ String c post)%string /\ occurs c pre = false.
Proof.
  induction s as [| x s IH]; simpl; intros H; [discriminate |].
  destruct (Ascii.eqb x c) eqn:E.
  - apply Ascii.eqb_eq in E. subst x. exists EmptyString, s. split; reflexivity.
  - destruct (IH H) as (pre & post & -> & Hpre).
    exists (String x pre), post. simpl. rewrite E, Hpre. split; reflexivity.
Qed.

(** C6: the Node port does not do what the claim says of every header
    line.  [toString('ascii')] clears the top bit of each byte, so the
    byte 0xBA is read as a colon: the line with the bytes 61 BA 62, which
    has no colon, is not refused with 'Invalid header' but returned as
    the header "a" with the value "b"; and the line 61 BA 62 3A 63 is
    split at the byte 0xBA, before its first colon. *)
Theorem node_readHeader_takes_a_high_byte_for_a_colon :
  fst (Node.readHeader (Node.new_BufferedReader [[x61; xba; x62] ++ CRLF]))
  = Returned (Some {| name := "a"; value := "b"; totalBytes := 5 |})
  /\ fst (Node.readHeader (Node.new_BufferedReader [[x61; xba; x62; x3a; x63] ++ CRLF]))
     = Returned (Some {| name := "a"; value := "b:c"; totalBytes := 7 |})
  /\ indexOf ":"%char (Node.toString_ascii [x61; xba; x62]) = 1%Z.
Proof. repeat split. Qed.

(** X22: for a header line of the ASCII wire format, [readHeader]
    returns, when the line has a colon, what precedes the first colon,
    trimmed and in lower case, as the name, and all that follows it,
    trimmed, as the value; it fails with 'Invalid header' when the line
    is not empty and has no colon; and it returns [null] for the empty
    line.  Both ports agree. *)
Theorem readHeader_splits_at_first_colon :
  forall (decode : bytes -> string)
         (rw : Web.BufferedReader) (rn : Node.BufferedReader) (line : string),
    (forall s, ascii_string s = true -> decode (wire_bytes s) = s) ->
    Web.wf rw ->
    Node.wf rn ->
    next_line (Web.unread rw) line ->
    next_line (Node.unread rn) line ->
    ascii_string line = true ->
    exists res,
      fst (Web.readHeader decode rw) = res
      /\ fst (Node.readHeader rn) = res
      /\ (occurs ":"%char line = true ->
          exists pre post,
            line = (pre ++ String ":"%char post)%string
            /\ occurs ":"%char pre = false
            /\ res = Returned (Some {| name := toLowerCase (trim pre);
                                       value := trim post;
                                       totalBytes := String.length line + 2 |}))
      /\ (forall pre post,
            line = (pre ++ String ":"%char post)%string ->
            occurs ":"%char pre = false ->
            res = Returned (Some {| name := toLowerCase (trim pre);
                                    value := trim post;
                                    totalBytes := String.length line + 2 |}))
      /\ (occurs ":"%char line = false -> line <> EmptyString ->
          res = Threw Invalid_header)
      /\ (line = EmptyString -> res = Returned None).
Proof.
  intros decode rw rn line Hdec Hwfw Hwfn Hlw Hln Hascii.
  destruct (web_reads_line rw line Hwfw Hlw) as (rw' & Ew & _).
  destruct (node_reads_line rn line Hwfn Hln) as (rn' & En & _).
  unfold Web.readHeader, Node.readHeader. rewrite Ew, En. cbn [fst].
  pose proof (Hdec line Hascii) as Hd.
  pose proof (node_toString_ascii_wire line Hascii) as Hn.
  assert (Hagree : header_of decode (wire_bytes line ++ CRLF)
                   = header_of Node.toString_ascii (wire_bytes line ++ CRLF)).
  { unfold header_of. rewrite slice_line, Hd, Hn. reflexivity. }
  exists (header_of decode (wire_bytes line ++ CRLF)).
  split; [reflexivity | split; [symmetry; exact Hagree |]].
  assert (Hall : forall pre post,
             line = (pre ++ String ":"%char post)%string ->
             occurs ":"%char pre = false ->
             header_of decode (wire_bytes line ++ CRLF)
             = Returned (Some {| name := toLowerCase (trim pre);
                                 value := trim post;
                                 totalBytes := String.length line + 2 |})).
  { intros pre post Hl Hp. apply (header_of_colon decode line pre post Hd Hl Hp). }
  split; [| split; [exact Hall | split]].
  - intros Hc. destruct (first_occurrence ":"%char line Hc) as (pre & post & Hl & Hp).
    exists pre, post. split; [exact Hl | split; [exact Hp | exact (Hall pre post Hl Hp)]].
  - intros Hno Hne. apply (header_of_no_colon decode line Hd Hne Hno).
  - intros ->. reflexivity.
Qed.

(** The header of the protocol description, in mixed case and padded. *)
Lemma readHeader_splits_at_first_colon_witness :
  fst (Web.readHeader string_of_list_byte
         (Web.new_BufferedReader
            [wire_bytes "Content-Type: text/plain; charset=utf-8 " ++ CRLF]))
  = Returned (Some {| name := "content-type";
                      value := "text/plain; charset=utf-8";
                      totalBytes := 42 |})
  /\ exists res,
       fst (Web.readHeader string_of_list_byte
              (Web.new_BufferedReader
                 [wire_bytes "Content-Type: text/plain; charset=utf-8 " ++ CRLF])) = res
       /\ fst (Node.readHeader
                 (Node.new_BufferedReader
                    [wire_bytes "Content-Type: text/pl"; wire_bytes "ain; charset=utf-8 " ++ [x0d];
                     [x0a]])) = res
       /\ (forall pre post,
             "Content-Type: text/plain; charset=utf-8 "%string
             = (pre ++ String ":"%char post)%string ->
             occurs ":"%char pre = false ->
             res = Returned (Some {| name := toLowerCase (trim pre);
                                     value := trim post;
                                     totalBytes :=
                                       String.length "Content-Type: text/plain; charset=utf-8 " + 2 |})).
Proof.
  split; [reflexivity |].
  assert (Hw : next_line
                 (Web.unread
                    (Web.new_BufferedReader
                       [wire_bytes "Content-Type: text/plain; charset=utf-8 " ++ CRLF]))
                 "Content-Type: text/plain; charset=utf-8 ").
  { split; [apply indexOfCRLF_found |]; reflexivity. }
  assert (Hn : next_line
                 (Node.unread
                    (Node.new_BufferedReader
                       [wire_bytes "Content-Type: text/pl";
                        wire_bytes "ain; charset=utf-8 " ++ [x0d]; [x0a]]))
                 "Content-Type: text/plain; charset=utf-8 ").
  { split; [apply indexOfCRLF_found |]; reflexivity. }
  destruct (readHeader_splits_at_first_colon string_of_list_byte _ _ _
              (fun s _ => string_of_list_byte_of_string s)
              (web_new_wf _) (node_new_wf _) Hw Hn eq_refl)
    as (res & Ew & En & _ & Hall & _).
  exists res. split; [exact Ew | split; [exact En | exact Hall]].
Defined.

(** ** Request frames *)

Lemma method_string_ascii (m : Method) : ascii_string (method_string m) = true.
Proof. destruct m; reflexivity. Qed.

Lemma web_requestNoBody_chunks (encode : string -> bytes) (method : Method)
      (path host : string) (userAgent : option string) (c : Web.GurtClient) :
  Web.writer (Web.client_writer (Web.requestNoBody encode method path host userAgent c))
  = Web.writer (Web.client_writer c)
    ++ [encode (method_string method ++ " " ++ path ++ " " ++ GURT_VERSION ++ crlf)%string;
        encode ("host: " ++ host ++ crlf)%string;
        encode ("user-agent: "
                ++ match userAgent with Some u => u | None => "yo-gurt/0.1" end
                ++ crlf)%string;
        encode crlf].
Proof.
  unfold Web.requestNoBody, Web.writeAll, Web.write. cbn [Web.client_writer Web.writer].
  rewrite <- !app_assoc. reflexivity.
Qed.

Lemma node_requestNoBody_chunks (encode : string -> bytes) (method : Method)
      (path host : string) (userAgent : option string) (c : Node.GurtClient) :
  Node.socket (Node.requestNoBody encode method path host userAgent c)
  = Node.socket c
    ++ [encode (method_string method ++ " " ++ path ++ " " ++ GURT_VERSION ++ crlf)%string;
        encode ("host: " ++ host ++ crlf)%string;
        encode ("user-agent: "
                ++ match userAgent with Some u => u | None => "yo-gurt/0.1" end
                ++ crlf)%string;
        encode crlf].
Proof.
  unfold Node.requestNoBody, Node.writeAll. cbn [Node.socket].
  rewrite <- !app_assoc. reflexivity.
Qed.

(** The four chunks of a request in the wire format are the bytes of one
    text. *)
Lemma frame_bytes (encode : string -> bytes) (m path host ua : string) :
  (forall s, ascii_string s = true -> encode s = wire_bytes s) ->
  ascii_string m = true -> ascii_string path = true ->
  ascii_string host = true -> ascii_string ua = true ->
  List.concat
    [encode (m ++ " " ++ path ++ " " ++ GURT_VERSION ++ crlf)%string;
     encode ("host: " ++ host ++ crlf)%string;
     encode ("user-agent: " ++ ua ++ crlf)%string;
     encode crlf]
  = wire_bytes (m ++ " " ++ path ++ " " ++ GURT_VERSION ++ crlf
                ++ "host: " ++ host ++ crlf
                ++ "user-agent: " ++ ua ++ crlf
                ++ crlf)%string.
Proof.
  intros Henc Hm Hp Hh Hu.
  rewrite !Henc;
    try (repeat (rewrite ascii_string_app; apply andb_true_iff; split); trivial).
  cbn [List.concat]. rewrite app_nil_r.
  rewrite <- !wire_bytes_app. f_equal.
  rewrite !str_app_assoc. reflexivity.
Qed.

(** C7: [requestNoBody(GET, "/api/data", "example.com")], the user agent
    left out, adds to what the transport was given exactly the 72 bytes of
    "GET /api/data GURT/1.0.0\r\nhost: example.com\r\nuser-agent: yo-gurt/0.1\r\n\r\n";
    and for all arguments it writes four chunks, in this order: the
    request line, the host header, the user-agent header with the given
    agent or the default, the empty line.  In both ports, for any encoder
    of strings that leaves the text of the wire format as it is. *)
Theorem requestNoBody_writes_the_frame :
  forall encode : string -> bytes,
    (forall s, ascii_string s = true -> encode s = wire_bytes s) ->
    (forall c : Web.GurtClient,
        Web.wire (Web.requestNoBody encode Get "/api/data" "example.com" None c)
        = Web.wire c ++
    [x47; x45; x54; x20; x2f; x61; x70; x69; x2f; x64; x61; x74;
     x61; x20; x47; x55; x52; x54; x2f; x31; x2e; x30; x2e; x30;
     x0d; x0a; x68; x6f; x73; x74; x3a; x20; x65; x78; x61; x6d;
     x70; x6c; x65; x2e; x63; x6f; x6d; x0d; x0a; x75; x73; x65;
     x72; x2d; x61; x67; x65; x6e; x74; x3a; x20; x79; x6f; x2d;
     x67; x75; x72; x74; x2f; x30; x2e; x31; x0d; x0a; x0d; x0a])
    /\ (forall c : Node.GurtClient,
           Node.wire (Node.requestNoBody encode Get "/api/data" "example.com" None c)
           = Node.wire c ++
    [x47; x45; x54; x20; x2f; x61; x70; x69; x2f; x64; x61; x74;
     x61; x20; x47; x55; x52; x54; x2f; x31; x2e; x30; x2e; x30;
     x0d; x0a; x68; x6f; x73; x74; x3a; x20; x65; x78; x61; x6d;
     x70; x6c; x65; x2e; x63; x6f; x6d; x0d; x0a; x75; x73; x65;
     x72; x2d; x61; x67; x65; x6e; x74; x3a; x20; x79; x6f; x2d;
     x67; x75; x72; x74; x2f; x30; x2e; x31; x0d; x0a; x0d; x0a])
    /\ (forall (method : Method) (path host : string) (userAgent : option string)
               (c : Web.GurtClient),
           Web.writer (Web.client_writer
                         (Web.requestNoBody encode method path host userAgent c))
           = Web.writer (Web.client_writer c)
             ++ [encode (method_string method ++ " " ++ path ++ " " ++ GURT_VERSION ++ crlf)%string;
                 encode ("host: " ++ host ++ crlf)%string;
                 encode ("user-agent: "
                         ++ match userAgent with Some u => u | None => "yo-gurt/0.1" end
                         ++ crlf)%string;
                 encode crlf])
    /\ (forall (method : Method) (path host : string) (userAgent : option string)
               (c : Node.GurtClient),
           Node.socket (Node.requestNoBody encode method path host userAgent c)
           = Node.socket c
             ++ [encode (method_string method ++ " " ++ path ++ " " ++ GURT_VERSION ++ crlf)%string;
                 encode ("host: " ++ host ++ crlf)%string;
                 encode ("user-agent: "
                         ++ match userAgent with Some u => u | None => "yo-gurt/0.1" end
                         ++ crlf)%string;
                 encode crlf])
    /\ (forall (method : Method) (path host ua : string) (c : Web.GurtClient),
           ascii_string path = true -> ascii_string host = true -> ascii_string ua = true ->
           Web.wire (Web.requestNoBody encode method path host (Some ua) c)
           = Web.wire c
             ++ wire_bytes (method_string method ++ " " ++ path ++ " " ++ GURT_VERSION ++ crlf
                            ++ "host: " ++ host ++ crlf
                            ++ "user-agent: " ++ ua ++ crlf
                            ++ crlf)%string).
Proof.
  intros encode Henc. split; [| split; [| split; [| split]]].
  - intros c. unfold Web.wire. rewrite web_requestNoBody_chunks, concat_app.
    rewrite (frame_bytes encode _ _ _ _ Henc) by reflexivity. reflexivity.
  - intros c. unfold Node.wire. rewrite node_requestNoBody_chunks, concat_app.
    rewrite (frame_bytes encode _ _ _ _ Henc) by reflexivity. reflexivity.
  - apply web_requestNoBody_chunks.
  - apply node_requestNoBody_chunks.
  - intros method path host ua c Hp Hh Hu.
    unfold Web.wire. rewrite web_requestNoBody_chunks, concat_app.
    rewrite (frame_bytes encode _ _ _ _ Henc (method_string_ascii method) Hp Hh Hu).
    reflexivity.
Qed.

(** A client just built on a transport that was given nothing yet. *)
Lemma requestNoBody_writes_the_frame_witness :
  Web.wire (Web.requestNoBody wire_bytes Get "/api/data" "example.com" None
              (fst (Web.new_GurtClient {| Web.readable := []; Web.writable := [] |} [])))
  = [] ++
    [x47; x45; x54; x20; x2f; x61; x70; x69; x2f; x64; x61; x74;
     x61; x20; x47; x55; x52; x54; x2f; x31; x2e; x30; x2e; x30;
     x0d; x0a; x68; x6f; x73; x74; x3a; x20; x65; x78; x61; x6d;
     x70; x6c; x65; x2e; x63; x6f; x6d; x0d; x0a; x75; x73; x65;
     x72; x2d; x61; x67; x65; x6e; x74; x3a; x20; x79; x6f; x2d;
     x67; x75; x72; x74; x2f; x30; x2e; x31; x0d; x0a; x0d; x0a].
Proof.
  exact (proj1 (requestNoBody_writes_the_frame wire_bytes (fun s _ => eq_refl))
           (fst (Web.new_GurtClient {| Web.readable := []; Web.writable := [] |} []))).
Defined.

(** ** Replacing the transport *)

Lemma deref_alloc_new {R : Type} (r : R) (h : store R) :
  deref (fst (alloc r h)) (snd (alloc r h)) = Some r.
Proof.
  unfold deref, alloc. cbn [fst snd].
  rewrite nth_error_app2 by lia. rewrite Nat.sub_diag. reflexivity.
Qed.

Lemma deref_alloc_old {R : Type} (r x : R) (h : store R) (a : address) :
  deref a h = Some x ->
  deref a (snd (alloc r h)) = Some x /\ a <> fst (alloc r h).
Proof.
  unfold deref, alloc. cbn [fst snd]. intros H.
  assert (L : a < List.length h) by (apply nth_error_Some; congruence).
  split; [rewrite nth_error_app1 by exact L; exact H | lia].
Qed.

Lemma deref_assign_same {R : Type} (r : R) (h : store R) :
  forall (a : address) (x : R),
    deref a h = Some x -> deref a (assign a r h) = Some r.
Proof.
  unfold deref. induction h as [| y h IH]; intros a x H.
  - destruct a; discriminate H.
  - destruct a as [| a]; cbn in *; [reflexivity | exact (IH a x H)].
Qed.

Lemma deref_assign_other {R : Type} (r : R) (h : store R) :
  forall a a' : address, a <> a' -> deref a' (assign a r h) = deref a' h.
Proof.
  unfold deref. induction h as [| y h IH]; intros a a' Hne.
  - destruct a; reflexivity.
  - destruct a as [| a], a' as [| a']; cbn; try reflexivity; [congruence |].
    apply IH. congruence.
Qed.

Lemma stale_reader_reads_on (R A : Type) (a : address) (r fresh : R)
      (op : R -> A * R) (h : store R) :
  deref a h = Some r ->
  deref a (snd (alloc fresh h)) = Some r
  /\ deref (fst (alloc fresh h)) (assign a (snd (op r)) (snd (alloc fresh h)))
     = Some fresh.
Proof.
  intros H. destruct (deref_alloc_old fresh r h a H) as [Hold Hne].
  split; [exact Hold |].
  rewrite (deref_assign_other (snd (op r)) (snd (alloc fresh h)) a _ Hne).
  apply deref_alloc_new.
Qed.

(** C9, as stated, fails: a read issued after the swap can return bytes
    buffered from the previous transport.  A response reader taken from
    the client before the swap holds the old reader, which the swap does
    not empty: after the swap it returns "LD", left in the buffer by an
    earlier read, while a response reader taken after the swap returns
    "NEW".  In both ports. *)
Lemma response_reader_made_before_the_swap :
  swap_scenario_web
  = (Some (Returned (wire_bytes "LD")), Some (Returned (wire_bytes "NEW")))
  /\ swap_scenario_node
     = (Some (Returned (wire_bytes "LD")), Some (Returned (wire_bytes "NEW"))).
Proof. split; reflexivity. Qed.

(** C9, amended: replacing the transport gives the client a new reader
    object with an empty buffer, bound to the new transport, so all that
    calls made through a response reader taken from the client after the
    swap return are bytes the new transport delivered, in order.  The old
    reader is not emptied: every object there was before, the old reader
    with what it had buffered included, is another object and stays as it
    was, and a response reader taken before the swap goes on reading it,
    as if no swap had been made, and leaves the new reader alone.  In
    both ports. *)
Theorem transport_swap_rebinds_the_client :
  (forall (t : Web.WebTransport) (c : Web.GurtClient) (h : store Web.BufferedReader),
      Web.setTransport t c h = Web.new_GurtClient t h
      /\ deref (Web.rr_reader (Web.responseReader (fst (Web.setTransport t c h))))
               (snd (Web.setTransport t c h))
         = Some {| Web.reader := Web.readable t; Web.buf := []; Web.done := false |}
      /\ (forall a r, deref a h = Some r ->
                      deref a (snd (Web.setTransport t c h)) = Some r
                      /\ a <> Web.client_reader (fst (Web.setTransport t c h)))
      /\ (forall (cs : list call) (outs : list bytes) (h' : store Web.BufferedReader),
           Web.on_reader (Web.perform_all cs)
             (Web.responseReader (fst (Web.setTransport t c h)))
             (snd (Web.setTransport t c h))
           = Some (Some outs, h') ->
           exists r' delivered,
             deref (Web.client_reader (fst (Web.setTransport t c h))) h' = Some r'
             /\ Web.readable t = delivered ++ Web.reader r'
             /\ List.concat delivered = List.concat outs ++ Web.buf r')
      /\ (forall (A : Type) (before : Web.ResponseReader) (r : Web.BufferedReader)
                 (op : Web.BufferedReader -> A * Web.BufferedReader),
           deref (Web.rr_reader before) h = Some r ->
           Web.on_reader op before (snd (Web.setTransport t c h))
           = Some (fst (op r),
                   assign (Web.rr_reader before) (snd (op r))
                     (snd (Web.setTransport t c h)))
           /\ deref (Web.client_reader (fst (Web.setTransport t c h)))
                (assign (Web.rr_reader before) (snd (op r))
                   (snd (Web.setTransport t c h)))
              = Some {| Web.reader := Web.readable t; Web.buf := []; Web.done := false |}))
  /\ (forall (s : Node.Duplex) (c : Node.GurtClient) (h : store Node.BufferedReader),
         Node.setSocket s c h = Node.new_GurtClient s h
         /\ deref (Node.rr_reader (Node.responseReader (fst (Node.setSocket s c h))))
                  (snd (Node.setSocket s c h))
            = Some {| Node.incoming := Node.to_read s; Node.readableEnded := false;
                      Node.buf := [] |}
         /\ (forall a r, deref a h = Some r ->
                         deref a (snd (Node.setSocket s c h)) = Some r
                         /\ a <> Node.reader (fst (Node.setSocket s c h)))
         /\ (forall (ss : list Node.step) (outs : list bytes) (h' : store Node.BufferedReader),
              Node.on_reader (Node.perform_all ss)
                (Node.responseReader (fst (Node.setSocket s c h)))
                (snd (Node.setSocket s c h))
              = Some (Some outs, h') ->
              exists r' delivered,
                deref (Node.reader (fst (Node.setSocket s c h))) h' = Some r'
                /\ Node.to_read s = delivered ++ Node.incoming r'
                /\ List.concat delivered = List.concat outs ++ Node.buf r')
         /\ (forall (A : Type) (before : Node.ResponseReader) (r : Node.BufferedReader)
                    (op : Node.BufferedReader -> A * Node.BufferedReader),
              deref (Node.rr_reader before) h = Some r ->
              Node.on_reader op before (snd (Node.setSocket s c h))
              = Some (fst (op r),
                      assign (Node.rr_reader before) (snd (op r))
                        (snd (Node.setSocket s c h)))
              /\ deref (Node.reader (fst (Node.setSocket s c h)))
                   (assign (Node.rr_reader before) (snd (op r))
                      (snd (Node.setSocket s c h)))
                 = Some {| Node.incoming := Node.to_read s; Node.readableEnded := false;
                           Node.buf := [] |})).
Proof.
  split.
  - intros t c h. split; [reflexivity | split; [| split; [| split]]].
    + apply (deref_alloc_new (Web.new_BufferedReader (Web.readable t)) h).
    + intros a r H.
      apply (deref_alloc_old (Web.new_BufferedReader (Web.readable t)) r h a H).
    + intros cs outs h' E. unfold Web.on_reader in E.
      pose proof (deref_alloc_new (Web.new_BufferedReader (Web.readable t)) h) as Hnew.
      change (deref (Web.rr_reader (Web.responseReader (fst (Web.setTransport t c h))))
                (snd (Web.setTransport t c h))
              = Some (Web.new_BufferedReader (Web.readable t))) in Hnew.
      rewrite Hnew in E.
      destruct (Web.perform_all cs (Web.new_BufferedReader (Web.readable t)))
        as [outs1 r1] eqn:E1.
      injection E as -> <-.
      destruct (web_perform_all_conserves cs _ _ _ (web_new_wf _) E1) as (_ & d & Hd & Hb).
      exists r1, d. split; [| split; [exact Hd | symmetry; exact Hb]].
      apply (deref_assign_same r1 _ _ _ Hnew).
    + intros A before r op H.
      destruct (stale_reader_reads_on _ A _ r (Web.new_BufferedReader (Web.readable t))
                  op h H) as [Hold Hnew].
      split; [| exact Hnew].
      unfold Web.on_reader.
      change (snd (Web.setTransport t c h))
        with (snd (alloc (Web.new_BufferedReader (Web.readable t)) h)).
      rewrite Hold. destruct (op r) as [res r1]. reflexivity.
  - intros s c h. split; [reflexivity | split; [| split; [| split]]].
    + apply (deref_alloc_new (Node.new_BufferedReader (Node.to_read s)) h).
    + intros a r H.
      apply (deref_alloc_old (Node.new_BufferedReader (Node.to_read s)) r h a H).
    + intros ss outs h' E. unfold Node.on_reader in E.
      pose proof (deref_alloc_new (Node.new_BufferedReader (Node.to_read s)) h) as Hnew.
      change (deref (Node.rr_reader (Node.responseReader (fst (Node.setSocket s c h))))
                (snd (Node.setSocket s c h))
              = Some (Node.new_BufferedReader (Node.to_read s))) in Hnew.
      rewrite Hnew in E.
      destruct (Node.perform_all ss (Node.new_BufferedReader (Node.to_read s)))
        as [outs1 r1] eqn:E1.
      injection E as -> <-.
      destruct (node_perform_all_conserves ss _ _ _ (node_new_wf _) E1) as (_ & d & Hd & Hb).
      exists r1, d. split; [| split; [exact Hd | symmetry; exact Hb]].
      apply (deref_assign_same r1 _ _ _ Hnew).
    + intros A before r op H.
      destruct (stale_reader_reads_on _ A _ r (Node.new_BufferedReader (Node.to_read s))
                  op h H) as [Hold Hnew].
      split; [| exact Hnew].
      unfold Node.on_reader.
      change (snd (Node.setSocket s c h))
        with (snd (alloc (Node.new_BufferedReader (Node.to_read s)) h)).
      rewrite Hold. destruct (op r) as [res r1]. reflexivity.
Qed.

(** A client whose reader, at address 0, still buffers "OLD" is given a
    transport that will deliver "NEW\r\n". *)
Lemma transport_swap_rebinds_the_client_witness :
  Web.on_reader (Web.perform_all [ReadUntilCRLF])
    (Web.responseReader
       (fst (Web.setTransport
               {| Web.readable := [wire_bytes "NEW" ++ CRLF]; Web.writable := [] |}
               {| Web.client_transport := {| Web.readable := []; Web.writable := [] |};
                  Web.client_reader := 0;
                  Web.client_writer := {| Web.writer := [] |} |}
               [{| Web.reader := []; Web.buf := wire_bytes "OLD"; Web.done := false |}])))
    (snd (Web.setTransport
            {| Web.readable := [wire_bytes "NEW" ++ CRLF]; Web.writable := [] |}
            {| Web.client_transport := {| Web.readable := []; Web.writable := [] |};
               Web.client_reader := 0;
               Web.client_writer := {| Web.writer := [] |} |}
            [{| Web.reader := []; Web.buf := wire_bytes "OLD"; Web.done := false |}]))
  = Some (Some [wire_bytes "NEW" ++ CRLF],
          [{| Web.reader := []; Web.buf := wire_bytes "OLD"; Web.done := false |};
           {| Web.reader := []; Web.buf := []; Web.done := false |}])
  /\ exists r' delivered,
       deref 1 [{| Web.reader := []; Web.buf := wire_bytes "OLD"; Web.done := false |};
                {| Web.reader := []; Web.buf := []; Web.done := false |}] = Some r'
       /\ [wire_bytes "NEW" ++ CRLF] = delivered ++ Web.reader r'
       /\ List.concat delivered = List.concat [wire_bytes "NEW" ++ CRLF] ++ Web.buf r'.
Proof.
  split; [reflexivity |].
  exact (proj1 (proj2 (proj2 (proj2
           (proj1 transport_swap_rebinds_the_client
              {| Web.readable := [wire_bytes "NEW" ++ CRLF]; Web.writable := [] |}
              {| Web.client_transport := {| Web.readable := []; Web.writable := [] |};
                 Web.client_reader := 0;
                 Web.client_writer := {| Web.writer := [] |} |}
              [{| Web.reader := []; Web.buf := wire_bytes "OLD"; Web.done := false |}]))))
           [ReadUntilCRLF] [wire_bytes "NEW" ++ CRLF] _ eq_refl).
Defined.
(** ** The web reader, in general *)

(** X1: [readExact(n)] in the web port, from any well-formed reader: with
    fewer than [n] bytes left in all, everything is buffered and the call
    fails with 'Unexpected EOF'; otherwise it returns the first [n] unread
    bytes and leaves the others unread. *)
Theorem web_readExact_specification :
  forall (n : nat) (r : Web.BufferedReader),
    Web.wf r ->
    (List.length (Web.unread r) < n ->
     Web.readExact n r
     = (Threw Unexpected_EOF,
        {| Web.reader := []; Web.buf := Web.unread r; Web.done := true |}))
    /\ (n <= List.length (Web.unread r) ->
        exists r',
          Web.readExact n r = (Returned (firstn n (Web.unread r)), r')
          /\ Web.unread r' = skipn n (Web.unread r)
          /\ Web.wf r').
Proof.
  intros n r Hwf. split.
  - apply web_readExact_short, Hwf.
  - apply web_readExact_enough, Hwf.
Qed.

Lemma web_readExact_specification_witness :
  Web.wf (Web.new_BufferedReader [wire_bytes "ab"; wire_bytes "cde"])
  /\ exists r',
       Web.readExact 3 (Web.new_BufferedReader [wire_bytes "ab"; wire_bytes "cde"])
       = (Returned (firstn 3 (Web.unread
                                (Web.new_BufferedReader [wire_bytes "ab"; wire_bytes "cde"]))),
          r')
       /\ Web.unread r'
          = skipn 3 (Web.unread (Web.new_BufferedReader [wire_bytes "ab"; wire_bytes "cde"]))
       /\ Web.wf r'.
Proof.
  split; [apply web_new_wf |].
  apply (proj2 (web_readExact_specification 3
                  (Web.new_BufferedReader [wire_bytes "ab"; wire_bytes "cde"])
                  (web_new_wf _))).
  simpl. lia.
Defined.

(** X2: [readUntilCRLF()] in the web port, from any well-formed reader: with
    no delimiter left in all, everything is buffered and the call fails
    with 'Unexpected EOF'; otherwise it returns the unread bytes up to and
    including the first delimiter and leaves the others unread. *)
Theorem web_readUntilCRLF_specification :
  forall r : Web.BufferedReader,
    Web.wf r ->
    (no_CRLF (Web.unread r) ->
     Web.readUntilCRLF r
     = (Threw Unexpected_EOF,
        {| Web.reader := []; Web.buf := Web.unread r; Web.done := true |}))
    /\ (forall k, first_CRLF_at (Web.unread r) k ->
        exists r',
          Web.readUntilCRLF r = (Returned (firstn (k + 2) (Web.unread r)), r')
          /\ Web.unread r' = skipn (k + 2) (Web.unread r)
          /\ Web.wf r').
Proof.
  intros r Hwf. split.
  - apply web_readUntilCRLF_absent, Hwf.
  - intros k. apply web_readUntilCRLF_present, Hwf.
Qed.

Lemma web_readUntilCRLF_specification_witness :
  Web.wf {| Web.reader := [wire_bytes "b"]; Web.buf := wire_bytes "a"; Web.done := false |}
  /\ Web.readUntilCRLF
       {| Web.reader := [wire_bytes "b"]; Web.buf := wire_bytes "a"; Web.done := false |}
     = (Threw Unexpected_EOF,
        {| Web.reader := [];
           Web.buf := Web.unread {| Web.reader := [wire_bytes "b"]; Web.buf := wire_bytes "a";
                                    Web.done := false |};
           Web.done := true |}).
Proof.
  assert (H : Web.wf {| Web.reader := [wire_bytes "b"]; Web.buf := wire_bytes "a";
                        Web.done := false |}).
  { intros E. discriminate E. }
  split; [exact H |].
  apply (proj1 (web_readUntilCRLF_specification _ H)).
  apply indexOfCRLF_absent. reflexivity.
Defined.

(** ** The Node reader at the end of the stream *)

(** X3: in the Node port, a [readExact(n)] that cannot be served, and a
    [readUntilCRLF()] on a stream without delimiter, fail with 'Unexpected
    EOF' when no byte at all is left, and never answer otherwise. *)
Theorem node_reads_at_end_of_stream :
  forall r : Node.BufferedReader,
    Node.wf r ->
    (forall n, List.length (Node.unread r) < n ->
       fst (Node.readExact n r)
       = match Node.unread r with [] => Threw Unexpected_EOF | _ :: _ => Pending end)
    /\ (no_CRLF (Node.unread r) ->
        fst (Node.readUntilCRLF r)
        = match Node.unread r with [] => Threw Unexpected_EOF | _ :: _ => Pending end).
Proof.
  intros r Hwf. split.
  - intros n Hn. rewrite (node_readExact_short n r Hwf Hn). reflexivity.
  - intros Hno. rewrite (node_readUntilCRLF_absent r Hwf Hno). reflexivity.
Qed.

Lemma node_reads_at_end_of_stream_witness :
  Node.wf (Node.new_BufferedReader [wire_bytes "abc"])
  /\ fst (Node.readExact 5 (Node.new_BufferedReader [wire_bytes "abc"]))
     = match Node.unread (Node.new_BufferedReader [wire_bytes "abc"]) with
       | [] => Threw Unexpected_EOF
       | _ :: _ => Pending
       end.
Proof.
  split; [apply node_new_wf |].
  apply (proj1 (node_reads_at_end_of_stream _ (node_new_wf [wire_bytes "abc"])) 5).
  simpl. lia.
Defined.

(** ** Exact reads and chunking *)

(** X4: however a byte sequence of at least [n] bytes is cut into chunks,
    [readExact(n)] returns its first [n] bytes, in both ports. *)
Theorem readExact_chunking_invariant :
  forall (n : nat) (stream : bytes) (chunks : list bytes),
    List.concat chunks = stream ->
    n <= List.length stream ->
    fst (Web.readExact n (Web.new_BufferedReader chunks)) = Returned (firstn n stream)
    /\ fst (Web.readExact n (Web.new_BufferedReader [stream])) = Returned (firstn n stream)
    /\ fst (Node.readExact n (Node.new_BufferedReader chunks)) = Returned (firstn n stream)
    /\ fst (Node.readExact n (Node.new_BufferedReader [stream])) = Returned (firstn n stream).
Proof.
  intros n stream chunks E Hn.
  assert (E1 : List.concat [stream] = stream) by (simpl; apply app_nil_r).
  repeat split.
  - destruct (web_readExact_enough n (Web.new_BufferedReader chunks) (web_new_wf _))
      as (r' & R & _); [rewrite web_new_unread, E; exact Hn |].
    rewrite R, web_new_unread, E. reflexivity.
  - destruct (web_readExact_enough n (Web.new_BufferedReader [stream]) (web_new_wf _))
      as (r' & R & _); [rewrite web_new_unread, E1; exact Hn |].
    rewrite R, web_new_unread, E1. reflexivity.
  - destruct (node_readExact_enough n (Node.new_BufferedReader chunks) (node_new_wf _))
      as (r' & R & _); [rewrite node_new_unread, E; exact Hn |].
    rewrite R, node_new_unread, E. reflexivity.
  - destruct (node_readExact_enough n (Node.new_BufferedReader [stream]) (node_new_wf _))
      as (r' & R & _); [rewrite node_new_unread, E1; exact Hn |].
    rewrite R, node_new_unread, E1. reflexivity.
Qed.

Lemma readExact_chunking_invariant_witness :
  fst (Web.readExact 4
         (Web.new_BufferedReader [wire_bytes "a"; wire_bytes "b"; wire_bytes "cde"]))
  = Returned (firstn 4 (wire_bytes "abcde"))
  /\ fst (Web.readExact 4 (Web.new_BufferedReader [wire_bytes "abcde"]))
     = Returned (firstn 4 (wire_bytes "abcde"))
  /\ fst (Node.readExact 4
            (Node.new_BufferedReader [wire_bytes "a"; wire_bytes "b"; wire_bytes "cde"]))
     = Returned (firstn 4 (wire_bytes "abcde"))
  /\ fst (Node.readExact 4 (Node.new_BufferedReader [wire_bytes "abcde"]))
     = Returned (firstn 4 (wire_bytes "abcde")).
Proof.
  apply (readExact_chunking_invariant 4 (wire_bytes "abcde")
           [wire_bytes "a"; wire_bytes "b"; wire_bytes "cde"] eq_refl).
  simpl. lia.
Defined.
(** * The two ports compared *)

(** ** The Node reader follows the web reader *)





Section Simulation.

(** The test [cw] the web loop goes on under is the negation of the test
    [q] the Node wait is over with. *)
Variables (cw q e : bytes -> bool).
Hypothesis cw_q : forall b, cw b = negb (q b).


End Simulation.




Lemma as_node_set_buf (b : bytes) (r : Web.BufferedReader) :
  Node.set_buf b (as_node r) = as_node (Web.set_buf b r).
Proof. reflexivity. Qed.









Lemma node_emit_unread (r r1 : Node.BufferedReader) :
  Node.wf r -> Node.emit r = Some r1 ->
  Node.wf r1 /\ Node.unread r1 = Node.unread r.
Proof.
  intros Hwf E. destruct (node_emit_conserves r r1 Hwf E) as (Hwf1 & d & Hd & Hb).
  split; [exact Hwf1 |]. unfold Node.unread.
  rewrite Hb, Hd, concat_app, app_assoc. reflexivity.
Qed.





(** * Lines, headers and header blocks *)

(** ** Lines without a line feed *)

Lemma wire_bytes_nth (s : string) :
  forall j, nth_error (wire_bytes s) j = option_map byte_of_ascii (String.get j s).
Proof.
  unfold wire_bytes, list_byte_of_string.
  induction s as [| c s IH]; intros j; [destruct j; reflexivity |].
  destruct j as [| j]; cbn; [reflexivity | apply IH].
Qed.

Lemma get_occurs (c : ascii) (s : string) :
  forall j, String.get j s = Some c -> occurs c s = true.
Proof.
  induction s as [| x s IH]; intros j H; [destruct j; discriminate |].
  destruct j as [| j]; cbn in *.
  - injection H as ->. rewrite Ascii.eqb_refl. reflexivity.
  - rewrite (IH j H). apply orb_true_r.
Qed.

Lemma wire_bytes_LF (s : string) (j : nat) :
  nth_error (wire_bytes s) j = Some x0a -> occurs LF_char s = true.
Proof.
  rewrite wire_bytes_nth. destruct (String.get j s) as [c |] eqn:E; [| discriminate].
  cbn. intros H. injection H as H.
  apply (get_occurs c s j) in E.
  assert (c = LF_char); [| subst; exact E].
  rewrite <- (ascii_of_byte_of_ascii c), H. reflexivity.
Qed.

(** A text without line feed, followed by the delimiter, is the next line
    of whatever stream it starts. *)
Lemma next_line_intro (line : string) (rest : bytes) :
  occurs LF_char line = false ->
  next_line (wire_bytes line ++ CRLF ++ rest) line.
Proof.
  intros Hno. pose proof (wire_bytes_length line) as L. split; [split |].
  - split.
    + rewrite nth_error_app2 by lia. rewrite L, Nat.sub_diag. reflexivity.
    + rewrite nth_error_app2 by lia. rewrite L.
      replace (S (String.length line) - String.length line) with 1 by lia. reflexivity.
  - intros j Hj [_ H2].
    destruct (Nat.eq_dec (S j) (String.length line)) as [E | E].
    + rewrite nth_error_app2 in H2 by lia. rewrite L, E, Nat.sub_diag in H2. discriminate.
    + rewrite nth_error_app1 in H2 by lia.
      apply wire_bytes_LF in H2. congruence.
  - rewrite <- L. rewrite firstn_app, firstn_all, Nat.sub_diag. cbn. apply app_nil_r.
Qed.

Lemma skipn_line (line : string) (rest : bytes) :
  skipn (String.length line + 2) (wire_bytes line ++ CRLF ++ rest) = rest.
Proof.
  rewrite <- (wire_bytes_length line).
  rewrite skipn_app.
  rewrite skipn_all2 by lia.
  replace (List.length (wire_bytes line) + 2 - List.length (wire_bytes line)) with 2 by lia.
  reflexivity.
Qed.

(** ** A header block, read header by header *)

Lemma web_header_block (decode : bytes -> string) (hs : list (string * string)) :
  (forall s, ascii_string s = true -> decode (wire_bytes s) = s) ->
  Forall good_header hs ->
  forall (rest : bytes) (r : Web.BufferedReader),
    Web.wf r ->
    Web.unread r = lines_bytes (map header_text hs) ++ CRLF ++ rest ->
    exists r',
      Web.readHeader_times decode (S (List.length hs)) r
      = (map header_read hs ++ [Returned None], r')
      /\ Web.unread r' = rest
      /\ Web.wf r'.
Proof.
  intros Hdec Hgood. induction Hgood as [| h hs (Hc & Hlf & Hasc) _ IH]; intros rest r Hwf Hu.
  - cbn in Hu.
    destruct (web_reads_line r EmptyString Hwf) as (r1 & E & U & Hwf1).
    { rewrite Hu. apply (next_line_intro EmptyString rest). reflexivity. }
    cbn [Web.readHeader_times List.length]. unfold Web.readHeader. rewrite E.
    exists r1. repeat split; trivial.
    rewrite U, Hu. reflexivity.
  - cbn [map lines_bytes] in Hu. rewrite <- !app_assoc in Hu.
    destruct (web_reads_line r (header_text h) Hwf) as (r1 & E & U & Hwf1).
    { rewrite Hu. apply next_line_intro. exact Hlf. }
    rewrite Hu, skipn_line in U.
    destruct (IH rest r1 Hwf1 U) as (r' & E' & U' & Hwf').
    exists r'. repeat split; trivial.
    change (Web.readHeader_times decode (S (List.length (h :: hs))) r)
      with (let '(res, r1) := Web.readHeader decode r in
            let '(rs, r2) := Web.readHeader_times decode (S (List.length hs)) r1 in
            (res :: rs, r2)).
    unfold Web.readHeader at 1. rewrite E, E'.
    rewrite (header_of_colon decode (header_text h) (fst h) (snd h)
               (Hdec _ Hasc) eq_refl Hc).
    reflexivity.
Qed.

Lemma node_header_block (hs : list (string * string)) :
  Forall good_header hs ->
  forall (rest : bytes) (r : Node.BufferedReader),
    Node.wf r ->
    Node.unread r = lines_bytes (map header_text hs) ++ CRLF ++ rest ->
    exists r',
      Node.readHeader_times (S (List.length hs)) r
      = (map header_read hs ++ [Returned None], r')
      /\ Node.unread r' = rest
      /\ Node.wf r'.
Proof.
  intros Hgood. induction Hgood as [| h hs (Hc & Hlf & Hasc) _ IH]; intros rest r Hwf Hu.
  - cbn in Hu.
    destruct (node_reads_line r EmptyString Hwf) as (r1 & E & U & Hwf1).
    { rewrite Hu. apply (next_line_intro EmptyString rest). reflexivity. }
    cbn [Node.readHeader_times List.length]. unfold Node.readHeader. rewrite E.
    exists r1. repeat split; trivial.
    rewrite U, Hu. reflexivity.
  - cbn [map lines_bytes] in Hu. rewrite <- !app_assoc in Hu.
    destruct (node_reads_line r (header_text h) Hwf) as (r1 & E & U & Hwf1).
    { rewrite Hu. apply next_line_intro. exact Hlf. }
    rewrite Hu, skipn_line in U.
    destruct (IH rest r1 Hwf1 U) as (r' & E' & U' & Hwf').
    exists r'. repeat split; trivial.
    change (Node.readHeader_times (S (List.length (h :: hs))) r)
      with (let '(res, r1) := Node.readHeader r in
            let '(rs, r2) := Node.readHeader_times (S (List.length hs)) r1 in
            (res :: rs, r2)).
    unfold Node.readHeader at 1. rewrite E, E'.
    rewrite (header_of_colon Node.toString_ascii (header_text h) (fst h) (snd h)
               (node_toString_ascii_wire _ Hasc) eq_refl Hc).
    reflexivity.
Qed.

(** X7: a block of [n] header lines followed by the empty line is read by
    [n + 1] calls of [readHeader]: the headers in order, each split at
    its first colon, then [null]; what follows the empty line is left
    unread, whatever the chunks the block arrives in.  Both ports. *)
Theorem header_block_is_read_in_order :
  forall (decode : bytes -> string) (hs : list (string * string)) (rest : bytes),
    (forall s, ascii_string s = true -> decode (wire_bytes s) = s) ->
    Forall good_header hs ->
    (forall r : Web.BufferedReader,
        Web.wf r ->
        Web.unread r = lines_bytes (map header_text hs) ++ CRLF ++ rest ->
        exists r',
          Web.readHeader_times decode (S (List.length hs)) r
          = (map header_read hs ++ [Returned None], r')
          /\ Web.unread r' = rest)
    /\ (forall r : Node.BufferedReader,
           Node.wf r ->
           Node.unread r = lines_bytes (map header_text hs) ++ CRLF ++ rest ->
           exists r',
             Node.readHeader_times (S (List.length hs)) r
             = (map header_read hs ++ [Returned None], r')
             /\ Node.unread r' = rest).
Proof.
  intros decode hs rest Hdec Hgood. split; intros r Hwf Hu.
  - destruct (web_header_block decode hs Hdec Hgood rest r Hwf Hu) as (r' & E & U & _).
    exists r'. split; assumption.
  - destruct (node_header_block hs Hgood rest r Hwf Hu) as (r' & E & U & _).
    exists r'. split; assumption.
Qed.

Lemma header_block_is_read_in_order_witness :
  exists r',
    Web.readHeader_times Node.toString_ascii 3
      (Web.new_BufferedReader
         [wire_bytes "Host: a"; CRLF ++ wire_bytes "x-y : b:c"; CRLF;
          CRLF ++ wire_bytes "body"])
    = ([Returned (Some {| name := "host"; value := "a"; totalBytes := 9 |});
        Returned (Some {| name := "x-y"; value := "b:c"; totalBytes := 11 |});
        Returned None], r')
    /\ Web.unread r' = wire_bytes "body".
Proof.
  apply (header_block_is_read_in_order Node.toString_ascii
           [("Host", " a"); ("x-y ", " b:c")]%string (wire_bytes "body")).
  - apply node_toString_ascii_wire.
  - repeat constructor.
  - intros H; discriminate H.
  - reflexivity.
Defined.

(** ** What a parsed line costs *)

Lemma statusLine_of_bytesRead (decode : bytes -> string) (b : bytes) (s : StatusLineResult) :
  statusLine_of decode b = Returned s -> bytesRead s = List.length b.
Proof.
  unfold statusLine_of. cbv zeta.
  destruct (match nth_error _ 0 with Some p => negb (String.eqb p GURT_VERSION) | None => true end);
    [discriminate |].
  destruct (isNaN _); [discriminate |].
  intros H. injection H as <-. reflexivity.
Qed.

Lemma header_of_totalBytes (decode : bytes -> string) (b : bytes) (h : HeaderResult) :
  header_of decode b = Returned (Some h) -> totalBytes h = List.length b.
Proof.
  unfold header_of. cbv zeta.
  destruct (List.length b =? 2); [discriminate |].
  destruct (_ <? 0)%Z; [discriminate |].
  intros H. injection H as <-. reflexivity.
Qed.

Lemma header_of_null (decode : bytes -> string) (b : bytes) :
  header_of decode b = Returned None <-> List.length b = 2.
Proof.
  unfold header_of. cbv zeta.
  destruct (Nat.eqb_spec (List.length b) 2) as [E | E].
  - split; trivial.
  - split; [| intros; contradiction].
    destruct (_ <? 0)%Z; discriminate.
Qed.

Lemma length_two_empty (line : string) :
  String.length line + 2 = 2 <-> line = EmptyString.
Proof.
  destruct line; cbn; split; intros H; try reflexivity; try discriminate; lia.
Qed.

Lemma web_line_consumed (decode : bytes -> string) (r : Web.BufferedReader) (line : string) :
  Web.wf r ->
  next_line (Web.unread r) line ->
  Web.unread (snd (Web.readStatusLine decode r))
  = skipn (String.length line + 2) (Web.unread r)
  /\ Web.unread (snd (Web.readHeader decode r))
     = skipn (String.length line + 2) (Web.unread r)
  /\ (forall s, fst (Web.readStatusLine decode r) = Returned s ->
                bytesRead s = String.length line + 2)
  /\ (forall h, fst (Web.readHeader decode r) = Returned (Some h) ->
                totalBytes h = String.length line + 2)
  /\ (fst (Web.readHeader decode r) = Returned None <-> line = EmptyString).
Proof.
  intros Hwf Hn.
  destruct (web_reads_line r line Hwf Hn) as (r1 & E & U & _).
  unfold Web.readStatusLine, Web.readHeader. rewrite E. cbn [fst snd].
  repeat split; trivial.
  - intros s H. rewrite (statusLine_of_bytesRead _ _ _ H). apply line_length.
  - intros h H. rewrite (header_of_totalBytes _ _ _ H). apply line_length.
  - intros H. apply header_of_null in H. rewrite line_length in H.
    apply length_two_empty, H.
  - intros H. apply header_of_null. rewrite line_length. apply length_two_empty, H.
Qed.

Lemma node_line_consumed (r : Node.BufferedReader) (line : string) :
  Node.wf r ->
  next_line (Node.unread r) line ->
  Node.unread (snd (Node.readStatusLine r))
  = skipn (String.length line + 2) (Node.unread r)
  /\ Node.unread (snd (Node.readHeader r))
     = skipn (String.length line + 2) (Node.unread r)
  /\ (forall s, fst (Node.readStatusLine r) = Returned s ->
                bytesRead s = String.length line + 2)
  /\ (forall h, fst (Node.readHeader r) = Returned (Some h) ->
                totalBytes h = String.length line + 2)
  /\ (fst (Node.readHeader r) = Returned None <-> line = EmptyString).
Proof.
  intros Hwf Hn.
  destruct (node_reads_line r line Hwf Hn) as (r1 & E & U & _).
  unfold Node.readStatusLine, Node.readHeader. rewrite E. cbn [fst snd].
  repeat split; trivial.
  - intros s H. rewrite (statusLine_of_bytesRead _ _ _ H). apply line_length.
  - intros h H. rewrite (header_of_totalBytes _ _ _ H). apply line_length.
  - intros H. apply header_of_null in H. rewrite line_length in H.
    apply length_two_empty, H.
  - intros H. apply header_of_null. rewrite line_length. apply length_two_empty, H.
Qed.

(** X8: [readStatusLine] and [readHeader] consume exactly the next line
    with its delimiter, whether the line parses or not, so a call after a
    failed one reads the following line; the byte counts they report,
    [bytesRead] and [totalBytes], are the bytes consumed; and
    [readHeader] returns [null] for the empty line only.  Both ports, the
    web port for any decoder. *)
Theorem parsers_consume_one_line :
  forall (decode : bytes -> string) (line : string),
    (forall r : Web.BufferedReader,
        Web.wf r ->
        next_line (Web.unread r) line ->
        Web.unread (snd (Web.readStatusLine decode r))
        = skipn (String.length line + 2) (Web.unread r)
        /\ Web.unread (snd (Web.readHeader decode r))
           = skipn (String.length line + 2) (Web.unread r)
        /\ (forall s, fst (Web.readStatusLine decode r) = Returned s ->
                      bytesRead s = String.length line + 2)
        /\ (forall h, fst (Web.readHeader decode r) = Returned (Some h) ->
                      totalBytes h = String.length line + 2)
        /\ (fst (Web.readHeader decode r) = Returned None <-> line = EmptyString))
    /\ (forall r : Node.BufferedReader,
           Node.wf r ->
           next_line (Node.unread r) line ->
           Node.unread (snd (Node.readStatusLine r))
           = skipn (String.length line + 2) (Node.unread r)
           /\ Node.unread (snd (Node.readHeader r))
              = skipn (String.length line + 2) (Node.unread r)
           /\ (forall s, fst (Node.readStatusLine r) = Returned s ->
                         bytesRead s = String.length line + 2)
           /\ (forall h, fst (Node.readHeader r) = Returned (Some h) ->
                         totalBytes h = String.length line + 2)
           /\ (fst (Node.readHeader r) = Returned None <-> line = EmptyString)).
Proof.
  intros decode line. split; intros r.
  - apply web_line_consumed.
  - apply node_line_consumed.
Qed.

Lemma parsers_consume_one_line_witness :
  (fst (Web.readHeader Node.toString_ascii
          (Web.new_BufferedReader
             [wire_bytes "no colon" ++ CRLF ++ wire_bytes "a:b" ++ CRLF]))
   = Threw Invalid_header
   /\ Web.unread (snd (Web.readHeader Node.toString_ascii
                         (Web.new_BufferedReader
                            [wire_bytes "no colon" ++ CRLF ++ wire_bytes "a:b" ++ CRLF])))
      = wire_bytes "a:b" ++ CRLF)
  /\ Node.unread (snd (Node.readStatusLine
                         (Node.new_BufferedReader
                            [wire_bytes "no colon" ++ CRLF ++ wire_bytes "a:b" ++ CRLF])))
     = wire_bytes "a:b" ++ CRLF.
Proof.
  destruct (parsers_consume_one_line Node.toString_ascii "no colon") as [Hw Hn].
  split; [split; [reflexivity |] |].
  - refine (proj1 (proj2 (Hw (Web.new_BufferedReader
             [wire_bytes "no colon" ++ CRLF ++ wire_bytes "a:b" ++ CRLF]) _ _))).
    + intros H; discriminate H.
    + split; [apply indexOfCRLF_found |]; reflexivity.
  - refine (proj1 (Hn (Node.new_BufferedReader
             [wire_bytes "no colon" ++ CRLF ++ wire_bytes "a:b" ++ CRLF]) _ _)).
    + intros H; discriminate H.
    + split; [apply indexOfCRLF_found |]; reflexivity.
Defined.

(** ** The protocol identifier *)

Lemma split_first_token (sep : ascii) (tok tail : string) :
  occurs sep tok = false ->
  first_is (fun c => negb (Ascii.eqb c sep)) tail = false ->
  exists more, split sep (tok ++ tail) = tok :: more.
Proof.
  intros Htok Htail. destruct tail as [| c t].
  - rewrite str_app_nil_r, split_without by exact Htok. exists []. reflexivity.
  - simpl in Htail. apply negb_false_iff, Ascii.eqb_eq in Htail. subst c.
    rewrite split_at_first by exact Htok. eexists. reflexivity.
Qed.

Lemma statusLine_of_protocol (decode : bytes -> string) (tok tail : string) :
  decode (wire_bytes (tok ++ tail)) = (tok ++ tail)%string ->
  occurs " "%char tok = false ->
  first_is (fun c => negb (Ascii.eqb c " "%char)) tail = false ->
  statusLine_of decode (wire_bytes (tok ++ tail) ++ CRLF) = Threw Invalid_protocol
  <-> tok <> GURT_VERSION.
Proof.
  intros Hdec Htok Htail. unfold statusLine_of.
  rewrite slice_line, Hdec. cbv zeta.
  destruct (split_first_token " "%char tok tail Htok Htail) as [more ->].
  cbn [nth_error].
  destruct (String.eqb_spec tok GURT_VERSION) as [E | E]; cbn [negb].
  - split; [| intros H; contradiction].
    destruct (isNaN _); discriminate.
  - split; trivial.
Qed.

(** X9: [readStatusLine] fails with 'Invalid protocol' exactly when the
    text of the line up to its first space (the whole line when it has
    none) differs from ["GURT/1.0.0"]: the comparison is exact and is
    made before the status code is looked at.  Both ports, for lines of
    the ASCII wire format. *)
Theorem readStatusLine_checks_the_protocol_first :
  forall (decode : bytes -> string) (tok tail : string),
    (forall s, ascii_string s = true -> decode (wire_bytes s) = s) ->
    ascii_string (tok ++ tail) = true ->
    occurs " "%char tok = false ->
    first_is (fun c => negb (Ascii.eqb c " "%char)) tail = false ->
    (forall r : Web.BufferedReader,
        Web.wf r ->
        next_line (Web.unread r) (tok ++ tail) ->
        fst (Web.readStatusLine decode r) = Threw Invalid_protocol
        <-> tok <> GURT_VERSION)
    /\ (forall r : Node.BufferedReader,
           Node.wf r ->
           next_line (Node.unread r) (tok ++ tail) ->
           fst (Node.readStatusLine r) = Threw Invalid_protocol
           <-> tok <> GURT_VERSION).
Proof.
  intros decode tok tail Hdec Hasc Htok Htail. split; intros r Hwf Hn.
  - destruct (web_reads_line r _ Hwf Hn) as (r1 & E & _).
    unfold Web.readStatusLine. rewrite E. cbn [fst].
    apply statusLine_of_protocol; auto.
  - destruct (node_reads_line r _ Hwf Hn) as (r1 & E & _).
    unfold Node.readStatusLine. rewrite E. cbn [fst].
    apply statusLine_of_protocol; auto using node_toString_ascii_wire.
Qed.

Lemma readStatusLine_checks_the_protocol_first_witness :
  fst (Web.readStatusLine Node.toString_ascii
         (Web.new_BufferedReader [wire_bytes "gurt/1.0.0 200 OK"; CRLF]))
  = Threw Invalid_protocol
  <-> "gurt/1.0.0"%string <> GURT_VERSION.
Proof.
  refine (proj1 (readStatusLine_checks_the_protocol_first Node.toString_ascii
                   "gurt/1.0.0" " 200 OK" node_toString_ascii_wire _ _ _)
            (Web.new_BufferedReader [wire_bytes "gurt/1.0.0 200 OK"; CRLF]) _ _).
  - reflexivity.
  - reflexivity.
  - reflexivity.
  - intros H; discriminate H.
  - split; [apply indexOfCRLF_found |]; reflexivity.
Defined.

(** ** Header names and values as handed out *)

Lemma trimEnd_fixed (t : string) :
  last_is isWhiteSpace t = false -> trimEnd t = t.
Proof.
  induction t as [| c t IH]; [reflexivity |].
  destruct t as [| d t'].
  - cbn. intros ->. reflexivity.
  - intros H. change (last_is isWhiteSpace (String c (String d t')))
      with (last_is isWhiteSpace (String d t')) in H.
    change (trimEnd (String c (String d t')))
      with (match trimEnd (String d t') with
            | EmptyString => if isWhiteSpace c then EmptyString else String c EmptyString
            | t => String c t
            end).
    rewrite (IH H). reflexivity.
Qed.

Lemma trimStart_fixed (t : string) :
  first_is isWhiteSpace t = false -> trimStart t = t.
Proof. destruct t as [| c t]; cbn; [reflexivity | intros ->; reflexivity]. Qed.

Lemma trim_fixed (t : string) :
  first_is isWhiteSpace t = false ->
  last_is isWhiteSpace t = false ->
  trim t = t.
Proof.
  intros Hf Hl. unfold trim. rewrite (trimStart_fixed t Hf). apply trimEnd_fixed, Hl.
Qed.

Lemma trim_trim (s : string) : trim (trim s) = trim s.
Proof.
  destruct (trim_spec s) as (l & r & _ & _ & _ & Hf & Hl).
  apply trim_fixed; assumption.
Qed.

Lemma lower_white (c : ascii) : isWhiteSpace (lower c) = isWhiteSpace c.
Proof. destruct c as [[] [] [] [] [] [] [] []]; reflexivity. Qed.

Lemma lower_lower (c : ascii) : lower (lower c) = lower c.
Proof. destruct c as [[] [] [] [] [] [] [] []]; reflexivity. Qed.

Lemma lower_colon (c : ascii) : Ascii.eqb (lower c) ":"%char = Ascii.eqb c ":"%char.
Proof. destruct c as [[] [] [] [] [] [] [] []]; reflexivity. Qed.

Lemma toLowerCase_first (s : string) :
  first_is isWhiteSpace (toLowerCase s) = first_is isWhiteSpace s.
Proof. destruct s; cbn; [reflexivity | apply lower_white]. Qed.

Lemma toLowerCase_last (s : string) :
  last_is isWhiteSpace (toLowerCase s) = last_is isWhiteSpace s.
Proof.
  induction s as [| c s IH]; [reflexivity |].
  destruct s as [| d s']; [cbn; apply lower_white |].
  exact IH.
Qed.

Lemma toLowerCase_twice (s : string) : toLowerCase (toLowerCase s) = toLowerCase s.
Proof.
  induction s as [| c s IH]; cbn; [reflexivity |]. rewrite lower_lower, IH. reflexivity.
Qed.

Lemma toLowerCase_occurs_colon (s : string) :
  occurs ":"%char (toLowerCase s) = occurs ":"%char s.
Proof.
  induction s as [| c s IH]; cbn; [reflexivity |]. rewrite lower_colon, IH. reflexivity.
Qed.

Lemma occurs_app (c : ascii) (a b : string) :
  occurs c (a ++ b) = occurs c a || occurs c b.
Proof.
  induction a as [| x a IH]; cbn; [reflexivity |]. rewrite IH. apply orb_assoc.
Qed.

Lemma trim_occurs (c : ascii) (s : string) :
  occurs c s = false -> occurs c (trim s) = false.
Proof.
  destruct (trim_spec s) as (l & r & E & _). intros H.
  rewrite E, !occurs_app in H.
  apply orb_false_iff in H. destruct H as [_ H].
  apply orb_false_iff in H. apply H.
Qed.

Lemma slice_before_first (c : ascii) (s : string) :
  (0 <= indexOf c s)%Z ->
  occurs c (str_slice_to (Z.to_nat (indexOf c s)) s) = false.
Proof.
  intros Hi. unfold indexOf in *.
  destruct (occurs c s) eqn:Ho.
  - destruct (first_occurrence c s Ho) as (pre & post & -> & Hpre).
    rewrite indexOf_from_first by exact Hpre.
    replace (Z.to_nat (0 + Z.of_nat (String.length pre))) with (String.length pre) by lia.
    rewrite str_slice_to_app. exact Hpre.
  - rewrite indexOf_from_without in Hi by exact Ho. lia.
Qed.

Lemma header_of_normalised (decode : bytes -> string) (b : bytes) (h : HeaderResult) :
  header_of decode b = Returned (Some h) -> normalised h.
Proof.
  unfold header_of. cbv zeta.
  destruct (List.length b =? 2); [discriminate |].
  destruct (Z.ltb_spec (indexOf ":"%char (decode (slice_to (List.length b - 2) b))) 0) as [Hi | Hi];
    [discriminate |].
  intros H. injection H as <-. unfold normalised. cbn [name value].
  destruct (trim_spec (str_slice_to
                         (Z.to_nat (indexOf ":"%char (decode (slice_to (List.length b - 2) b))))
                         (decode (slice_to (List.length b - 2) b))))
    as (l & r & _ & _ & _ & Hf & Hl).
  repeat split.
  - apply toLowerCase_twice.
  - apply trim_fixed; [rewrite toLowerCase_first | rewrite toLowerCase_last]; assumption.
  - rewrite toLowerCase_occurs_colon. apply trim_occurs, slice_before_first, Hi.
  - apply trim_trim.
Qed.

(** X10: every header [readHeader] returns is normalised, whatever the
    line and the decoder: the name is in lower case, has no white space
    at either end and no colon, and the value has no white space at
    either end.  Both ports. *)
Theorem readHeader_returns_normalised_headers :
  forall (decode : bytes -> string) (h : HeaderResult),
    (forall r : Web.BufferedReader,
        fst (Web.readHeader decode r) = Returned (Some h) -> normalised h)
    /\ (forall r : Node.BufferedReader,
           fst (Node.readHeader r) = Returned (Some h) -> normalised h).
Proof.
  intros decode h. split; intros r.
  - unfold Web.readHeader.
    destruct (Web.readUntilCRLF r) as [[b | e |] r1]; cbn [fst]; try discriminate.
    apply header_of_normalised.
  - unfold Node.readHeader.
    destruct (Node.readUntilCRLF r) as [[b | e |] r1]; cbn [fst]; try discriminate.
    apply header_of_normalised.
Qed.

Lemma readHeader_returns_normalised_headers_witness :
  normalised {| name := "content-type"; value := "text/plain; q=1"; totalBytes := 36 |}.
Proof.
  apply (proj2 (readHeader_returns_normalised_headers Node.toString_ascii
                  {| name := "content-type"; value := "text/plain; q=1"; totalBytes := 36 |})
           (Node.new_BufferedReader [wire_bytes "  Content-Type :  text/plain; q=1 "; CRLF])).
  reflexivity.
Defined.
(** * Reading a body *)

Lemma copy_into_length (data target : bytes) :
  List.length data <= List.length target ->
  List.length (copy_into data target) = List.length target.
Proof.
  intros H. unfold copy_into. rewrite length_app, length_skipn. lia.
Qed.

Lemma copy_into_firstn (data target : bytes) :
  firstn (List.length data) (copy_into data target) = data.
Proof.
  unfold copy_into. rewrite firstn_app, firstn_all, Nat.sub_diag. cbn. apply app_nil_r.
Qed.

Lemma copy_into_skipn (data target : bytes) :
  skipn (List.length data) (copy_into data target) = skipn (List.length data) target.
Proof.
  unfold copy_into. rewrite skipn_app, skipn_all, Nat.sub_diag. reflexivity.
Qed.

Lemma copy_into_full (data target : bytes) :
  List.length data = List.length target -> copy_into data target = data.
Proof.
  intros H. unfold copy_into. rewrite skipn_all2 by lia. apply app_nil_r.
Qed.

Lemma web_readAvailable_prefix (n : nat) (r : Web.BufferedReader) :
  Web.wf r ->
  exists out r',
    Web.readAvailable n r = (Returned out, r')
    /\ List.length out <= n
    /\ out ++ Web.unread r' = Web.unread r
    /\ Web.wf r'.
Proof.
  intros Hwf.
  destruct (Web.readAvailable n r) as [res r'] eqn:E.
  destruct (web_perform_conserves (ReadAvailable n) r r' res Hwf E)
    as (Hwf' & _ & d & Hd & Hb).
  unfold Web.readAvailable in E. cbv zeta in E. injection E as <- Er.
  eexists. exists r'. split; [reflexivity |]. repeat split; trivial.
  - unfold slice_to. rewrite length_firstn. lia.
  - cbn [bytes_of] in Hb. unfold Web.unread at 1 2.
    rewrite Hd, concat_app, !app_assoc, Hb. reflexivity.
Qed.

Lemma node_readAvailable_prefix (n : nat) (r : Node.BufferedReader) :
  Node.wf r ->
  exists out r',
    Node.readAvailable n r = (Returned out, r')
    /\ List.length out <= n
    /\ out ++ Node.unread r' = Node.unread r
    /\ Node.wf r'.
Proof.
  intros Hwf.
  destruct (node_readAvailable_returns n r Hwf) as (out & r' & E & _).
  destruct (node_perform_conserves (ReadAvailable n) r r' (Returned out) Hwf E)
    as (Hwf' & d & Hd & Hb).
  exists out, r'. repeat split; trivial.
  - unfold Node.readAvailable in E.
    destruct (if List.length (Node.buf r) =? 0 then _ else _) as [flag r1].
    destruct (negb flag); [discriminate |]. cbv zeta in E. injection E as <- _.
    unfold slice_to. rewrite length_firstn. lia.
  - cbn [bytes_of] in Hb. unfold Node.unread at 1 2.
    rewrite Hd, concat_app, !app_assoc, Hb. reflexivity.
Qed.

(** X11: [readBody] always returns, and what it copies fits the caller's
    buffer: the count is at most the buffer's length (so the copy is never
    out of range), the buffer keeps its length, its first [count] bytes
    are the next unread bytes of the stream, which are consumed, and the
    bytes after them are untouched.  Both ports. *)
Theorem readBody_fills_a_prefix_of_the_buffer :
  forall target : bytes,
    (forall r : Web.BufferedReader,
        Web.wf r ->
        exists (count : nat) (target' : bytes) (r' : Web.BufferedReader),
          Web.readBody target r = (Returned (count, target'), r')
          /\ count <= List.length target
          /\ List.length target' = List.length target
          /\ firstn count target' ++ Web.unread r' = Web.unread r
          /\ skipn count target' = skipn count target)
    /\ (forall r : Node.BufferedReader,
           Node.wf r ->
           exists (count : nat) (target' : bytes) (r' : Node.BufferedReader),
             Node.readBody target r = (Returned (count, target'), r')
             /\ count <= List.length target
             /\ List.length target' = List.length target
             /\ firstn count target' ++ Node.unread r' = Node.unread r
             /\ skipn count target' = skipn count target).
Proof.
  intros target. split; intros r Hwf.
  - destruct (web_readAvailable_prefix (List.length target) r Hwf)
      as (out & r' & E & Hl & Hu & _).
    unfold Web.readBody. rewrite E.
    exists (List.length out), (copy_into out target), r'.
    rewrite copy_into_firstn, copy_into_skipn, (copy_into_length _ _ Hl).
    repeat split; trivial.
  - destruct (node_readAvailable_prefix (List.length target) r Hwf)
      as (out & r' & E & Hl & Hu & _).
    unfold Node.readBody. rewrite E.
    exists (List.length out), (copy_into out target), r'.
    rewrite copy_into_firstn, copy_into_skipn, (copy_into_length _ _ Hl).
    repeat split; trivial.
Qed.

Lemma readBody_fills_a_prefix_of_the_buffer_witness :
  exists (count : nat) (target' : bytes) (r' : Web.BufferedReader),
    Web.readBody (repeat x00 4)
      (Web.new_BufferedReader [wire_bytes "ab"; wire_bytes "cdefg"])
    = (Returned (count, target'), r')
    /\ count <= List.length (repeat x00 4)
    /\ List.length target' = List.length (repeat x00 4)
    /\ firstn count target' ++ Web.unread r'
       = Web.unread (Web.new_BufferedReader [wire_bytes "ab"; wire_bytes "cdefg"])
    /\ skipn count target' = skipn count (repeat x00 4).
Proof.
  apply (proj1 (readBody_fills_a_prefix_of_the_buffer (repeat x00 4))).
  intros H; discriminate H.
Defined.

(** X12: [readBodyExact] fills the whole of the caller's buffer or
    nothing.  With at least as many bytes left in the stream as the
    buffer holds, it returns with the buffer equal to the next unread
    bytes, which are consumed.  With fewer, the web port throws
    'Unexpected EOF'; the Node port throws it only when no byte at all
    is left, and otherwise never settles. *)
Theorem readBodyExact_fills_the_buffer_or_fails :
  forall target : bytes,
    (forall r : Web.BufferedReader,
        Web.wf r ->
        (List.length target <= List.length (Web.unread r) ->
         exists r',
           Web.readBodyExact target r
           = (Returned (firstn (List.length target) (Web.unread r)), r')
           /\ Web.unread r' = skipn (List.length target) (Web.unread r))
        /\ (List.length (Web.unread r) < List.length target ->
            fst (Web.readBodyExact target r) = Threw Unexpected_EOF))
    /\ (forall r : Node.BufferedReader,
           Node.wf r ->
           (List.length target <= List.length (Node.unread r) ->
            exists r',
              Node.readBodyExact target r
              = (Returned (firstn (List.length target) (Node.unread r)), r')
              /\ Node.unread r' = skipn (List.length target) (Node.unread r))
           /\ (List.length (Node.unread r) < List.length target ->
               fst (Node.readBodyExact target r)
               = match Node.unread r with
                 | [] => Threw Unexpected_EOF
                 | _ :: _ => Pending
                 end)).
Proof.
  intros target. split; intros r Hwf; split; intros Hlen.
  - destruct (web_readExact_enough _ r Hwf Hlen) as (r' & E & U & _).
    unfold Web.readBodyExact. rewrite E. exists r'. split; [| exact U].
    rewrite copy_into_full; [reflexivity |]. rewrite length_firstn. lia.
  - unfold Web.readBodyExact. rewrite (web_readExact_short _ r Hwf Hlen). reflexivity.
  - destruct (node_readExact_enough _ r Hwf Hlen) as (r' & E & U & _).
    unfold Node.readBodyExact. rewrite E. exists r'. split; [| exact U].
    rewrite copy_into_full; [reflexivity |]. rewrite length_firstn. lia.
  - unfold Node.readBodyExact. rewrite (node_readExact_short _ r Hwf Hlen).
    destruct (Node.unread r); reflexivity.
Qed.

Lemma readBodyExact_fills_the_buffer_or_fails_witness :
  exists r',
    Web.readBodyExact (repeat x00 3)
      (Web.new_BufferedReader [wire_bytes "ab"; wire_bytes "cde"])
    = (Returned (wire_bytes "abc"), r')
    /\ Web.unread r' = wire_bytes "de".
Proof.
  refine (proj1 (proj1 (readBodyExact_fills_the_buffer_or_fails (repeat x00 3))
                   (Web.new_BufferedReader [wire_bytes "ab"; wire_bytes "cde"]) _) _).
  - intros H; discriminate H.
  - cbn. lia.
Defined.
(** * Numbers in decimal *)

Lemma string_of_uint_digits (d : Decimal.uint) :
  all_chars is_digit (NilEmpty.string_of_uint d) = true.
Proof. induction d; cbn [NilEmpty.string_of_uint all_chars]; trivial. Qed.

Lemma parse_digits_uint (d : Decimal.uint) :
  forall acc : nat,
    parse_digits (Z.of_nat acc) (NilEmpty.string_of_uint d)
    = Z.of_nat (Nat.of_uint_acc d acc).
Proof.
  induction d; intros acc;
    cbn [NilEmpty.string_of_uint parse_digits Nat.of_uint_acc]; trivial;
    match goal with
    | |- context [digit_of ?c] =>
        let v := eval vm_compute in (digit_of c) in change (digit_of c) with v
    end;
    cbv iota; rewrite <- IHd; f_equal; rewrite Nat.tail_mul_spec; lia.
Qed.

Lemma decimal_digits (n : nat) : all_chars is_digit (decimal n) = true.
Proof. apply string_of_uint_digits. Qed.

Lemma decimal_not_empty (n : nat) : decimal n <> EmptyString.
Proof.
  unfold decimal. intros E.
  assert (H : Nat.to_uint n = Decimal.Nil).
  { destruct (Nat.to_uint n); try discriminate E. reflexivity. }
  pose proof (Unsigned.of_to n) as Hn. rewrite H in Hn. cbn in Hn. subst n.
  discriminate H.
Qed.

Lemma parse_decimal (n : nat) : parse_digits 0 (decimal n) = Z.of_nat n.
Proof.
  unfold decimal. change 0%Z with (Z.of_nat 0).
  rewrite (parse_digits_uint (Nat.to_uint n) 0).
  f_equal. apply Unsigned.of_to.
Qed.

Lemma parseInt_decimal (n : nat) :
  (Z.of_nat n <= 2 ^ 53)%Z ->
  parseInt_string (decimal n) = Num (Z.of_nat n).
Proof.
  intros Hn.
  rewrite (parseInt_string_prefix (decimal n) NoSign (decimal n)).
  - assert (Hv : decimal_value (decimal n) = Z.of_nat n).
    { pose proof (parse_digits_run (decimal n) 0 EmptyString (decimal_digits n) eq_refl)
        as H.
      rewrite str_app_nil_r, parse_decimal in H. lia. }
    rewrite Hv, (to_number_exact NoSign (Z.of_nat n)) by (try discriminate; lia).
    cbn [sign_value]. f_equal. lia.
  - exists EmptyString, EmptyString. cbn [sign_string append].
    rewrite str_app_nil_r. repeat split.
    + apply decimal_not_empty.
    + apply decimal_digits.
Qed.

Lemma digits_first (f : ascii -> bool) (s : string) :
  (forall c, is_digit c = true -> f c = false) ->
  all_chars is_digit s = true -> first_is f s = false.
Proof.
  intros Hf. destruct s as [| c s]; cbn; [reflexivity |].
  intros H. apply andb_true_iff in H. apply Hf, H.
Qed.

Lemma digits_last (f : ascii -> bool) (s : string) :
  (forall c, is_digit c = true -> f c = false) ->
  all_chars is_digit s = true -> last_is f s = false.
Proof.
  intros Hf. induction s as [| c s IH]; [reflexivity |].
  cbn [all_chars]. intros H. apply andb_true_iff in H. destruct H as [Hc Hs].
  destruct s as [| d s']; [cbn; apply Hf, Hc |].
  exact (IH Hs).
Qed.

Lemma digits_without (x : ascii) (s : string) :
  is_digit x = false ->
  all_chars is_digit s = true -> occurs x s = false.
Proof.
  intros Hx. induction s as [| c s IH]; [reflexivity |].
  cbn. intros H. apply andb_true_iff in H. destruct H as [Hc Hs].
  rewrite (IH Hs), orb_false_r. apply Ascii.eqb_neq. intros ->. congruence.
Qed.

Lemma digit_is_ascii (c : ascii) : is_digit c = true -> ascii_char c = true.
Proof. destruct c as [[] [] [] [] [] [] [] []]; cbn; trivial. Qed.

Lemma digits_ascii (s : string) :
  all_chars is_digit s = true -> ascii_string s = true.
Proof.
  induction s as [| c s IH]; [reflexivity |].
  cbn. intros H. apply andb_true_iff in H. destruct H as [Hc Hs].
  rewrite (digit_is_ascii c Hc), (IH Hs). reflexivity.
Qed.

Lemma trim_decimal (n : nat) : trim (decimal n) = decimal n.
Proof.
  apply trim_fixed.
  - apply digits_first; [apply not_white_digit | apply decimal_digits].
  - apply digits_last; [apply not_white_digit | apply decimal_digits].
Qed.

(** * What the client writes, read back *)

Lemma encode_line (encode : string -> bytes) (s : string) :
  (forall s, ascii_string s = true -> encode s = wire_bytes s) ->
  ascii_string s = true ->
  encode (s ++ crlf)%string = wire_bytes s ++ CRLF.
Proof.
  intros Henc Hs. rewrite Henc.
  - rewrite wire_bytes_app, wire_bytes_crlf. reflexivity.
  - rewrite ascii_string_app, Hs. reflexivity.
Qed.

Lemma head_chunks_bytes (encode : string -> bytes) (line : string)
      (hs : list (string * string)) (bodies : list bytes) :
  (forall s, ascii_string s = true -> encode s = wire_bytes s) ->
  ascii_string line = true ->
  Forall good_header hs ->
  List.concat ([encode (line ++ crlf)%string]
               ++ map (fun h => encode (header_text h ++ crlf)%string) hs
               ++ [encode crlf] ++ bodies)
  = wire_bytes line ++ CRLF
    ++ lines_bytes (map header_text hs) ++ CRLF ++ List.concat bodies.
Proof.
  intros Henc Hl Hgood. cbn [app List.concat].
  rewrite (encode_line encode line Henc Hl), <- app_assoc. do 2 f_equal.
  induction Hgood as [| h hs (_ & _ & Ha) _ IH]; cbn [map app List.concat lines_bytes].
  - rewrite (Henc crlf eq_refl), wire_bytes_crlf. reflexivity.
  - rewrite (encode_line encode _ Henc Ha), IH, <- !app_assoc. reflexivity.
Qed.

Lemma method_string_no_LF (m : Method) : occurs LF_char (method_string m) = false.
Proof. destruct m; reflexivity. Qed.

Lemma request_line_good (m : Method) (path : string) :
  ascii_string path = true ->
  occurs LF_char path = false ->
  ascii_string (method_string m ++ " " ++ path ++ " " ++ GURT_VERSION) = true
  /\ occurs LF_char (method_string m ++ " " ++ path ++ " " ++ GURT_VERSION) = false.
Proof.
  intros Ha Hl. split.
  - rewrite !ascii_string_app, method_string_ascii, Ha. reflexivity.
  - rewrite !occurs_app, method_string_no_LF, Hl. reflexivity.
Qed.

Lemma written_header_good (n v : string) :
  occurs ":"%char n = false ->
  ascii_string n = true -> occurs LF_char n = false ->
  ascii_string v = true -> occurs LF_char v = false ->
  good_header (n, String " "%char v).
Proof.
  intros Hc Han Hln Hav Hlv. unfold good_header, header_text. cbn [fst snd].
  change (n ++ String ":"%char (String " "%char v))%string
    with (n ++ (": " ++ v))%string.
  rewrite !occurs_app, !ascii_string_app, Han, Hln, Hav, Hlv. auto.
Qed.

(** The head of a request as the peer reads it: the request line by
    [readUntilCRLF], then the header block. *)
Lemma web_head_reads_back (decode : bytes -> string) (line : string)
      (hs : list (string * string)) (rest : bytes) (r : Web.BufferedReader) :
  (forall s, ascii_string s = true -> decode (wire_bytes s) = s) ->
  occurs LF_char line = false ->
  Forall good_header hs ->
  Web.wf r ->
  Web.unread r = wire_bytes line ++ CRLF ++ lines_bytes (map header_text hs) ++ CRLF ++ rest ->
  exists r1 r2,
    Web.readUntilCRLF r = (Returned (wire_bytes line ++ CRLF), r1)
    /\ Web.readHeader_times decode (S (List.length hs)) r1
       = (map header_read hs ++ [Returned None], r2)
    /\ Web.unread r2 = rest.
Proof.
  intros Hdec Hl Hgood Hwf Hu.
  destruct (web_reads_line r line Hwf) as (r1 & E1 & U1 & Hwf1).
  { rewrite Hu. apply next_line_intro, Hl. }
  rewrite Hu, skipn_line in U1.
  destruct (web_header_block decode hs Hdec Hgood rest r1 Hwf1 U1) as (r2 & E2 & U2 & _).
  exists r1, r2. repeat split; assumption.
Qed.

Lemma node_head_reads_back (line : string)
      (hs : list (string * string)) (rest : bytes) (r : Node.BufferedReader) :
  occurs LF_char line = false ->
  Forall good_header hs ->
  Node.wf r ->
  Node.unread r = wire_bytes line ++ CRLF ++ lines_bytes (map header_text hs) ++ CRLF ++ rest ->
  exists r1 r2,
    Node.readUntilCRLF r = (Returned (wire_bytes line ++ CRLF), r1)
    /\ Node.readHeader_times (S (List.length hs)) r1
       = (map header_read hs ++ [Returned None], r2)
    /\ Node.unread r2 = rest.
Proof.
  intros Hl Hgood Hwf Hu.
  destruct (node_reads_line r line Hwf) as (r1 & E1 & U1 & Hwf1).
  { rewrite Hu. apply next_line_intro, Hl. }
  rewrite Hu, skipn_line in U1.
  destruct (node_header_block hs Hgood rest r1 Hwf1 U1) as (r2 & E2 & U2 & _).
  exists r1, r2. repeat split; assumption.
Qed.

Lemma web_requestNoBody_head (encode : string -> bytes) (method : Method)
      (path host ua : string) (c : Web.GurtClient) :
  Web.writer (Web.client_writer (Web.requestNoBody encode method path host (Some ua) c))
  = Web.writer (Web.client_writer c)
    ++ [encode ((method_string method ++ " " ++ path ++ " " ++ GURT_VERSION) ++ crlf)%string]
    ++ map (fun h => encode (header_text h ++ crlf)%string)
         [("host", String " "%char host); ("user-agent", String " "%char ua)]%string
    ++ [encode crlf] ++ [].
Proof.
  rewrite web_requestNoBody_chunks, !str_app_assoc. reflexivity.
Qed.

Lemma node_requestNoBody_head (encode : string -> bytes) (method : Method)
      (path host ua : string) (c : Node.GurtClient) :
  Node.socket (Node.requestNoBody encode method path host (Some ua) c)
  = Node.socket c
    ++ [encode ((method_string method ++ " " ++ path ++ " " ++ GURT_VERSION) ++ crlf)%string]
    ++ map (fun h => encode (header_text h ++ crlf)%string)
         [("host", String " "%char host); ("user-agent", String " "%char ua)]%string
    ++ [encode crlf] ++ [].
Proof.
  rewrite node_requestNoBody_chunks, !str_app_assoc. reflexivity.
Qed.

(** X13: what [requestNoBody] writes is a head this library's own reader
    takes apart again.  For a path, host and user agent of the ASCII
    wire format without line feed, a reader over the bytes written (in
    whatever chunks they arrive) gives the request line to
    [readUntilCRLF], then to [readHeader] the header [host] with the host
    trimmed, the header [user-agent] with the agent trimmed, then [null],
    and nothing is left.  [handshake(host, agent)] writes what
    [requestNoBody(HANDSHAKE, "/", host, agent)] writes.  Both ports. *)
Theorem request_without_body_reads_back :
  forall (encode : string -> bytes) (decode : bytes -> string)
         (method : Method) (path host ua : string),
    (forall s, ascii_string s = true -> encode s = wire_bytes s) ->
    (forall s, ascii_string s = true -> decode (wire_bytes s) = s) ->
    ascii_string path = true -> occurs LF_char path = false ->
    ascii_string host = true -> occurs LF_char host = false ->
    ascii_string ua = true -> occurs LF_char ua = false ->
    (forall c : Web.GurtClient,
        exists chunks,
          Web.writer (Web.client_writer
                        (Web.requestNoBody encode method path host (Some ua) c))
          = Web.writer (Web.client_writer c) ++ chunks
          /\ forall r : Web.BufferedReader,
              Web.wf r ->
              Web.unread r = List.concat chunks ->
              exists r1 r2,
                Web.readUntilCRLF r
                = (Returned (wire_bytes (method_string method ++ " " ++ path
                                         ++ " " ++ GURT_VERSION) ++ CRLF), r1)
                /\ Web.readHeader_times decode 3 r1
                   = ([header_as_written "host" host;
                       header_as_written "user-agent" ua;
                       Returned None], r2)
                /\ Web.unread r2 = [])
    /\ (forall c : Node.GurtClient,
           exists chunks,
             Node.socket (Node.requestNoBody encode method path host (Some ua) c)
             = Node.socket c ++ chunks
             /\ forall r : Node.BufferedReader,
                 Node.wf r ->
                 Node.unread r = List.concat chunks ->
                 exists r1 r2,
                   Node.readUntilCRLF r
                   = (Returned (wire_bytes (method_string method ++ " " ++ path
                                            ++ " " ++ GURT_VERSION) ++ CRLF), r1)
                   /\ Node.readHeader_times 3 r1
                      = ([header_as_written "host" host;
                          header_as_written "user-agent" ua;
                          Returned None], r2)
                   /\ Node.unread r2 = [])
    /\ (forall c : Web.GurtClient,
           Web.handshake encode host ua c
           = Web.requestNoBody encode Handshake "/" host (Some ua) c)
    /\ (forall c : Node.GurtClient,
           Node.handshake encode host ua c
           = Node.requestNoBody encode Handshake "/" host (Some ua) c).
Proof.
  intros encode decode method path host ua Henc Hdec Hap Hlp Hah Hlh Hau Hlu.
  destruct (request_line_good method path Hap Hlp) as [Hla Hll].
  assert (Hgood : Forall good_header
                    [("host", String " "%char host);
                     ("user-agent", String " "%char ua)]%string).
  { repeat constructor; apply written_header_good; trivial. }
  split; [| split; [| split]].
  - intros c. eexists. split; [apply web_requestNoBody_head |].
    intros r Hwf Hu.
    rewrite (head_chunks_bytes encode _ _ [] Henc Hla Hgood) in Hu.
    exact (web_head_reads_back decode _ _ [] r Hdec Hll Hgood Hwf Hu).
  - intros c. eexists. split; [apply node_requestNoBody_head |].
    intros r Hwf Hu.
    rewrite (head_chunks_bytes encode _ _ [] Henc Hla Hgood) in Hu.
    exact (node_head_reads_back _ _ [] r Hll Hgood Hwf Hu).
  - reflexivity.
  - reflexivity.
Qed.

Lemma request_without_body_reads_back_witness :
  exists r1 r2,
    Web.readUntilCRLF
      (Web.new_BufferedReader
         [wire_bytes "GET /a GURT/1.0.0"; CRLF ++ wire_bytes "host: h.example";
          CRLF ++ wire_bytes "user-agent: t/1" ++ CRLF ++ CRLF])
    = (Returned (wire_bytes "GET /a GURT/1.0.0" ++ CRLF), r1)
    /\ Web.readHeader_times Node.toString_ascii 3 r1
       = ([header_as_written "host" "h.example";
           header_as_written "user-agent" "t/1";
           Returned None], r2)
    /\ Web.unread r2 = [].
Proof.
  destruct (proj1 (request_without_body_reads_back wire_bytes Node.toString_ascii
                     Get "/a" "h.example" "t/1"
                     (fun s _ => eq_refl) node_toString_ascii_wire
                     eq_refl eq_refl eq_refl eq_refl eq_refl eq_refl)
              {| Web.client_transport := {| Web.readable := []; Web.writable := [] |};
                 Web.client_reader := 0;
                 Web.client_writer := {| Web.writer := [] |} |})
    as (chunks & Hc & Hr).
  cbn in Hc. subst chunks.
  apply Hr.
  - intros H; discriminate H.
  - reflexivity.
Defined.

(** ** A request with a body *)

Lemma web_body_writes (encode : string -> bytes) (data : list (string + bytes)) :
  forall c : Web.GurtClient,
    Web.writer (Web.client_writer
                  (fold_left (fun c d => Web.body_write encode d c) data c))
    = Web.writer (Web.client_writer c) ++ map (chunk_of encode) data.
Proof.
  induction data as [| d data IH]; intros c; cbn [fold_left map].
  - symmetry. apply app_nil_r.
  - rewrite IH. unfold Web.body_write, Web.write. cbn [Web.client_writer Web.writer].
    rewrite <- app_assoc. reflexivity.
Qed.

Lemma node_body_writes (encode : string -> bytes) (data : list (string + bytes)) :
  forall c : Node.GurtClient,
    Node.socket (fold_left (fun c d => Node.body_write encode d c) data c)
    = Node.socket c ++ map (chunk_of encode) data.
Proof.
  induction data as [| d data IH]; intros c; cbn [fold_left map].
  - symmetry. apply app_nil_r.
  - rewrite IH. unfold Node.body_write. cbn [Node.socket].
    rewrite <- app_assoc. reflexivity.
Qed.

Lemma web_requestWithBody_head (encode : string -> bytes) (method : Method)
      (path host ua : string) (n : nat) (ct : option string) (c : Web.GurtClient) :
  Web.writer (Web.client_writer
                (Web.requestWithBody encode method path host n (Some ua) ct c))
  = Web.writer (Web.client_writer c)
    ++ [encode ((method_string method ++ " " ++ path ++ " " ++ GURT_VERSION) ++ crlf)%string]
    ++ map (fun h => encode (header_text h ++ crlf)%string)
         (("host", String " "%char host)
            :: match ct with
               | Some (String a t) => [("content-type", String " "%char (String a t))]
               | _ => []
               end
            ++ [("content-length", String " "%char (decimal n));
                ("user-agent", String " "%char ua)])%string
    ++ [encode crlf].
Proof.
  unfold Web.requestWithBody, Web.writeAll, Web.write.
  destruct ct as [[| a t] |]; cbn [truthy Web.client_writer Web.writer map app];
    rewrite <- !app_assoc, !str_app_assoc; reflexivity.
Qed.

Lemma node_requestWithBody_head (encode : string -> bytes) (method : Method)
      (path host ua : string) (n : nat) (ct : option string) (c : Node.GurtClient) :
  Node.socket (Node.requestWithBody encode method path host n (Some ua) ct c)
  = Node.socket c
    ++ [encode ((method_string method ++ " " ++ path ++ " " ++ GURT_VERSION) ++ crlf)%string]
    ++ map (fun h => encode (header_text h ++ crlf)%string)
         (("host", String " "%char host)
            :: match ct with
               | Some (String a t) => [("content-type", String " "%char (String a t))]
               | _ => []
               end
            ++ [("content-length", String " "%char (decimal n));
                ("user-agent", String " "%char ua)])%string
    ++ [encode crlf].
Proof.
  unfold Node.requestWithBody, Node.writeAll.
  destruct ct as [[| a t] |]; cbn [truthy Node.socket map app];
    rewrite <- !app_assoc, !str_app_assoc; reflexivity.
Qed.

Lemma body_headers_good (host ua : string) (n : nat) (ct : option string) :
  ascii_string host = true -> occurs LF_char host = false ->
  ascii_string ua = true -> occurs LF_char ua = false ->
  (forall t, ct = Some t -> ascii_string t = true /\ occurs LF_char t = false) ->
  Forall good_header
    (("host", String " "%char host)
       :: match ct with
          | Some (String a t) => [("content-type", String " "%char (String a t))]
          | _ => []
          end
       ++ [("content-length", String " "%char (decimal n));
           ("user-agent", String " "%char ua)])%string.
Proof.
  intros Hah Hlh Hau Hlu Hct.
  assert (Hn : good_header ("content-length", String " "%char (decimal n))%string).
  { apply written_header_good; trivial.
    - apply digits_ascii, decimal_digits.
    - apply digits_without; [reflexivity | apply decimal_digits]. }
  assert (Hu : good_header ("user-agent", String " "%char ua)%string)
    by (apply written_header_good; trivial).
  apply Forall_cons; [apply written_header_good; trivial |].
  destruct ct as [[| a t] |]; cbn [app].
  - apply Forall_cons; [exact Hn | apply Forall_cons; [exact Hu | apply Forall_nil]].
  - destruct (Hct _ eq_refl) as [Ha Hl].
    apply Forall_cons; [apply written_header_good; trivial |].
    apply Forall_cons; [exact Hn | apply Forall_cons; [exact Hu | apply Forall_nil]].
  - apply Forall_cons; [exact Hn | apply Forall_cons; [exact Hu | apply Forall_nil]].
Qed.

(** X14: a request with a body, as this library's own reader takes it
    apart.  [requestWithBody] writes the request line, then the headers
    [host], [content-type] (only when a content type is given and is not
    the empty string), [content-length] and [user-agent], then the empty
    line; the body writer adds its data after them, bytes as they are and
    strings encoded, whatever content length was announced.  For
    arguments of the ASCII wire format without line feed, a reader over
    the bytes written gives the request line, those headers in that
    order with their values trimmed, then [null], and is left with
    exactly the body data; the value of [content-length] reads back, by
    [parseInt], as the number given.  The content length is a natural
    number up to [2^53], which is written with all its digits.  Both
    ports. *)
Theorem request_with_body_reads_back :
  forall (encode : string -> bytes) (decode : bytes -> string)
         (method : Method) (path host ua : string) (n : nat)
         (ct : option string) (data : list (string + bytes)),
    (forall s, ascii_string s = true -> encode s = wire_bytes s) ->
    (forall s, ascii_string s = true -> decode (wire_bytes s) = s) ->
    ascii_string path = true -> occurs LF_char path = false ->
    ascii_string host = true -> occurs LF_char host = false ->
    ascii_string ua = true -> occurs LF_char ua = false ->
    (forall t, ct = Some t -> ascii_string t = true /\ occurs LF_char t = false) ->
    (Z.of_nat n <= 2 ^ 53)%Z ->
    (forall c : Web.GurtClient,
        exists chunks,
          Web.writer
            (Web.client_writer
               (fold_left (fun c d => Web.body_write encode d c) data
                  (Web.requestWithBody encode method path host n (Some ua) ct c)))
          = Web.writer (Web.client_writer c) ++ chunks
          /\ forall r : Web.BufferedReader,
              Web.wf r ->
              Web.unread r = List.concat chunks ->
              exists r1 r2,
                Web.readUntilCRLF r
                = (Returned (wire_bytes (method_string method ++ " " ++ path
                                         ++ " " ++ GURT_VERSION) ++ CRLF), r1)
                /\ Web.readHeader_times decode (if truthy ct then 5 else 4) r1
                   = (header_as_written "host" host
                        :: match ct with
                           | Some (String a t) =>
                               [header_as_written "content-type" (String a t)]
                           | _ => []
                           end
                        ++ [header_as_written "content-length" (decimal n);
                            header_as_written "user-agent" ua;
                            Returned None], r2)
                /\ Web.unread r2 = List.concat (map (chunk_of encode) data))
    /\ (forall c : Node.GurtClient,
           exists chunks,
             Node.socket
               (fold_left (fun c d => Node.body_write encode d c) data
                  (Node.requestWithBody encode method path host n (Some ua) ct c))
             = Node.socket c ++ chunks
             /\ forall r : Node.BufferedReader,
                 Node.wf r ->
                 Node.unread r = List.concat chunks ->
                 exists r1 r2,
                   Node.readUntilCRLF r
                   = (Returned (wire_bytes (method_string method ++ " " ++ path
                                            ++ " " ++ GURT_VERSION) ++ CRLF), r1)
                   /\ Node.readHeader_times (if truthy ct then 5 else 4) r1
                      = (header_as_written "host" host
                           :: match ct with
                              | Some (String a t) =>
                                  [header_as_written "content-type" (String a t)]
                              | _ => []
                              end
                           ++ [header_as_written "content-length" (decimal n);
                               header_as_written "user-agent" ua;
                               Returned None], r2)
                   /\ Node.unread r2 = List.concat (map (chunk_of encode) data))
    /\ parseInt (Some (trim (decimal n))) = Num (Z.of_nat n).
Proof.
  intros encode decode method path host ua n ct data
         Henc Hdec Hap Hlp Hah Hlh Hau Hlu Hct Hn.
  destruct (request_line_good method path Hap Hlp) as [Hla Hll].
  pose proof (body_headers_good host ua n ct Hah Hlh Hau Hlu Hct) as Hgood.
  split; [| split].
  - intros c. eexists. split.
    { rewrite web_body_writes, web_requestWithBody_head, <- !app_assoc. reflexivity. }
    intros r Hwf Hu.
    rewrite (head_chunks_bytes encode _ _ _ Henc Hla Hgood) in Hu.
    destruct (web_head_reads_back decode _ _ _ r Hdec Hll Hgood Hwf Hu)
      as (r1 & r2 & E1 & E2 & U2).
    exists r1, r2. repeat split; trivial.
    destruct ct as [[| a t] |]; exact E2.
  - intros c. eexists. split.
    { rewrite node_body_writes, node_requestWithBody_head, <- !app_assoc. reflexivity. }
    intros r Hwf Hu.
    rewrite (head_chunks_bytes encode _ _ _ Henc Hla Hgood) in Hu.
    destruct (node_head_reads_back _ _ _ r Hll Hgood Hwf Hu)
      as (r1 & r2 & E1 & E2 & U2).
    exists r1, r2. repeat split; trivial.
    destruct ct as [[| a t] |]; exact E2.
  - rewrite trim_decimal. apply parseInt_decimal, Hn.
Qed.

Lemma request_with_body_reads_back_witness :
  parseInt (Some (trim (decimal 5))) = Num 5
  /\ exists chunks,
       Node.socket
         (fold_left (fun c d => Node.body_write wire_bytes d c)
            [inl "he"%string; inr (wire_bytes "llo")]
            (Node.requestWithBody wire_bytes Post "/p" "h.example" 5 (Some "t/1"%string)
               (Some "text/plain"%string) {| Node.socket := []; Node.reader := 0 |}))
       = [] ++ chunks
       /\ forall r : Node.BufferedReader,
           Node.wf r ->
           Node.unread r = List.concat chunks ->
           exists r1 r2,
             Node.readUntilCRLF r
             = (Returned (wire_bytes "POST /p GURT/1.0.0" ++ CRLF), r1)
             /\ Node.readHeader_times 5 r1
                = ([header_as_written "host" "h.example";
                    header_as_written "content-type" "text/plain";
                    header_as_written "content-length" "5";
                    header_as_written "user-agent" "t/1";
                    Returned None], r2)
             /\ Node.unread r2 = wire_bytes "hello".
Proof.
  destruct (request_with_body_reads_back wire_bytes Node.toString_ascii
              Post "/p" "h.example" "t/1" 5 (Some "text/plain"%string)
              [inl "he"%string; inr (wire_bytes "llo")]
              (fun s _ => eq_refl) node_toString_ascii_wire
              eq_refl eq_refl eq_refl eq_refl eq_refl eq_refl) as (_ & Hn & Hp).
  - intros t H. injection H as <-. split; reflexivity.
  - lia.
  - split; [exact Hp |]. exact (Hn {| Node.socket := []; Node.reader := 0 |}).
Defined.
(** * Calls composed *)

(** ** A whole response *)

Lemma status_line_of_decimal (decode : bytes -> string) (code : nat) (tail : string) :
  (forall s, ascii_string s = true -> decode (wire_bytes s) = s) ->
  (Z.of_nat code <= 2 ^ 53)%Z ->
  ascii_string tail = true ->
  first_is (fun c => negb (Ascii.eqb c " "%char)) tail = false ->
  statusLine_of decode (wire_bytes (GURT_VERSION ++ " " ++ decimal code ++ tail) ++ CRLF)
  = Returned {| status := Num (Z.of_nat code);
                bytesRead := String.length (GURT_VERSION ++ " " ++ decimal code ++ tail) + 2 |}.
Proof.
  intros Hdec Hc Ha Ht.
  rewrite (statusLine_of_tokens decode _ (decimal code) tail).
  - rewrite (parseInt_decimal code Hc). reflexivity.
  - apply Hdec. change (GURT_VERSION ++ " " ++ decimal code ++ tail)%string
      with ((GURT_VERSION ++ " ") ++ (decimal code ++ tail))%string.
    rewrite !ascii_string_app, (digits_ascii _ (decimal_digits code)), Ha. reflexivity.
  - reflexivity.
  - apply digits_without; [reflexivity | apply decimal_digits].
  - exact Ht.
Qed.

Lemma status_line_no_LF (code : nat) (tail : string) :
  occurs LF_char tail = false ->
  occurs LF_char (GURT_VERSION ++ " " ++ decimal code ++ tail) = false.
Proof.
  intros Hl. change (GURT_VERSION ++ " " ++ decimal code ++ tail)%string
    with ((GURT_VERSION ++ " ") ++ (decimal code ++ tail))%string.
  rewrite !occurs_app, Hl, (digits_without LF_char _ eq_refl (decimal_digits code)).
  reflexivity.
Qed.

(** X15: a whole response is read back by the calls made in order.  Over
    a stream that carries, in whatever chunks, the status line
    ["GURT/1.0.0 <code><tail>"] (the code in decimal; the tail empty or a
    space and a reason), a block of header lines, the empty line, a body
    and then anything: [readStatusLine] returns the code, the next calls
    of [readHeader] return the headers in order and then [null], and
    [readBodyExact] on a buffer of the body's length fills it with the
    body, leaving what follows unread.  Both ports. *)
Theorem response_is_read_back :
  forall (decode : bytes -> string) (code : nat) (tail : string)
         (hs : list (string * string)) (body rest target : bytes),
    (forall s, ascii_string s = true -> decode (wire_bytes s) = s) ->
    (Z.of_nat code <= 2 ^ 53)%Z ->
    ascii_string tail = true ->
    occurs LF_char tail = false ->
    first_is (fun c => negb (Ascii.eqb c " "%char)) tail = false ->
    Forall good_header hs ->
    List.length target = List.length body ->
    (forall r : Web.BufferedReader,
        Web.wf r ->
        Web.unread r
        = wire_bytes (GURT_VERSION ++ " " ++ decimal code ++ tail) ++ CRLF
          ++ lines_bytes (map header_text hs) ++ CRLF ++ body ++ rest ->
        exists r1 r2 r3,
          Web.readStatusLine decode r
          = (Returned {| status := Num (Z.of_nat code);
                         bytesRead :=
                           String.length (GURT_VERSION ++ " " ++ decimal code ++ tail) + 2 |},
             r1)
          /\ Web.readHeader_times decode (S (List.length hs)) r1
             = (map header_read hs ++ [Returned None], r2)
          /\ Web.readBodyExact target r2 = (Returned body, r3)
          /\ Web.unread r3 = rest)
    /\ (forall r : Node.BufferedReader,
           Node.wf r ->
           Node.unread r
           = wire_bytes (GURT_VERSION ++ " " ++ decimal code ++ tail) ++ CRLF
             ++ lines_bytes (map header_text hs) ++ CRLF ++ body ++ rest ->
           exists r1 r2 r3,
             Node.readStatusLine r
             = (Returned {| status := Num (Z.of_nat code);
                            bytesRead :=
                              String.length (GURT_VERSION ++ " " ++ decimal code ++ tail) + 2 |},
                r1)
             /\ Node.readHeader_times (S (List.length hs)) r1
                = (map header_read hs ++ [Returned None], r2)
             /\ Node.readBodyExact target r2 = (Returned body, r3)
             /\ Node.unread r3 = rest).
Proof.
  intros decode code tail hs body rest target Hdec Hcode Ha Hl Ht Hgood Hlen.
  pose proof (status_line_no_LF code tail Hl) as Hno.
  split; intros r Hwf Hu.
  - destruct (web_reads_line r (GURT_VERSION ++ " " ++ decimal code ++ tail) Hwf)
      as (r1 & E1 & U1 & Hwf1).
    { rewrite Hu. apply next_line_intro, Hno. }
    rewrite Hu, skipn_line in U1.
    destruct (web_header_block decode hs Hdec Hgood _ r1 Hwf1 U1) as (r2 & E2 & U2 & Hwf2).
    destruct (web_readExact_enough (List.length target) r2 Hwf2) as (r3 & E3 & U3 & _).
    { rewrite U2, length_app. lia. }
    exists r1, r2, r3. repeat split.
    + unfold Web.readStatusLine. rewrite E1.
      rewrite (status_line_of_decimal decode code tail Hdec Hcode Ha Ht). reflexivity.
    + exact E2.
    + unfold Web.readBodyExact. rewrite E3, U2, Hlen.
      rewrite firstn_app, firstn_all, Nat.sub_diag. cbn [firstn].
      rewrite app_nil_r, copy_into_full by (symmetry; exact Hlen). reflexivity.
    + rewrite U3, U2, Hlen, skipn_app, skipn_all, Nat.sub_diag. reflexivity.
  - destruct (node_reads_line r (GURT_VERSION ++ " " ++ decimal code ++ tail) Hwf)
      as (r1 & E1 & U1 & Hwf1).
    { rewrite Hu. apply next_line_intro, Hno. }
    rewrite Hu, skipn_line in U1.
    destruct (node_header_block hs Hgood _ r1 Hwf1 U1) as (r2 & E2 & U2 & Hwf2).
    destruct (node_readExact_enough (List.length target) r2 Hwf2) as (r3 & E3 & U3 & _).
    { rewrite U2, length_app. lia. }
    exists r1, r2, r3. repeat split.
    + unfold Node.readStatusLine. rewrite E1.
      rewrite (status_line_of_decimal Node.toString_ascii code tail
                 node_toString_ascii_wire Hcode Ha Ht). reflexivity.
    + exact E2.
    + unfold Node.readBodyExact. rewrite E3, U2, Hlen.
      rewrite firstn_app, firstn_all, Nat.sub_diag. cbn [firstn].
      rewrite app_nil_r, copy_into_full by (symmetry; exact Hlen). reflexivity.
    + rewrite U3, U2, Hlen, skipn_app, skipn_all, Nat.sub_diag. reflexivity.
Qed.

Lemma response_is_read_back_witness :
  exists r1 r2 r3,
    Node.readStatusLine
      (Node.new_BufferedReader
         [wire_bytes "GURT/1.0.0 200 OK"; CRLF ++ wire_bytes "Content-Length: 2";
          CRLF ++ CRLF ++ wire_bytes "h"; wire_bytes "i!"])
    = (Returned {| status := Num 200; bytesRead := 19 |}, r1)
    /\ Node.readHeader_times 2 r1
       = ([Returned (Some {| name := "content-length"; value := "2"; totalBytes := 19 |});
           Returned None], r2)
    /\ Node.readBodyExact [x00; x00] r2 = (Returned (wire_bytes "hi"), r3)
    /\ Node.unread r3 = wire_bytes "!".
Proof.
  apply (proj2 (response_is_read_back Node.toString_ascii 200 " OK"
                  [("Content-Length", " 2")]%string
                  (wire_bytes "hi") (wire_bytes "!") [x00; x00]
                  node_toString_ascii_wire ltac:(lia) eq_refl eq_refl eq_refl
                  ltac:(repeat constructor) eq_refl)).
  - intros H; discriminate H.
  - reflexivity.
Defined.

(** ** Exact reads, one after the other *)

Lemma firstn_add (n m : nat) (u : bytes) :
  firstn (n + m) u = firstn n u ++ firstn m (skipn n u).
Proof.
  revert u. induction n as [| n IH]; intros u; [reflexivity |].
  destruct u as [| x u]; cbn.
  - rewrite firstn_nil. reflexivity.
  - rewrite IH. reflexivity.
Qed.

(** X16: two exact reads in a row give what one read of the sum gives:
    when [n + m] bytes are left in the stream, [readExact(n)] followed by
    [readExact(m)] returns the two parts of what [readExact(n + m)]
    returns, and both ways leave the same bytes unread.  Both ports. *)
Theorem readExact_twice_is_readExact_of_the_sum :
  forall n m : nat,
    (forall r : Web.BufferedReader,
        Web.wf r ->
        n + m <= List.length (Web.unread r) ->
        exists out1 out2 r1 r2 r12,
          Web.readExact n r = (Returned out1, r1)
          /\ Web.readExact m r1 = (Returned out2, r2)
          /\ Web.readExact (n + m) r = (Returned (out1 ++ out2), r12)
          /\ Web.unread r12 = Web.unread r2)
    /\ (forall r : Node.BufferedReader,
           Node.wf r ->
           n + m <= List.length (Node.unread r) ->
           exists out1 out2 r1 r2 r12,
             Node.readExact n r = (Returned out1, r1)
             /\ Node.readExact m r1 = (Returned out2, r2)
             /\ Node.readExact (n + m) r = (Returned (out1 ++ out2), r12)
             /\ Node.unread r12 = Node.unread r2).
Proof.
  intros n m. split; intros r Hwf Hlen.
  - destruct (web_readExact_enough n r Hwf) as (r1 & E1 & U1 & Hwf1); [lia |].
    destruct (web_readExact_enough m r1 Hwf1) as (r2 & E2 & U2 & _).
    { rewrite U1, length_skipn. lia. }
    destruct (web_readExact_enough (n + m) r Hwf Hlen) as (r12 & E12 & U12 & _).
    exists (firstn n (Web.unread r)), (firstn m (Web.unread r1)), r1, r2, r12.
    split; [exact E1 |]. split; [exact E2 |]. split.
    + rewrite E12, U1, firstn_add. reflexivity.
    + rewrite U12, U2, U1, skipn_skipn. f_equal. lia.
  - destruct (node_readExact_enough n r Hwf) as (r1 & E1 & U1 & Hwf1); [lia |].
    destruct (node_readExact_enough m r1 Hwf1) as (r2 & E2 & U2 & _).
    { rewrite U1, length_skipn. lia. }
    destruct (node_readExact_enough (n + m) r Hwf Hlen) as (r12 & E12 & U12 & _).
    exists (firstn n (Node.unread r)), (firstn m (Node.unread r1)), r1, r2, r12.
    split; [exact E1 |]. split; [exact E2 |]. split.
    + rewrite E12, U1, firstn_add. reflexivity.
    + rewrite U12, U2, U1, skipn_skipn. f_equal. lia.
Qed.

Lemma readExact_twice_is_readExact_of_the_sum_witness :
  exists out1 out2 r1 r2 r12,
    Web.readExact 2 (Web.new_BufferedReader [wire_bytes "abc"; wire_bytes "def"])
    = (Returned out1, r1)
    /\ Web.readExact 3 r1 = (Returned out2, r2)
    /\ Web.readExact (2 + 3) (Web.new_BufferedReader [wire_bytes "abc"; wire_bytes "def"])
       = (Returned (out1 ++ out2), r12)
    /\ Web.unread r12 = Web.unread r2.
Proof.
  apply (proj1 (readExact_twice_is_readExact_of_the_sum 2 3)).
  - intros H; discriminate H.
  - cbn. lia.
Defined.

(** ** Events of the socket and calls *)

Lemma node_readExact_by_bytes (n : nat) (r r' : Node.BufferedReader) :
  Node.wf r -> Node.wf r' -> Node.unread r' = Node.unread r ->
  fst (Node.readExact n r') = fst (Node.readExact n r)
  /\ Node.unread (snd (Node.readExact n r')) = Node.unread (snd (Node.readExact n r)).
Proof.
  intros Hwf Hwf' Hu.
  destruct (Nat.le_gt_cases n (List.length (Node.unread r))) as [Hlen | Hlen].
  - destruct (node_readExact_enough n r Hwf Hlen) as (r1 & E & U & _).
    destruct (node_readExact_enough n r' Hwf') as (r1' & E' & U' & _); [rewrite Hu; exact Hlen |].
    rewrite E, E'. cbn [fst snd]. rewrite U, U', Hu. split; reflexivity.
  - rewrite (node_readExact_short n r Hwf Hlen).
    rewrite (node_readExact_short n r' Hwf') by (rewrite Hu; exact Hlen).
    cbn [fst snd]. rewrite Hu. split; reflexivity.
Qed.

Lemma node_readUntilCRLF_by_bytes (r r' : Node.BufferedReader) :
  Node.wf r -> Node.wf r' -> Node.unread r' = Node.unread r ->
  fst (Node.readUntilCRLF r') = fst (Node.readUntilCRLF r)
  /\ Node.unread (snd (Node.readUntilCRLF r')) = Node.unread (snd (Node.readUntilCRLF r)).
Proof.
  intros Hwf Hwf' Hu.
  destruct (indexOfCRLF_cases (Node.unread r)) as [[_ Hno] | (k & _ & Hk)].
  - rewrite (node_readUntilCRLF_absent r Hwf Hno).
    rewrite (node_readUntilCRLF_absent r' Hwf') by (rewrite Hu; exact Hno).
    cbn [fst snd]. rewrite Hu. split; reflexivity.
  - destruct (node_readUntilCRLF_present r k Hwf Hk) as (r1 & E & U & _).
    destruct (node_readUntilCRLF_present r' k Hwf') as (r1' & E' & U' & _);
      [rewrite Hu; exact Hk |].
    rewrite E, E'. cbn [fst snd]. rewrite U, U', Hu. split; reflexivity.
Qed.

(** X17: in the Node port, what [readExact] and [readUntilCRLF] answer
    does not depend on when the socket's events are handled: with the
    next event handled before the call is made, the call gives the same
    outcome (bytes returned, 'Unexpected EOF', or a promise that stays
    pending) and leaves the same bytes unread as when the event arrives
    while the call waits. *)
Theorem node_answers_do_not_depend_on_event_timing :
  forall r r1 : Node.BufferedReader,
    Node.wf r ->
    Node.emit r = Some r1 ->
    (forall n,
        fst (Node.readExact n r1) = fst (Node.readExact n r)
        /\ Node.unread (snd (Node.readExact n r1))
           = Node.unread (snd (Node.readExact n r)))
    /\ fst (Node.readUntilCRLF r1) = fst (Node.readUntilCRLF r)
    /\ Node.unread (snd (Node.readUntilCRLF r1))
       = Node.unread (snd (Node.readUntilCRLF r)).
Proof.
  intros r r1 Hwf E. destruct (node_emit_unread r r1 Hwf E) as [Hwf1 Hu].
  split; [intros n; apply node_readExact_by_bytes; assumption |].
  apply node_readUntilCRLF_by_bytes; assumption.
Qed.

Lemma node_answers_do_not_depend_on_event_timing_witness :
  fst (Node.readUntilCRLF
         {| Node.incoming := [wire_bytes "b" ++ CRLF]; Node.readableEnded := false;
            Node.buf := wire_bytes "a" ++ CRLF ++ wire_bytes "x" |})
  = fst (Node.readUntilCRLF
           (Node.new_BufferedReader
              [wire_bytes "a" ++ CRLF ++ wire_bytes "x"; wire_bytes "b" ++ CRLF]))
  /\ Node.unread (snd (Node.readUntilCRLF
                         {| Node.incoming := [wire_bytes "b" ++ CRLF];
                            Node.readableEnded := false;
                            Node.buf := wire_bytes "a" ++ CRLF ++ wire_bytes "x" |}))
     = Node.unread (snd (Node.readUntilCRLF
                           (Node.new_BufferedReader
                              [wire_bytes "a" ++ CRLF ++ wire_bytes "x";
                               wire_bytes "b" ++ CRLF]))).
Proof.
  apply (node_answers_do_not_depend_on_event_timing
           (Node.new_BufferedReader
              [wire_bytes "a" ++ CRLF ++ wire_bytes "x"; wire_bytes "b" ++ CRLF])).
  - intros H; discriminate H.
  - reflexivity.
Defined.

(** ** Finding the delimiter *)

(** X18: the search for the delimiter, [#indexOfCRLF] in the web port and
    the [idx] loop of [readUntilCRLF] in the Node port, returns [-1] exactly when no
    position of the buffer holds CR followed by LF, and otherwise the
    first such position, which lies at least two bytes before the end;
    a CR or an LF alone does not count, and no other value is returned. *)
Theorem indexOfCRLF_finds_the_first_delimiter :
  forall b : bytes,
    (indexOfCRLF b = (-1)%Z <-> no_CRLF b)
    /\ (forall k, indexOfCRLF b = Z.of_nat k <-> first_CRLF_at b k)
    /\ (forall k, indexOfCRLF b = Z.of_nat k -> k + 2 <= List.length b)
    /\ (indexOfCRLF b = (-1)%Z \/ exists k, indexOfCRLF b = Z.of_nat k).
Proof.
  intros b. split; [apply indexOfCRLF_absent |].
  split; [intros k; apply indexOfCRLF_found |].
  split.
  - intros k E. apply indexOfCRLF_found in E. destruct E as [Hat _].
    pose proof (CRLF_at_length b k Hat). lia.
  - destruct (indexOfCRLF_cases b) as [[E _] | (k & E & _)].
    + left; exact E.
    + right; exists k; exact E.
Qed.
(** * What the client does not check *)

Lemma crlf_ascii : ascii_string crlf = true.
Proof. reflexivity. Qed.

Lemma injected_chunks_bytes (encode : string -> bytes)
      (line host name value ua : string) :
  (forall s, ascii_string s = true -> encode s = wire_bytes s) ->
  ascii_string line = true -> ascii_string host = true ->
  ascii_string name = true -> ascii_string value = true ->
  ascii_string ua = true ->
  List.concat
    [encode (line ++ crlf)%string;
     encode ("host: " ++ (host ++ crlf ++ name ++ ":" ++ value) ++ crlf)%string;
     encode ("user-agent: " ++ ua ++ crlf)%string;
     encode crlf]
  = wire_bytes line ++ CRLF
    ++ lines_bytes (map header_text
                      [("host", String " "%char host); (name, value);
                       ("user-agent", String " "%char ua)]%string)
    ++ CRLF ++ [].
Proof.
  intros Henc Hl Hh Hn Hv Hu.
  rewrite (encode_line encode line Henc Hl).
  rewrite (Henc crlf eq_refl), wire_bytes_crlf.
  change ("user-agent: " ++ ua ++ crlf)%string with (("user-agent: " ++ ua) ++ crlf)%string.
  rewrite (encode_line encode ("user-agent: " ++ ua) Henc)
    by (rewrite ascii_string_app, Hu; reflexivity).
  replace ("host: " ++ (host ++ crlf ++ name ++ ":" ++ value) ++ crlf)%string
    with ((("host: " ++ host) ++ crlf) ++ ((name ++ ":" ++ value) ++ crlf))%string
    by (rewrite !str_app_assoc; reflexivity).
  rewrite Henc
    by (rewrite !ascii_string_app, Hh, Hn, Hv; reflexivity).
  cbn [List.concat map lines_bytes].
  change (header_text ("host", String " "%char host))%string
    with ("host: " ++ host)%string.
  change (header_text ("user-agent", String " "%char ua))%string
    with ("user-agent: " ++ ua)%string.
  change (header_text (name, value)) with (name ++ ":" ++ value)%string.
  rewrite !wire_bytes_app, wire_bytes_crlf, <- !app_assoc. reflexivity.
Qed.

(** X20: the client writes its arguments as they are, without escaping
    or rejecting a line break.  A host argument made of a host, CR LF,
    and a header line [name:value] is written so that a reader over the
    bytes gets the [host] header with the host alone, then a header with
    that name and value, then [user-agent]: the argument has added a
    header to the request.  Both ports. *)
Theorem request_arguments_are_written_unescaped :
  forall (encode : string -> bytes) (decode : bytes -> string)
         (method : Method) (path host name value ua : string),
    (forall s, ascii_string s = true -> encode s = wire_bytes s) ->
    (forall s, ascii_string s = true -> decode (wire_bytes s) = s) ->
    ascii_string path = true -> occurs LF_char path = false ->
    ascii_string host = true -> occurs LF_char host = false ->
    ascii_string name = true -> occurs LF_char name = false ->
    occurs ":"%char name = false ->
    ascii_string value = true -> occurs LF_char value = false ->
    ascii_string ua = true -> occurs LF_char ua = false ->
    (forall c : Web.GurtClient,
        exists chunks,
          Web.writer
            (Web.client_writer
               (Web.requestNoBody encode method path
                  (host ++ crlf ++ name ++ ":" ++ value) (Some ua) c))
          = Web.writer (Web.client_writer c) ++ chunks
          /\ forall r : Web.BufferedReader,
              Web.wf r ->
              Web.unread r = List.concat chunks ->
              exists r1 r2,
                Web.readUntilCRLF r
                = (Returned (wire_bytes (method_string method ++ " " ++ path
                                         ++ " " ++ GURT_VERSION) ++ CRLF), r1)
                /\ Web.readHeader_times decode 4 r1
                   = ([header_as_written "host" host;
                       header_read (name, value);
                       header_as_written "user-agent" ua;
                       Returned None], r2)
                /\ Web.unread r2 = [])
    /\ (forall c : Node.GurtClient,
           exists chunks,
             Node.socket
               (Node.requestNoBody encode method path
                  (host ++ crlf ++ name ++ ":" ++ value) (Some ua) c)
             = Node.socket c ++ chunks
             /\ forall r : Node.BufferedReader,
                 Node.wf r ->
                 Node.unread r = List.concat chunks ->
                 exists r1 r2,
                   Node.readUntilCRLF r
                   = (Returned (wire_bytes (method_string method ++ " " ++ path
                                            ++ " " ++ GURT_VERSION) ++ CRLF), r1)
                   /\ Node.readHeader_times 4 r1
                      = ([header_as_written "host" host;
                          header_read (name, value);
                          header_as_written "user-agent" ua;
                          Returned None], r2)
                   /\ Node.unread r2 = []).
Proof.
  intros encode decode method path host name value ua
         Henc Hdec Hap Hlp Hah Hlh Han Hln Hcn Hav Hlv Hau Hlu.
  destruct (request_line_good method path Hap Hlp) as [Hla Hll].
  assert (Hinj : good_header (name, value)).
  { unfold good_header, header_text. cbn [fst snd].
    change (name ++ String ":"%char value)%string with (name ++ (":" ++ value))%string.
    rewrite !occurs_app, !ascii_string_app, Han, Hln, Hav, Hlv. auto. }
  assert (Hgood : Forall good_header
                    [("host", String " "%char host); (name, value);
                     ("user-agent", String " "%char ua)]%string).
  { apply Forall_cons; [apply written_header_good; trivial |].
    apply Forall_cons; [exact Hinj |].
    apply Forall_cons; [apply written_header_good; trivial | apply Forall_nil]. }
  split.
  - intros c. eexists. split; [apply web_requestNoBody_chunks |].
    intros r Hwf Hu.
    replace (method_string method ++ " " ++ path ++ " " ++ GURT_VERSION ++ crlf)%string
      with ((method_string method ++ " " ++ path ++ " " ++ GURT_VERSION) ++ crlf)%string
      in Hu by (rewrite !str_app_assoc; reflexivity).
    rewrite (injected_chunks_bytes encode _ host name value ua Henc Hla Hah Han Hav Hau) in Hu.
    exact (web_head_reads_back decode _ _ [] r Hdec Hll Hgood Hwf Hu).
  - intros c. eexists. split; [apply node_requestNoBody_chunks |].
    intros r Hwf Hu.
    replace (method_string method ++ " " ++ path ++ " " ++ GURT_VERSION ++ crlf)%string
      with ((method_string method ++ " " ++ path ++ " " ++ GURT_VERSION) ++ crlf)%string
      in Hu by (rewrite !str_app_assoc; reflexivity).
    rewrite (injected_chunks_bytes encode _ host name value ua Henc Hla Hah Han Hav Hau) in Hu.
    exact (node_head_reads_back _ _ [] r Hll Hgood Hwf Hu).
Qed.

Lemma request_arguments_are_written_unescaped_witness :
  exists r1 r2,
    Node.readUntilCRLF
      (Node.new_BufferedReader
         (Node.socket
            (Node.requestNoBody wire_bytes Get "/"
               ("h.example" ++ crlf ++ "x-admin" ++ ":" ++ "1") (Some "t/1"%string)
               {| Node.socket := []; Node.reader := 0 |})))
    = (Returned (wire_bytes "GET / GURT/1.0.0" ++ CRLF), r1)
    /\ Node.readHeader_times 4 r1
       = ([header_as_written "host" "h.example";
           Returned (Some {| name := "x-admin"; value := "1"; totalBytes := 11 |});
           header_as_written "user-agent" "t/1";
           Returned None], r2)
    /\ Node.unread r2 = [].
Proof.
  destruct (proj2 (request_arguments_are_written_unescaped wire_bytes Node.toString_ascii
                     Get "/" "h.example" "x-admin" "1" "t/1"
                     (fun s _ => eq_refl) node_toString_ascii_wire
                     eq_refl eq_refl eq_refl eq_refl eq_refl eq_refl eq_refl
                     eq_refl eq_refl eq_refl eq_refl)
              {| Node.socket := []; Node.reader := 0 |})
    as (chunks & Hc & Hr).
  cbn in Hc. subst chunks.
  apply Hr.
  - intros H; discriminate H.
  - reflexivity.
Defined.

(** * No complete line *)

(** X21: when the stream ends without a complete line, the parsers fail
    the way [readUntilCRLF] does and parse nothing: in the web port
    [readStatusLine] and [readHeader] throw 'Unexpected EOF'; in the Node
    port they throw it only when no byte at all is left, and otherwise
    their promises never settle. *)
Theorem parsers_without_a_complete_line :
  forall decode : bytes -> string,
    (forall r : Web.BufferedReader,
        Web.wf r ->
        no_CRLF (Web.unread r) ->
        fst (Web.readStatusLine decode r) = Threw Unexpected_EOF
        /\ fst (Web.readHeader decode r) = Threw Unexpected_EOF)
    /\ (forall r : Node.BufferedReader,
           Node.wf r ->
           no_CRLF (Node.unread r) ->
           fst (Node.readStatusLine r)
           = match Node.unread r with
             | [] => Threw Unexpected_EOF
             | _ :: _ => Pending
             end
           /\ fst (Node.readHeader r)
              = match Node.unread r with
                | [] => Threw Unexpected_EOF
                | _ :: _ => Pending
                end).
Proof.
  intros decode. split; intros r Hwf Hno.
  - unfold Web.readStatusLine, Web.readHeader.
    rewrite (web_readUntilCRLF_absent r Hwf Hno). split; reflexivity.
  - unfold Node.readStatusLine, Node.readHeader.
    rewrite (node_readUntilCRLF_absent r Hwf Hno).
    destruct (Node.unread r); split; reflexivity.
Qed.

Lemma parsers_without_a_complete_line_witness :
  fst (Node.readStatusLine (Node.new_BufferedReader [wire_bytes "GURT/1.0.0 200 OK"]))
  = Pending
  /\ fst (Node.readHeader (Node.new_BufferedReader [wire_bytes "GURT/1.0.0 200 OK"]))
     = Pending.
Proof.
  apply (proj2 (parsers_without_a_complete_line Node.toString_ascii)
           (Node.new_BufferedReader [wire_bytes "GURT/1.0.0 200 OK"])).
  - intros H; discriminate H.
  - apply indexOfCRLF_absent. reflexivity.
Defined.
